(** * polymer-model: the Store's property-effects pipeline

    A shallow embedding of the observable Store of this repository
    (property-accessors.js, property-effects.js, batched-effects.js,
    store.js) and the properties of its change cycle.

    Conventions of the embedding.
    - JavaScript values are [value]s; objects and arrays live in a heap and
      are referred to by [VRef], so that [===] on objects is identity.
    - A JavaScript object used as a string-keyed map ([__data],
      [__dataPending], [__dataOld], an effect map) is an association list
      kept in insertion order, the order [for ... in] enumerates
      (integer-like keys, which JavaScript enumerates first, are assumed
      absent at the top level of these maps).
    - The effect registry of an instance is written only while the instance
      is constructed; it is the record [Registry].  Everything the running
      instance mutates is the record [State]; the mutable [lastRun] stamp of
      an effect's shared [info] object is kept there, keyed by the info's
      reference.
    - Methods supplied by the user (observers, computing functions) are
      functions from the argument values to the returned value; every call is
      recorded in the [log].  They do not call back into the store.
    - The [while] loop of [runComputedEffects] is the only unbounded loop; it
      takes fuel, and [Diverge] is the outcome of running out of it. *)

From Stdlib Require Import Ascii String List ZArith QArith Qround Bool Arith Lia.
Import ListNotations.
Close Scope Q_scope.
Open Scope string_scope.
Open Scope list_scope.

Set Implicit Arguments.

(** ** JavaScript numbers and values *)

(** A number is NaN, an infinity or a finite rational.  The sign of zero is
    not represented: [===], [<], [!] and [Math.floor] as used by the store do
    not tell [-0] from [0]. *)
Inductive number : Type :=
| NaN
| PosInf
| NegInf
| Fin (q : Q).

Definition of_nat (n : nat) : number := Fin (inject_Z (Z.of_nat n)).

(** [a < b] on numbers. *)
Definition num_lt (a b : number) : bool :=
  match a, b with
  | NaN, _ | _, NaN => false
  | PosInf, _ => false
  | _, PosInf => true
  | _, NegInf => false
  | NegInf, _ => true
  | Fin x, Fin y => negb (Qle_bool y x)
  end.

(** [a === b] on numbers. *)
Definition num_eq (a b : number) : bool :=
  match a, b with
  | PosInf, PosInf => true
  | NegInf, NegInf => true
  | Fin x, Fin y => Qeq_bool x y
  | _, _ => false
  end.

(** Unary minus. *)
Definition num_neg (a : number) : number :=
  match a with
  | NaN => NaN
  | PosInf => NegInf
  | NegInf => PosInf
  | Fin x => Fin (Qopp x)
  end.

(** [a - b]. *)
Definition num_sub (a b : number) : number :=
  match a, b with
  | NaN, _ | _, NaN => NaN
  | PosInf, PosInf | NegInf, NegInf => NaN
  | PosInf, _ => PosInf
  | NegInf, _ => NegInf
  | Fin _, PosInf => NegInf
  | Fin _, NegInf => PosInf
  | Fin x, Fin y => Fin (Qminus x y)
  end.

(** [Math.floor]. *)
Definition Math_floor (a : number) : number :=
  match a with
  | Fin x => Fin (inject_Z (Qfloor x))
  | _ => a
  end.

(** [Math.ceil]. *)
Definition Math_ceil (a : number) : number :=
  match a with
  | Fin x => Fin (inject_Z (Qceiling x))
  | _ => a
  end.

(** [Math.max]. *)
Definition Math_max (a b : number) : number :=
  match a, b with
  | NaN, _ | _, NaN => NaN
  | _, _ => if num_lt a b then b else a
  end.

(** [a + b]. *)
Definition num_add (a b : number) : number :=
  match a, b with
  | Fin x, Fin y => Fin (Qplus x y)
  | NaN, _ | _, NaN => NaN
  | PosInf, NegInf | NegInf, PosInf => NaN
  | PosInf, _ | _, PosInf => PosInf
  | NegInf, _ | _, NegInf => NegInf
  end.

(** [!a] on a number: NaN and zero are falsy. *)
Definition num_falsy (a : number) : bool :=
  match a with
  | NaN => true
  | Fin x => Qeq_bool x 0
  | _ => false
  end.

Definition is_nan (a : number) : bool :=
  match a with NaN => true | _ => false end.

(** Values.  Functions are not values of the model. *)
Inductive value : Type :=
| VUndef
| VNull
| VBool (b : bool)
| VNum (n : number)
| VStr (s : string)
| VRef (r : nat).

(** [typeof v]. *)
Definition typeof (v : value) : string :=
  match v with
  | VUndef => "undefined"
  | VNull => "object"
  | VBool _ => "boolean"
  | VNum _ => "number"
  | VStr _ => "string"
  | VRef _ => "object"
  end.

(** [a === b]. *)
Definition strict_eq (a b : value) : bool :=
  match a, b with
  | VUndef, VUndef => true
  | VNull, VNull => true
  | VBool x, VBool y => Bool.eqb x y
  | VNum x, VNum y => num_eq x y
  | VStr x, VStr y => String.eqb x y
  | VRef x, VRef y => Nat.eqb x y
  | _, _ => false
  end.

(** [Boolean(v)]. *)
Definition truthy (v : value) : bool :=
  match v with
  | VUndef | VNull => false
  | VBool b => b
  | VNum n => negb (num_falsy n)
  | VStr s => negb (String.eqb s "")
  | VRef _ => true
  end.

Definition value_is_nan (v : value) : bool :=
  match v with VNum n => is_nan n | _ => false end.

(** The type of values, for the places where a parameter is called [value]
    as in the source. *)
Abbreviation jsval := value (only parsing).

(** ** Objects as insertion-ordered maps *)

(** An object is the list of its own properties in the order a [for...in]
    loop visits them.  For ordinary names that is the order of insertion,
    which [assign] keeps.  JavaScript visits the keys that are array
    indices first, in ascending order, and an assignment to [__proto__]
    stores no property: the bags of the store are keyed by property names
    and paths, and what is stated about the order of keys is stated for
    keys that are neither. *)
Definition jsobj (A : Type) : Type := list (string * A).

Fixpoint lookup {A : Type} (k : string) (o : jsobj A) : option A :=
  match o with
  | [] => None
  | (k', v) :: o' => if String.eqb k k' then Some v else lookup k o'
  end.

(** [o[k] = v]: an existing key keeps its place, a new key goes last. *)
Fixpoint assign {A : Type} (k : string) (v : A) (o : jsobj A) : jsobj A :=
  match o with
  | [] => [(k, v)]
  | (k', v') :: o' =>
      if String.eqb k k' then (k, v) :: o' else (k', v') :: assign k v o'
  end.

(** [delete o[k]]. *)
Fixpoint delete {A : Type} (k : string) (o : jsobj A) : jsobj A :=
  match o with
  | [] => []
  | (k', v') :: o' =>
      if String.eqb k k' then o' else (k', v') :: delete k o'
  end.

(** [k in o]. *)
Definition has_key {A : Type} (k : string) (o : jsobj A) : bool :=
  match lookup k o with Some _ => true | None => false end.

Definition keys {A : Type} (o : jsobj A) : list string := map fst o.

(** [o[k]] read as a value: a missing key reads [undefined]. *)
Definition read (k : string) (o : jsobj value) : value :=
  match lookup k o with Some v => v | None => VUndef end.

(** utils.js, [mixin(target, source)] on two objects:
    [for (var i in source) target[i] = source[i]]. *)
Definition mixin_obj {A : Type} (target source : jsobj A) : jsobj A :=
  fold_left (fun t kv => assign (fst kv) (snd kv) t) source target.

(** ** The heap *)

(** An array hole reads [undefined] and is stored as [VUndef]. *)
Inductive object : Type :=
| OObj (fields : jsobj value)
| OArr (items : list value).

Definition heap_t : Type := list object.

Definition deref (h : heap_t) (r : nat) : option object := nth_error h r.

Fixpoint list_set {A : Type} (n : nat) (x : A) (l : list A) : list A :=
  match l, n with
  | [], _ => []
  | _ :: l', O => x :: l'
  | y :: l', S n' => y :: list_set n' x l'
  end.

(** Decimal array indices: ["0"], ["12"]; anything else is not an index. *)
Definition digit_of (c : Ascii.ascii) : option nat :=
  let n := Ascii.nat_of_ascii c in
  if Nat.leb 48 n && Nat.leb n 57 then Some (n - 48) else None.

Fixpoint parse_digits (acc : nat) (s : string) : option nat :=
  match s with
  | EmptyString => Some acc
  | String c s' =>
      match digit_of c with
      | Some d => parse_digits (10 * acc + d) s'
      | None => None
      end
  end.

Definition parse_index (s : string) : option nat :=
  match s with
  | EmptyString => None
  | String c s' =>
      if (Ascii.eqb c "0"%char) && negb (String.eqb s' "") then None
      else parse_digits 0 s
  end.

(** [a[i] = v] on an array: writing past the end extends it with holes. *)
Definition arr_store (i : nat) (v : value) (items : list value) : list value :=
  if Nat.ltb i (length items) then list_set i v items
  else items ++ repeat VUndef (i - length items) ++ [v].

(** [v[seg]]: reading a property of a value.  Only heap objects and arrays
    have properties in the model; an array has its indices and [length]. *)
Definition prop_get (h : heap_t) (v : value) (seg : string) : value :=
  match v with
  | VRef r =>
      match deref h r with
      | Some (OObj fields) => read seg fields
      | Some (OArr items) =>
          if String.eqb seg "length" then VNum (of_nat (length items))
          else match parse_index seg with
               | Some i => nth i items VUndef
               | None => VUndef
               end
      | None => VUndef
      end
  | _ => VUndef
  end.

(** [v[seg] = x]: writing a property of a value; the heap after the write.
    Writing to a primitive changes nothing; an array takes index writes. *)
Definition prop_set (h : heap_t) (v : value) (seg : string) (x : value)
  : heap_t :=
  match v with
  | VRef r =>
      match deref h r with
      | Some (OObj fields) => list_set r (OObj (assign seg x fields)) h
      | Some (OArr items) =>
          match parse_index seg with
          | Some i => list_set r (OArr (arr_store i x items)) h
          | None => h
          end
      | None => h
      end
  | _ => h
  end.

(** ** Path operations *)

(** Modelled from the spec: path.js ([Polymer.Path]) is not among the
    sources.  The string operations the pipeline calls form the interface
    [Path.Ops]; the pipeline is written, and its theorems are proved, for
    every implementation of it.  [Path.spec_ops] below follows section 4.1 of
    the specification and is the implementation used on concrete inputs.
    Paths are strings; array paths are not modelled. *)
Module Path.

Class Ops : Type := {
  root : string -> string;
  isDeep : string -> bool;
  isDescendant : string -> string -> bool;
  matches : string -> string -> bool;
  translate : string -> string -> string -> string;
  split : string -> list string
}.

(** [parts.join('.')]. *)
Definition join (parts : list string) : string := String.concat "." parts.

End Path.

(** ** The effect registry *)

(** property-effects.js, [TYPES]. *)
Inductive TYPES : Type := ANY | COMPUTE | OBSERVE | READ_ONLY.

(** The effect functions [fn] of an effect. *)
Inductive effect_fn : Type :=
| runObserverEffect
| runMethodObserverEffect
| runComputedEffect.

(** An argument descriptor, as [parseArg] builds it. *)
Record ArgDesc : Type := {
  arg_name : string;
  arg_value : value;
  arg_literal : bool;
  arg_structured : bool;
  arg_rootProperty : string;
  arg_wildcard : bool
}.

(** The [info] object of an effect, without its mutable [lastRun]. *)
Record Info : Type := {
  methodName : string;
  args : option (list ArgDesc);
  methodInfo : option string;
  dynamicFn : bool
}.

(** An effect [{ fn, info, path }]; [info] is a reference into [infos],
    shared by the effects [createMethodEffect] adds for one signature. *)
Record Effect : Type := {
  fx_fn : effect_fn;
  fx_info : option nat;
  fx_path : string
}.

(** An effect map: property -> array of effects.  [_addPropertyEffect] can
    push [undefined] (for READ_ONLY), hence the [option]. *)
Definition effect_map : Type := jsobj (list (option Effect)).

Record Registry : Type := {
  __propertyEffects : option effect_map;
  __computeEffects : option effect_map;
  __observeEffects : option effect_map;
  __readOnly : option effect_map;
  (** the accessor [_createPropertyAccessor] defined: property -> readOnly *)
  accessors : jsobj bool;
  infos : list Info;
  (** the functions copied from [methods] onto the instance *)
  methods : jsobj (list value -> value);
  (** the protected setters [_set<Name>]: the properties that have one *)
  setters : list string
}.

(** ** The state of a running instance *)

Inductive event : Type :=
| Dispatch (id : nat) (fx : Effect) (prop : string) (v old : value)
| Call (name : string) (args : list value).

Record State : Type := {
  heap : heap_t;
  __data : jsobj value;
  __dataPending : option (jsobj value);
  __dataOld : option (jsobj value);
  __dataInvalid : bool;
  __dataInitialized : bool;
  _asyncEffects : bool;
  __dataFromAbove : bool;
  __dataLinkedPaths : option (jsobj string);
  (** [null], or the Map of enqueued clients *)
  __dataPendingClients : option (list nat);
  __dataInterim : option (jsobj value);
  __dataInterimOld : option (jsobj value);
  _runId : nat;
  (** own properties of the instance that have no accessor *)
  own : jsobj value;
  (** [info.lastRun], by info reference *)
  lastRun : nat -> option nat;
  (** the module counter [effectUid] *)
  effectUid : nat;
  (** effect dispatches and method calls, newest first *)
  log : list event
}.

Definition set_heap (x : heap_t) (s : State) : State :=
  Build_State x (__data s) (__dataPending s) (__dataOld s) (__dataInvalid s)
    (__dataInitialized s) (_asyncEffects s) (__dataFromAbove s)
    (__dataLinkedPaths s) (__dataPendingClients s) (__dataInterim s)
    (__dataInterimOld s) (_runId s) (own s) (lastRun s) (effectUid s) (log s).

Definition set_data (x : jsobj value) (s : State) : State :=
  Build_State (heap s) x (__dataPending s) (__dataOld s) (__dataInvalid s)
    (__dataInitialized s) (_asyncEffects s) (__dataFromAbove s)
    (__dataLinkedPaths s) (__dataPendingClients s) (__dataInterim s)
    (__dataInterimOld s) (_runId s) (own s) (lastRun s) (effectUid s) (log s).

Definition set_dataPending (x : option (jsobj value)) (s : State) : State :=
  Build_State (heap s) (__data s) x (__dataOld s) (__dataInvalid s)
    (__dataInitialized s) (_asyncEffects s) (__dataFromAbove s)
    (__dataLinkedPaths s) (__dataPendingClients s) (__dataInterim s)
    (__dataInterimOld s) (_runId s) (own s) (lastRun s) (effectUid s) (log s).

Definition set_dataOld (x : option (jsobj value)) (s : State) : State :=
  Build_State (heap s) (__data s) (__dataPending s) x (__dataInvalid s)
    (__dataInitialized s) (_asyncEffects s) (__dataFromAbove s)
    (__dataLinkedPaths s) (__dataPendingClients s) (__dataInterim s)
    (__dataInterimOld s) (_runId s) (own s) (lastRun s) (effectUid s) (log s).

Definition set_dataInvalid (x : bool) (s : State) : State :=
  Build_State (heap s) (__data s) (__dataPending s) (__dataOld s) x
    (__dataInitialized s) (_asyncEffects s) (__dataFromAbove s)
    (__dataLinkedPaths s) (__dataPendingClients s) (__dataInterim s)
    (__dataInterimOld s) (_runId s) (own s) (lastRun s) (effectUid s) (log s).

Definition set_dataInitialized (x : bool) (s : State) : State :=
  Build_State (heap s) (__data s) (__dataPending s) (__dataOld s)
    (__dataInvalid s) x (_asyncEffects s) (__dataFromAbove s)
    (__dataLinkedPaths s) (__dataPendingClients s) (__dataInterim s)
    (__dataInterimOld s) (_runId s) (own s) (lastRun s) (effectUid s) (log s).

Definition set_dataFromAbove (x : bool) (s : State) : State :=
  Build_State (heap s) (__data s) (__dataPending s) (__dataOld s)
    (__dataInvalid s) (__dataInitialized s) (_asyncEffects s) x
    (__dataLinkedPaths s) (__dataPendingClients s) (__dataInterim s)
    (__dataInterimOld s) (_runId s) (own s) (lastRun s) (effectUid s) (log s).

Definition set_dataLinkedPaths (x : option (jsobj string)) (s : State)
  : State :=
  Build_State (heap s) (__data s) (__dataPending s) (__dataOld s)
    (__dataInvalid s) (__dataInitialized s) (_asyncEffects s)
    (__dataFromAbove s) x (__dataPendingClients s) (__dataInterim s)
    (__dataInterimOld s) (_runId s) (own s) (lastRun s) (effectUid s) (log s).

Definition set_dataPendingClients (x : option (list nat)) (s : State)
  : State :=
  Build_State (heap s) (__data s) (__dataPending s) (__dataOld s)
    (__dataInvalid s) (__dataInitialized s) (_asyncEffects s)
    (__dataFromAbove s) (__dataLinkedPaths s) x (__dataInterim s)
    (__dataInterimOld s) (_runId s) (own s) (lastRun s) (effectUid s) (log s).

Definition set_dataInterim (x : option (jsobj value)) (s : State) : State :=
  Build_State (heap s) (__data s) (__dataPending s) (__dataOld s)
    (__dataInvalid s) (__dataInitialized s) (_asyncEffects s)
    (__dataFromAbove s) (__dataLinkedPaths s) (__dataPendingClients s) x
    (__dataInterimOld s) (_runId s) (own s) (lastRun s) (effectUid s) (log s).

Definition set_dataInterimOld (x : option (jsobj value)) (s : State) : State :=
  Build_State (heap s) (__data s) (__dataPending s) (__dataOld s)
    (__dataInvalid s) (__dataInitialized s) (_asyncEffects s)
    (__dataFromAbove s) (__dataLinkedPaths s) (__dataPendingClients s)
    (__dataInterim s) x (_runId s) (own s) (lastRun s) (effectUid s) (log s).

Definition set_runId (x : nat) (s : State) : State :=
  Build_State (heap s) (__data s) (__dataPending s) (__dataOld s)
    (__dataInvalid s) (__dataInitialized s) (_asyncEffects s)
    (__dataFromAbove s) (__dataLinkedPaths s) (__dataPendingClients s)
    (__dataInterim s) (__dataInterimOld s) x (own s) (lastRun s)
    (effectUid s) (log s).

Definition set_own (x : jsobj value) (s : State) : State :=
  Build_State (heap s) (__data s) (__dataPending s) (__dataOld s)
    (__dataInvalid s) (__dataInitialized s) (_asyncEffects s)
    (__dataFromAbove s) (__dataLinkedPaths s) (__dataPendingClients s)
    (__dataInterim s) (__dataInterimOld s) (_runId s) x (lastRun s)
    (effectUid s) (log s).

Definition set_lastRun (x : nat -> option nat) (s : State) : State :=
  Build_State (heap s) (__data s) (__dataPending s) (__dataOld s)
    (__dataInvalid s) (__dataInitialized s) (_asyncEffects s)
    (__dataFromAbove s) (__dataLinkedPaths s) (__dataPendingClients s)
    (__dataInterim s) (__dataInterimOld s) (_runId s) (own s) x
    (effectUid s) (log s).

Definition set_effectUid (x : nat) (s : State) : State :=
  Build_State (heap s) (__data s) (__dataPending s) (__dataOld s)
    (__dataInvalid s) (__dataInitialized s) (_asyncEffects s)
    (__dataFromAbove s) (__dataLinkedPaths s) (__dataPendingClients s)
    (__dataInterim s) (__dataInterimOld s) (_runId s) (own s) (lastRun s)
    x (log s).

Definition set_log (x : list event) (s : State) : State :=
  Build_State (heap s) (__data s) (__dataPending s) (__dataOld s)
    (__dataInvalid s) (__dataInitialized s) (_asyncEffects s)
    (__dataFromAbove s) (__dataLinkedPaths s) (__dataPendingClients s)
    (__dataInterim s) (__dataInterimOld s) (_runId s) (own s) (lastRun s)
    (effectUid s) x.

(** ** The monad of the instance's methods *)

Inductive error : Type := TypeError.

(** A method returns, throws, or (the compute loop only) has not finished
    within the fuel it was given. *)
Inductive outcome (A : Type) : Type :=
| Ret (a : A) (s : State)
| Throw (e : error) (s : State)
| Diverge.

Arguments Ret {A} a s.
Arguments Throw {A} e s.
Arguments Diverge {A}.

Definition M (A : Type) : Type := State -> outcome A.

Definition ret {A : Type} (a : A) : M A := fun s => Ret a s.

Definition bind {A B : Type} (m : M A) (k : A -> M B) : M B :=
  fun s =>
    match m s with
    | Ret a s' => k a s'
    | Throw e s' => Throw e s'
    | Diverge => Diverge
    end.

Definition throw {A : Type} (e : error) : M A := fun s => Throw e s.

Definition gets {A : Type} (f : State -> A) : M A := fun s => Ret (f s) s.

Definition modify (f : State -> State) : M unit := fun s => Ret tt (f s).

Declare Scope js_scope.
Delimit Scope js_scope with js.
Notation "x <- m ;; k" := (bind m (fun x => k))
  (at level 61, m at next level, right associativity) : js_scope.
Notation "m ;;; k" := (bind m (fun _ => k))
  (at level 61, right associativity) : js_scope.
Open Scope js_scope.

(** [new Object] / [new Array]: the reference of the fresh heap cell. *)
Definition alloc (o : object) : M value :=
  fun s => Ret (VRef (length (heap s))) (set_heap (heap s ++ [o]) s).

Definition emit (e : event) : M unit :=
  modify (fun s => set_log (e :: log s) s).

(** utils.js, [mixin(target, source)], with [null] for either argument:
    enumerating [null] does nothing, assigning into [null] throws. *)
Definition mixin (target source : option (jsobj value))
  : M (option (jsobj value)) :=
  match source with
  | None => ret target
  | Some [] => ret target
  | Some src =>
      match target with
      | Some t => ret (Some (mixin_obj t src))
      | None => throw TypeError
      end
  end.

(** [s.indexOf(p) === 0]. *)
Definition starts_with (p s : string) : bool := String.prefix p s.

(** ** Native array methods *)

(** Truncation toward zero, the integer [ToIntegerOrInfinity] takes of a
    finite number. *)
Definition Qtrunc (q : Q) : Z := Z.quot (Qnum q) (Zpos (Qden q)).

(** [Array.prototype.splice]: the index the deletion starts at. *)
Definition actual_start (len : nat) (start : number) : nat :=
  match start with
  | NaN => 0
  | NegInf => 0
  | PosInf => len
  | Fin q =>
      let r := Qtrunc q in
      if Z.ltb r 0 then Z.to_nat (Z.max (Z.of_nat len + r) 0)
      else Nat.min (Z.to_nat r) len
  end.

(** [Array.prototype.splice]: how many items are deleted, when the call
    passes a [deleteCount] ([undefined] converts to NaN). *)
Definition actual_delete (len astart : nat) (deleteCount : number) : nat :=
  match deleteCount with
  | NaN => 0
  | NegInf => 0
  | PosInf => len - astart
  | Fin q => Z.to_nat (Z.min (Z.max (Qtrunc q) 0) (Z.of_nat (len - astart)))
  end.

(** [items.splice(start, deleteCount, ...ins)]: the array afterwards and
    the removed items. *)
Definition Array_splice (items : list value) (start deleteCount : number)
  (ins : list value) : list value * list value :=
  let a := actual_start (length items) start in
  let d := actual_delete (length items) a deleteCount in
  (firstn a items ++ ins ++ skipn (a + d) items, firstn d (skipn a items)).

(** [items.indexOf(x)]: the first index whose item [=== x]. *)
Fixpoint Array_indexOf (x : value) (items : list value) : option nat :=
  match items with
  | [] => None
  | y :: items' =>
      if strict_eq y x then Some 0
      else match Array_indexOf x items' with
           | Some i => Some (S i)
           | None => None
           end
  end.

(** property-effects.js, [splice]: "Normalize fancy native splice handling
    of crazy start values", for an array of length [len].  A [start] that is
    [undefined] converts to NaN on every use here. *)
Definition splice_start (len : nat) (start : number) : number :=
  let start :=
    if num_lt start (of_nat 0)
    then num_sub (of_nat len) (Math_floor (num_neg start))
    else Math_floor start in
  if num_falsy start then of_nat 0 else start.

(** ** The running instance *)

Section Runtime.

Context {P : Path.Ops}.
Variable inst : Registry.

(** [inst[type]]. *)
Definition effects_of (type : TYPES) : option effect_map :=
  match type with
  | ANY => __propertyEffects inst
  | COMPUTE => __computeEffects inst
  | OBSERVE => __observeEffects inst
  | READ_ONLY => __readOnly inst
  end.

(** property-effects.js, [_hasPropertyEffect(property, type)]; a caller
    that omits [type] passes [ANY]. *)
Definition _hasPropertyEffect (property : string) (type : TYPES) : bool :=
  match effects_of type with
  | Some effects => has_key property effects
  | None => false
  end.

Definition _hasReadOnlyEffect (property : string) : bool :=
  _hasPropertyEffect property READ_ONLY.

Definition _hasComputedEffect (property : string) : bool :=
  _hasPropertyEffect property COMPUTE.

(** *** PropertyAccessors *)

(** property-accessors.js, [_shouldPropChange(property, value, old)]. *)
Definition _shouldPropChange (property : string) (value old : value)
  : bool :=
  (negb (strict_eq old value)
   && (strict_eq old old || strict_eq value value))
  || String.eqb (typeof value) "object".

(** property-accessors.js, [_setPendingProperty(property, value)] of
    PropertyAccessors; [false] stands for the [undefined] it returns when
    the value is no change. *)
Definition super_setPendingProperty (property : string) (value : value)
  : M bool :=
  old <- gets (fun s => read property (__data s)) ;;
  if _shouldPropChange property value old then
    pending <- gets __dataPending ;;
    match pending with
    | None =>
        modify (fun s => set_dataOld (Some []) (set_dataPending (Some []) s))
    | Some _ => ret tt
    end ;;;
    dataOld <- gets __dataOld ;;
    match dataOld with
    | None => throw TypeError
    | Some o =>
        (if has_key property o then ret tt
         else modify (set_dataOld (Some (assign property old o)))) ;;;
        modify (fun s => set_data (assign property value (__data s)) s) ;;;
        pending' <- gets __dataPending ;;
        match pending' with
        | None => throw TypeError
        | Some p =>
            modify (set_dataPending (Some (assign property value p))) ;;;
            ret true
        end
    end
  else ret false.

(** property-accessors.js, [_isPropertyPending(prop)]. *)
Definition _isPropertyPending (prop : string) (s : State) : bool :=
  match __dataPending s with
  | Some p => has_key prop p
  | None => false
  end.

(** *** PropertyEffects: pending properties and effect functions *)

Definition clear_cached (prop : string) (data : jsobj value) : jsobj value :=
  map (fun kv => if Path.isDescendant prop (fst kv)
                 then (fst kv, VUndef) else kv) data.

(** property-effects.js, [_setPendingProperty(prop, value)]: clears the
    cached descendant paths when an object is set, then defers to
    PropertyAccessors. *)
Definition _setPendingProperty (prop : string) (value : value) : M bool :=
  (if String.eqb (typeof value) "object"
   then modify (fun s => set_data (clear_cached prop (__data s)) s)
   else ret tt) ;;;
  super_setPendingProperty prop value.

(** What the expression [root[seg]] reads, for the three kinds of root the
    store passes to [Path.get] and [Path.set]: the instance itself (a
    property with an accessor reads [__data], any other is an own
    property), the [__data] object, or a value. *)
Inductive root_t : Type := This | Data | Obj (v : value).

Definition has_accessor (prop : string) : bool := has_key prop (accessors inst).

Definition inst_get (prop : string) (s : State) : value :=
  if has_accessor prop then read prop (__data s) else read prop (own s).

Definition root_get (rt : root_t) (seg : string) (s : State) : value :=
  match rt with
  | This => inst_get seg s
  | Data => read seg (__data s)
  | Obj v => prop_get (heap s) v seg
  end.

(** Modelled from the spec: path.js is not among the sources.
    [Path.get(root, path, info)]: "walk segments; return undefined on any
    missing segment; if outInfo supplied, write the normalized path into
    outInfo.path".  The result is the value and the normalized path. *)
Definition Path_get (rt : root_t) (path : string) (s : State)
  : value * string :=
  let parts := Path.split path in
  (match parts with
   | [] => VUndef
   | part :: rest => fold_left (prop_get (heap s)) rest (root_get rt part s)
   end,
   Path.join parts).

(** property-effects.js, [marshalArgs(data, args, path, value)]. *)
Fixpoint marshalArgs (args : list ArgDesc) (path : string) (value : value)
  : M (list jsval) :=
  match args with
  | [] => ret []
  | arg :: args' =>
      let name := arg_name arg in
      v <- gets (fun s =>
             if arg_literal arg then arg_value arg
             else if String.eqb path name then value
             else
               let v := read name (__data s) in
               if strict_eq v VUndef && arg_structured arg
               then fst (Path_get Data name s) else v) ;;
      x <- (if arg_wildcard arg then
              let baseChanged := starts_with (path ++ ".") name in
              let matches := starts_with name path && negb baseChanged in
              alloc (OObj [("path", VStr (if matches then path else name));
                           ("value", if matches then value else v);
                           ("base", v)])
            else ret v) ;;
      rest <- marshalArgs args' path value ;;
      ret (x :: rest)
  end.

(** property-effects.js, [runMethodEffect]: the method's return value, or
    [undefined] when the method is not defined. *)
Definition runMethodEffect (property : string) (value old : value)
  (info : Info) : M jsval :=
  match lookup (methodName info) (methods inst) with
  | Some fn =>
      match args info with
      | None => throw TypeError
      | Some a =>
          actual <- marshalArgs a property value ;;
          emit (Call (methodName info) actual) ;;;
          ret (fn actual)
      end
  | None => ret VUndef
  end.

(** batched-effects.js, [_setPropertyFromComputation(prop, value)]. *)
Definition _setPropertyFromComputation (prop : string) (value : value)
  : M unit :=
  if _hasPropertyEffect prop ANY then
    _ <- _setPendingProperty prop value ;; ret tt
  else if has_accessor prop then
    (* an accessor without effects is not something the registry builds *)
    throw TypeError
  else modify (fun s => set_own (assign prop value (own s)) s).

(** The key an optional property name is used as: [undefined] is the key
    ["undefined"]. *)
Definition key_of (o : option string) : string :=
  match o with Some k => k | None => "undefined" end.

(** The call [fx.fn(inst, prop, value, old, fx.info, fromAbove)] for the
    three effect functions of property-effects.js.  A method of the user is
    called and its result is used; it does not write to the instance here.
    Methods that call [this.set] are the matter of [Reentrant] below. *)
Definition apply_fn (fn : effect_fn) (property : string) (value old : value)
  (info : option nat) : M unit :=
  match info with
  | None => throw TypeError
  | Some i =>
      match nth_error (infos inst) i with
      | None => throw TypeError
      | Some info =>
          match fn with
          | runObserverEffect =>
              match lookup (methodName info) (methods inst) with
              | Some _ =>
                  emit (Call (methodName info) [value; old; VStr property])
              | None => ret tt
              end
          | runMethodObserverEffect =>
              _ <- runMethodEffect property value old info ;; ret tt
          | runComputedEffect =>
              result <- runMethodEffect property value old info ;;
              _setPropertyFromComputation (key_of (methodInfo info)) result
          end
      end
  end.

(** *** BatchedEffects: the change cycle *)

Definition stamped (id : nat) (fx : Effect) (s : State) : bool :=
  match fx_info fx with
  | Some i =>
      match lastRun s i with
      | Some r => Nat.eqb r id
      | None => false
      end
  | None => false
  end.

Definition stamp (id : nat) (fx : Effect) : M unit :=
  match fx_info fx with
  | Some i =>
      modify (fun s =>
        set_lastRun (fun j => if Nat.eqb j i then Some id else lastRun s j) s)
  | None => ret tt
  end.

(** batched-effects.js, the loop of [runEffectsForProperty]:
    [for (i=0, l=fxs.length, fx; (i<l) && (fx=fxs[i]); i++)]. *)
Fixpoint run_fxs (id : nat) (prop : string) (old : value)
  (fxs : list (option Effect)) (ran : bool) : M bool :=
  match fxs with
  | [] => ret ran
  | None :: _ => ret ran
  | Some fx :: rest =>
      skip <- gets (stamped id fx) ;;
      if Path.matches (fx_path fx) prop && negb skip then
        v <- gets (fun s => read prop (__data s)) ;;
        emit (Dispatch id fx prop v old) ;;;
        apply_fn (fx_fn fx) prop v old (fx_info fx) ;;;
        stamp id fx ;;;
        run_fxs id prop old rest true
      else run_fxs id prop old rest ran
  end.

(** batched-effects.js, [runEffectsForProperty]. *)
Definition runEffectsForProperty (effects : effect_map) (id : nat)
  (prop : string) (old : value) : M bool :=
  match lookup (Path.root prop) effects with
  | Some fxs => run_fxs id prop old fxs false
  | None => ret false
  end.

(** [oldProps && oldProps[prop]]: the argument may be omitted ([None]),
    [null] ([Some None]) or an object. *)
Definition old_of (oldProps : option (option (jsobj value))) (prop : string)
  : value :=
  match oldProps with
  | None => VUndef
  | Some None => VNull
  | Some (Some o) => read prop o
  end.

(** batched-effects.js, the [for (let prop in props)] loop of
    [runEffects]. *)
Fixpoint run_props (effects : effect_map) (id : nat)
  (oldProps : option (option (jsobj value))) (props : list string)
  (ran : bool) : M bool :=
  match props with
  | [] => ret ran
  | prop :: props' =>
      r <- runEffectsForProperty effects id prop (old_of oldProps prop) ;;
      run_props effects id oldProps props' (r || ran)
  end.

(** batched-effects.js, [runEffects(inst, type, props, oldProps)]. *)
Definition runEffects (type : TYPES) (props : option (jsobj value))
  (oldProps : option (option (jsobj value))) : M bool :=
  match effects_of type with
  | Some effects =>
      id <- gets effectUid ;;
      modify (set_effectUid (S id)) ;;;
      run_props effects id oldProps
        (match props with Some p => keys p | None => [] end) false
  | None => ret false
  end.

(** The maps a flush threads through its stages: [changedProps],
    [oldProps] and [computedProps]. *)
Definition bags : Type :=
  (option (jsobj value) * option (jsobj value) * option (jsobj value))%type.

(** batched-effects.js, the [while] loop of [runComputedEffects]. *)
Fixpoint compute_loop (fuel : nat)
  (inputProps changedProps oldProps computedProps : option (jsobj value))
  : M bags :=
  match fuel with
  | O => fun _ => Diverge
  | S fuel' =>
      ran <- runEffects COMPUTE inputProps None ;;
      if ran then
        dataOld <- gets __dataOld ;;
        oldProps' <- mixin oldProps dataOld ;;
        pending <- gets __dataPending ;;
        changedProps' <- mixin changedProps pending ;;
        computedProps' <-
          mixin (match computedProps with
                 | Some c => Some c
                 | None => Some []
                 end) pending ;;
        modify (set_dataPending None) ;;;
        compute_loop fuel' pending changedProps' oldProps' computedProps'
      else ret (changedProps, oldProps, computedProps)
  end.

(** batched-effects.js, [runComputedEffects(inst, changedProps, oldProps)];
    the result carries the two maps the loop updates in place. *)
Definition runComputedEffects (fuel : nat)
  (changedProps oldProps : option (jsobj value)) : M bags :=
  match __computeEffects inst with
  | Some _ => compute_loop fuel changedProps changedProps oldProps None
  | None => ret (changedProps, oldProps, None)
  end.

(** [changedProps[link] = computedProps[link] = inst.__data[link] =
    changedProps[path]] with [link = translate(from, to, path)]. *)
Definition mirror (from to path : string) (changed computed : jsobj value)
  : M (jsobj value * jsobj value) :=
  let link := Path.translate from to path in
  let v := read path changed in
  modify (fun s => set_data (assign link v (__data s)) s) ;;;
  ret (assign link v changed, assign link v computed).

(** The inner loop of [computeLinkedPaths], [for (let path in
    changedProps)], over the keys present when the enumeration starts. *)
Fixpoint link_paths (a b : string) (paths : list string)
  (changed computed : jsobj value) : M (jsobj value * jsobj value) :=
  match paths with
  | [] => ret (changed, computed)
  | path :: rest =>
      r <- (if Path.isDescendant a path then mirror a b path changed computed
            else if Path.isDescendant b path
                 then mirror b a path changed computed
                 else ret (changed, computed)) ;;
      link_paths a b rest (fst r) (snd r)
  end.

(** The outer loop of [computeLinkedPaths], [for (let a in links)]. *)
Fixpoint link_all (links : list (string * string))
  (changed : option (jsobj value)) (computed : jsobj value)
  : M (option (jsobj value) * jsobj value) :=
  match links with
  | [] => ret (changed, computed)
  | (a, b) :: rest =>
      match changed with
      | None => link_all rest None computed
      | Some c =>
          r <- link_paths a b (keys c) c computed ;;
          link_all rest (Some (fst r)) (snd r)
      end
  end.

(** batched-effects.js, [computeLinkedPaths(inst, changedProps,
    computedProps)]; the result carries [changedProps], updated in
    place by the source. *)
Definition computeLinkedPaths (changedProps computedProps
  : option (jsobj value))
  : M (option (jsobj value) * option (jsobj value)) :=
  links <- gets __dataLinkedPaths ;;
  match links with
  | Some l =>
      r <- link_all l changedProps
             (match computedProps with Some c => c | None => [] end) ;;
      ret (fst r, Some (snd r))
  | None => ret (changedProps, computedProps)
  end.

(** batched-effects.js, [notifyProperties(inst, changedProps,
    computedProps, oldProps)]: [Some (changedProps, oldProps)] for the
    object it returns, [None] for [undefined]. *)
Definition notifyProperties (changedProps computedProps oldProps
  : option (jsobj value))
  : M (option (option (jsobj value) * option (jsobj value))) :=
  runId <- gets (fun s => S (_runId s)) ;;
  modify (set_runId runId) ;;;
  interim <- gets __dataInterim ;;
  interim' <- match interim with
              | Some i => mixin (Some i) changedProps
              | None => ret changedProps
              end ;;
  modify (set_dataInterim interim') ;;;
  interimOld <- gets __dataInterimOld ;;
  interimOld' <- match interimOld with
                 | Some i => mixin (Some i) oldProps
                 | None => ret oldProps
                 end ;;
  modify (set_dataInterimOld interimOld') ;;;
  current <- gets _runId ;;
  if Nat.eqb runId current then
    changed <- gets __dataInterim ;;
    old <- gets __dataInterimOld ;;
    modify (set_dataInterim None) ;;;
    modify (set_dataInterimOld None) ;;;
    ret (Some (changed, old))
  else ret None.

(** batched-effects.js, [_flushClients()].  A client is another instance,
    an external collaborator: its own [_flushProperties(true)] does not
    touch this instance. *)
Definition _flushClients : M unit :=
  clients <- gets __dataPendingClients ;;
  match clients with
  | Some _ => modify (set_dataPendingClients None)
  | None => ret tt
  end.

(** batched-effects.js, [_propertiesChanged(currentProps, changedProps,
    oldProps)]. *)
Definition _propertiesChanged (fuel : nat)
  (changedProps oldProps : option (jsobj value)) : M unit :=
  r <- runComputedEffects fuel changedProps oldProps ;;
  let '(changedProps, oldProps, computedProps) := r in
  l <- computeLinkedPaths changedProps computedProps ;;
  let '(changedProps, computedProps) := l in
  props <- notifyProperties changedProps computedProps oldProps ;;
  match props with
  | Some (changedProps, oldProps) =>
      _flushClients ;;;
      _ <- runEffects OBSERVE changedProps (Some oldProps) ;;
      ret tt
  | None => ret tt
  end.

(** property-accessors.js, [_flushProperties()] of PropertyAccessors. *)
Definition super_flushProperties (fuel : nat) : M unit :=
  oldProps <- gets __dataOld ;;
  changedProps <- gets __dataPending ;;
  modify (set_dataPending None) ;;;
  _propertiesChanged fuel changedProps oldProps.

(** property-effects.js / store.js, [ready()]. *)
Definition ready : M unit := modify (set_dataInitialized true).

(** property-effects.js, [_flushProperties(fromAbove)]. *)
Definition _flushProperties (fuel : nat) (fromAbove : bool) : M unit :=
  initialized <- gets __dataInitialized ;;
  (if initialized then ret tt else ready) ;;;
  pending <- gets __dataPending ;;
  clients <- gets __dataPendingClients ;;
  match pending, clients with
  | None, None => ret tt
  | _, _ =>
      modify (set_dataFromAbove fromAbove) ;;;
      super_flushProperties fuel ;;;
      modify (set_dataFromAbove false)
  end.

(** property-accessors.js, [_invalidateProperties()] of PropertyAccessors:
    the callback is queued as a microtask, see [microtask]. *)
Definition super_invalidateProperties : M unit :=
  invalid <- gets __dataInvalid ;;
  if invalid then ret tt else modify (set_dataInvalid true).


(** property-effects.js, [_invalidateProperties()]. *)
Definition _invalidateProperties (fuel : nat) : M unit :=
  initialized <- gets __dataInitialized ;;
  if initialized then
    async <- gets _asyncEffects ;;
    if async then super_invalidateProperties
    else _flushProperties fuel false
  else ret tt.

(** property-accessors.js, [_setProperty(property, value)]. *)
Definition _setProperty (fuel : nat) (property : string) (value : value)
  : M unit :=
  changed <- _setPendingProperty property value ;;
  if changed then _invalidateProperties fuel else ret tt.

(** *** Paths into the instance *)

(** [inst[prop] = value]: the setter of the accessor
    [_createPropertyAccessor] defined (a read-only one only logs), or a
    plain own property. *)
Definition inst_assign (fuel : nat) (prop : string) (value : value)
  : M unit :=
  match lookup prop (accessors inst) with
  | Some true => ret tt
  | Some false => _setProperty fuel prop value
  | None => modify (fun s => set_own (assign prop value (own s)) s)
  end.

Definition root_assign (fuel : nat) (rt : root_t) (seg : string)
  (value : value) : M unit :=
  match rt with
  | This => inst_assign fuel seg value
  | Data => modify (fun s => set_data (assign seg value (__data s)) s)
  | Obj v => modify (fun s => set_heap (prop_set (heap s) v seg value) s)
  end.

(** A segment is missing when it reads [undefined] or [null]. *)
Definition missing (v : value) : bool :=
  match v with VUndef | VNull => true | _ => false end.

(** Dereference [parts] from [prop]; [None] when a segment is missing. *)
Fixpoint walk_to (h : heap_t) (prop : value) (parts : list string)
  : option value :=
  match parts with
  | [] => Some prop
  | part :: rest =>
      let next := prop_get h prop part in
      if missing next then None else walk_to h next rest
  end.

(** Modelled from the spec: path.js is not among the sources.
    [Path.set(root, path, value)]: "walk all but the last segment; if any
    intermediate is missing return falsy (no-op); otherwise assign leaf and
    return normalized path string".  [None] is the falsy result. *)
Definition Path_set (fuel : nat) (rt : root_t) (path : string)
  (value : value) : M (option string) :=
  let parts := Path.split path in
  match parts with
  | [] => ret None
  | [leaf] => root_assign fuel rt leaf value ;;; ret (Some (Path.join parts))
  | first :: rest =>
      top <- gets (root_get rt first) ;;
      if missing top then ret None
      else
        holder <- gets (fun s => walk_to (heap s) top (removelast rest)) ;;
        match holder with
        | None => ret None
        | Some h =>
            modify (fun s =>
              set_heap (prop_set (heap s) h (last rest "") value) s) ;;;
            ret (Some (Path.join parts))
        end
  end.

(** property-effects.js, [_setPathOrUnmanagedProperty(path, value)];
    [None] is the [undefined] it returns for an unmanaged root. *)
Definition _setPathOrUnmanagedProperty (fuel : nat) (path : string)
  (value : value) : M (option string) :=
  let rootProperty := Path.root path in
  let hasEffect := _hasPropertyEffect rootProperty ANY in
  let isPath := negb (String.eqb rootProperty path) in
  path' <- (if negb hasEffect || isPath
            then Path_set fuel This path value
            else ret (Some path)) ;;
  if hasEffect then ret path' else ret None.

(** [if (path)] on what [_setPathOrUnmanagedProperty] returned. *)
Definition truthy_path (p : option string) : option string :=
  match p with
  | Some q => if String.eqb q "" then None else Some q
  | None => None
  end.

(** *** The public API *)

(** property-effects.js, [get(path, root)]; an omitted [root] is
    [VUndef]. *)
Definition get (path : string) (root : value) (s : State) : value :=
  fst (Path_get (if truthy root then Obj root else This) path s).

(** property-effects.js, [set(path, value, root)]. *)
Definition set (fuel : nat) (path : string) (value root : value) : M unit :=
  if truthy root then
    _ <- Path_set fuel (Obj root) path value ;; ret tt
  else if negb (_hasReadOnlyEffect path) then
    path' <- _setPathOrUnmanagedProperty fuel path value ;;
    match truthy_path path' with
    | Some p => _setProperty fuel p value
    | None => ret tt
    end
  else ret tt.

(** batched-effects.js, the body of the loop of [setProperties]. *)
Fixpoint setProperties_loop (fuel : nat) (props : jsobj value) : M unit :=
  match props with
  | [] => ret tt
  | (path, value) :: rest =>
      (if negb (_hasReadOnlyEffect path) then
         path' <- _setPathOrUnmanagedProperty fuel path value ;;
         match truthy_path path' with
         | Some p => _ <- _setPendingProperty p value ;; ret tt
         | None => ret tt
         end
       else ret tt) ;;;
      setProperties_loop fuel rest
  end.

(** batched-effects.js, [setProperties(props)]. *)
Definition setProperties (fuel : nat) (props : jsobj value) : M unit :=
  setProperties_loop fuel props ;;;
  _invalidateProperties fuel.

(** The protected setter [_set<Name>] that [_createReadOnlyProperty]
    defines; calling one that was not defined throws.  The setter is found
    by its property here, and is stored under ['_set' + upper(property)] in
    the code: two read-only properties whose names differ in the case of
    the first letter only would share the setter defined last, and are
    taken not to occur together. *)
Definition protected_set (fuel : nat) (property : string) (value : value)
  : M unit :=
  if existsb (String.eqb property) (setters inst)
  then _setProperty fuel property value
  else throw TypeError.

(** property-effects.js, [linkPaths(to, from)]. *)
Definition linkPaths (to from : string) : M unit :=
  links <- gets (fun s => match __dataLinkedPaths s with
                          | Some l => l
                          | None => []
                          end) ;;
  modify (set_dataLinkedPaths (Some links)) ;;;
  if negb (String.eqb from "")
  then modify (set_dataLinkedPaths (Some (assign to from links)))
  else throw TypeError.

(** property-effects.js, [unlinkPaths(path)]. *)
Definition unlinkPaths (path : string) : M unit :=
  links <- gets __dataLinkedPaths ;;
  match links with
  | Some l => modify (set_dataLinkedPaths (Some (delete path l)))
  | None => ret tt
  end.

(** property-effects.js, [notifyPath(path, value)]; [None] when the call
    has one argument. *)
Definition notifyPath (fuel : nat) (path : string) (value : option value)
  : M unit :=
  match value with
  | None =>
      r <- gets (Path_get This path) ;;
      _setProperty fuel (snd r) (fst r)
  | Some v => _setProperty fuel path v
  end.

(** *** Array mutation and splice notification *)

(** [array.length]: reading a property of [undefined] or [null] throws. *)
Definition the_length (array : value) : M jsval :=
  if missing array then throw TypeError
  else gets (fun s => prop_get (heap s) array "length").

(** The receiver of a native array method: calling [array.push] and the
    like on anything but an array throws. *)
Definition array_items (array : value) : M (list jsval) :=
  fun s =>
    match array with
    | VRef r =>
        match deref (heap s) r with
        | Some (OArr items) => Ret items s
        | _ => Throw TypeError s
        end
    | _ => Throw TypeError s
    end.

Definition array_write (array : value) (items : list value) : M unit :=
  match array with
  | VRef r => modify (fun s => set_heap (list_set r (OArr items) (heap s)) s)
  | _ => ret tt
  end.

(** property-effects.js, the function [notifySplices(inst, array, path,
    splices)]. *)
Definition notifySplices_fn (fuel : nat) (array : value) (path : string)
  (splices : value) : M unit :=
  let splicesPath := (path ++ ".splices")%string in
  record <- alloc (OObj [("indexSplices", splices)]) ;;
  _setProperty fuel splicesPath record ;;;
  len <- the_length array ;;
  _setProperty fuel (path ++ ".length")%string len ;;;
  cleared <- alloc (OObj [("indexSplices", VNull)]) ;;
  modify (fun s => set_data (assign splicesPath cleared (__data s)) s).

(** property-effects.js, [notifySplice(inst, array, path, index,
    addedCount, removed)]. *)
Definition notifySplice (fuel : nat) (array : value) (path : string)
  (index addedCount removed : value) : M unit :=
  record <- alloc (OObj [("index", index); ("addedCount", addedCount);
                         ("removed", removed); ("object", array);
                         ("type", VStr "splice")]) ;;
  splices <- alloc (OArr [record]) ;;
  notifySplices_fn fuel array path splices.

(** property-effects.js, the method [notifySplices(path, splices)]. *)
Definition notifySplices (fuel : nat) (path : string) (splices : value)
  : M unit :=
  r <- gets (Path_get This path) ;;
  notifySplices_fn fuel (fst r) (snd r) splices.

Definition count (items : list value) : value :=
  VNum (of_nat (length items)).

(** property-effects.js, [push(path, ...items)]. *)
Definition push (fuel : nat) (path : string) (items : list value)
  : M jsval :=
  r <- gets (Path_get This path) ;;
  let array := fst r in
  len <- the_length array ;;
  before <- array_items array ;;
  array_write array (before ++ items) ;;;
  match items with
  | [] => ret tt
  | _ =>
      removed <- alloc (OArr []) ;;
      notifySplice fuel array (snd r) len (count items) removed
  end ;;;
  ret (count (before ++ items)).

(** property-effects.js, [pop(path)]. *)
Definition pop (fuel : nat) (path : string) : M jsval :=
  r <- gets (Path_get This path) ;;
  let array := fst r in
  len <- the_length array ;;
  let hadLength := truthy len in
  before <- array_items array ;;
  let result := last before VUndef in
  array_write array (removelast before) ;;;
  (if hadLength then
     len' <- the_length array ;;
     removed <- alloc (OArr [result]) ;;
     notifySplice fuel array (snd r) len' (VNum (of_nat 0)) removed
   else ret tt) ;;;
  ret result.

(** property-effects.js, [splice(path, start, deleteCount, ...items)]. *)
Definition splice (fuel : nat) (path : string) (start deleteCount : number)
  (items : list value) : M jsval :=
  r <- gets (Path_get This path) ;;
  let array := fst r in
  before <- array_items array ;;
  let start := splice_start (length before) start in
  let '(after, removed) := Array_splice before start deleteCount items in
  array_write array after ;;;
  result <- alloc (OArr removed) ;;
  match items, removed with
  | [], [] => ret tt
  | _, _ =>
      notifySplice fuel array (snd r) (VNum start) (count items) result
  end ;;;
  ret result.

(** property-effects.js, [spliceByValue(path, value)]. *)
Definition spliceByValue (fuel : nat) (path : string) (value : value)
  : M jsval :=
  r <- gets (Path_get This path) ;;
  let array := fst r in
  len <- the_length array ;;
  if truthy len then
    items <- array_items array ;;
    match Array_indexOf value items with
    | Some ind => splice fuel path (of_nat ind) (of_nat 1) []
    | None => alloc (OArr [])
    end
  else alloc (OArr []).

(** property-effects.js, [shift(path)]. *)
Definition shift (fuel : nat) (path : string) : M jsval :=
  r <- gets (Path_get This path) ;;
  let array := fst r in
  len <- the_length array ;;
  let hadLength := truthy len in
  before <- array_items array ;;
  let result := hd VUndef before in
  array_write array (tl before) ;;;
  (if hadLength then
     removed <- alloc (OArr [result]) ;;
     notifySplice fuel array (snd r) (VNum (of_nat 0)) (VNum (of_nat 0))
       removed
   else ret tt) ;;;
  ret result.

(** property-effects.js, [unshift(path, ...items)]. *)
Definition unshift (fuel : nat) (path : string) (items : list value)
  : M jsval :=
  r <- gets (Path_get This path) ;;
  let array := fst r in
  before <- array_items array ;;
  array_write array (items ++ before) ;;;
  match items with
  | [] => ret tt
  | _ =>
      removed <- alloc (OArr []) ;;
      notifySplice fuel array (snd r) (VNum (of_nat 0)) (count items)
        removed
  end ;;;
  ret (count (items ++ before)).

End Runtime.

(** ** Methods that write to the store *)

(** In [Runtime] a method of the user is a function of its arguments: it
    is called, and leaves the store alone.  In the code it is called with
    the instance as [this] and may write to it.  Here a method may call
    [this.set(path, value)]: [writes m a] lists the calls the method [m]
    makes when it is called with the arguments [a], in order, and
    [inner_set] is what such a call does.  The functions of this module are
    those of [Runtime] that reach a method or that [set] reaches; they
    differ from them in [run_writes] only. *)
Module Reentrant.

Section Level.

Context {P : Path.Ops}.
Variable inst : Registry.
Variable writes : string -> list value -> list (string * value).
Variable inner_set : string -> value -> M unit.

(** The body of a method, as far as the store sees it. *)
Fixpoint run_writes (l : list (string * value)) : M unit :=
  match l with
  | [] => ret tt
  | (path, value) :: l' => inner_set path value ;;; run_writes l'
  end.

(** property-effects.js, [runMethodEffect]. *)
Definition runMethodEffect (property : string) (value old : value)
  (info : Info) : M jsval :=
  match lookup (methodName info) (methods inst) with
  | Some fn =>
      match args info with
      | None => throw TypeError
      | Some a =>
          actual <- marshalArgs inst a property value ;;
          emit (Call (methodName info) actual) ;;;
          run_writes (writes (methodName info) actual) ;;;
          ret (fn actual)
      end
  | None => ret VUndef
  end.

(** The call [fx.fn(inst, prop, value, old, fx.info, fromAbove)]. *)
Definition apply_fn (fn : effect_fn) (property : string) (value old : value)
  (info : option nat) : M unit :=
  match info with
  | None => throw TypeError
  | Some i =>
      match nth_error (infos inst) i with
      | None => throw TypeError
      | Some info =>
          match fn with
          | runObserverEffect =>
              match lookup (methodName info) (methods inst) with
              | Some _ =>
                  emit (Call (methodName info) [value; old; VStr property])
                  ;;;
                  run_writes
                    (writes (methodName info) [value; old; VStr property])
              | None => ret tt
              end
          | runMethodObserverEffect =>
              _ <- runMethodEffect property value old info ;; ret tt
          | runComputedEffect =>
              result <- runMethodEffect property value old info ;;
              _setPropertyFromComputation inst (key_of (methodInfo info))
                result
          end
      end
  end.

(** batched-effects.js, the loop of [runEffectsForProperty]. *)
Fixpoint run_fxs (id : nat) (prop : string) (old : value)
  (fxs : list (option Effect)) (ran : bool) : M bool :=
  match fxs with
  | [] => ret ran
  | None :: _ => ret ran
  | Some fx :: rest =>
      skip <- gets (stamped id fx) ;;
      if Path.matches (fx_path fx) prop && negb skip then
        v <- gets (fun s => read prop (__data s)) ;;
        emit (Dispatch id fx prop v old) ;;;
        apply_fn (fx_fn fx) prop v old (fx_info fx) ;;;
        stamp id fx ;;;
        run_fxs id prop old rest true
      else run_fxs id prop old rest ran
  end.

(** batched-effects.js, [runEffectsForProperty]. *)
Definition runEffectsForProperty (effects : effect_map) (id : nat)
  (prop : string) (old : value) : M bool :=
  match lookup (Path.root prop) effects with
  | Some fxs => run_fxs id prop old fxs false
  | None => ret false
  end.

(** batched-effects.js, the [for (let prop in props)] loop of
    [runEffects]. *)
Fixpoint run_props (effects : effect_map) (id : nat)
  (oldProps : option (option (jsobj value))) (props : list string)
  (ran : bool) : M bool :=
  match props with
  | [] => ret ran
  | prop :: props' =>
      r <- runEffectsForProperty effects id prop (old_of oldProps prop) ;;
      run_props effects id oldProps props' (r || ran)
  end.

(** batched-effects.js, [runEffects(inst, type, props, oldProps)]. *)
Definition runEffects (type : TYPES) (props : option (jsobj value))
  (oldProps : option (option (jsobj value))) : M bool :=
  match effects_of inst type with
  | Some effects =>
      id <- gets effectUid ;;
      modify (set_effectUid (S id)) ;;;
      run_props effects id oldProps
        (match props with Some p => keys p | None => [] end) false
  | None => ret false
  end.

(** batched-effects.js, the [while] loop of [runComputedEffects]. *)
Fixpoint compute_loop (fuel : nat)
  (inputProps changedProps oldProps computedProps : option (jsobj value))
  : M bags :=
  match fuel with
  | O => fun _ => Diverge
  | S fuel' =>
      ran <- runEffects COMPUTE inputProps None ;;
      if ran then
        dataOld <- gets __dataOld ;;
        oldProps' <- mixin oldProps dataOld ;;
        pending <- gets __dataPending ;;
        changedProps' <- mixin changedProps pending ;;
        computedProps' <-
          mixin (match computedProps with
                 | Some c => Some c
                 | None => Some []
                 end) pending ;;
        modify (set_dataPending None) ;;;
        compute_loop fuel' pending changedProps' oldProps' computedProps'
      else ret (changedProps, oldProps, computedProps)
  end.

(** batched-effects.js, [runComputedEffects(inst, changedProps,
    oldProps)]. *)
Definition runComputedEffects (fuel : nat)
  (changedProps oldProps : option (jsobj value)) : M bags :=
  match __computeEffects inst with
  | Some _ => compute_loop fuel changedProps changedProps oldProps None
  | None => ret (changedProps, oldProps, None)
  end.

(** batched-effects.js, [_propertiesChanged(currentProps, changedProps,
    oldProps)]. *)
Definition _propertiesChanged (fuel : nat)
  (changedProps oldProps : option (jsobj value)) : M unit :=
  r <- runComputedEffects fuel changedProps oldProps ;;
  let '(changedProps, oldProps, computedProps) := r in
  l <- computeLinkedPaths changedProps computedProps ;;
  let '(changedProps, computedProps) := l in
  props <- notifyProperties changedProps computedProps oldProps ;;
  match props with
  | Some (changedProps, oldProps) =>
      _flushClients ;;;
      _ <- runEffects OBSERVE changedProps (Some oldProps) ;;
      ret tt
  | None => ret tt
  end.

(** property-accessors.js, [_flushProperties()] of PropertyAccessors. *)
Definition super_flushProperties (fuel : nat) : M unit :=
  oldProps <- gets __dataOld ;;
  changedProps <- gets __dataPending ;;
  modify (set_dataPending None) ;;;
  _propertiesChanged fuel changedProps oldProps.

(** property-effects.js, [_flushProperties(fromAbove)]. *)
Definition _flushProperties (fuel : nat) (fromAbove : bool) : M unit :=
  initialized <- gets __dataInitialized ;;
  (if initialized then ret tt else ready) ;;;
  pending <- gets __dataPending ;;
  clients <- gets __dataPendingClients ;;
  match pending, clients with
  | None, None => ret tt
  | _, _ =>
      modify (set_dataFromAbove fromAbove) ;;;
      super_flushProperties fuel ;;;
      modify (set_dataFromAbove false)
  end.

(** property-effects.js, [_invalidateProperties()]. *)
Definition _invalidateProperties (fuel : nat) : M unit :=
  initialized <- gets __dataInitialized ;;
  if initialized then
    async <- gets _asyncEffects ;;
    if async then super_invalidateProperties
    else _flushProperties fuel false
  else ret tt.

(** property-accessors.js, [_setProperty(property, value)]. *)
Definition _setProperty (fuel : nat) (property : string) (value : value)
  : M unit :=
  changed <- _setPendingProperty property value ;;
  if changed then _invalidateProperties fuel else ret tt.

(** [inst[prop] = value]. *)
Definition inst_assign (fuel : nat) (prop : string) (value : value)
  : M unit :=
  match lookup prop (accessors inst) with
  | Some true => ret tt
  | Some false => _setProperty fuel prop value
  | None => modify (fun s => set_own (assign prop value (own s)) s)
  end.

Definition root_assign (fuel : nat) (rt : root_t) (seg : string)
  (value : value) : M unit :=
  match rt with
  | This => inst_assign fuel seg value
  | Data => modify (fun s => set_data (assign seg value (__data s)) s)
  | Obj v => modify (fun s => set_heap (prop_set (heap s) v seg value) s)
  end.

(** Modelled from the spec, as [Path_set] of [Runtime] is. *)
Definition Path_set (fuel : nat) (rt : root_t) (path : string)
  (value : value) : M (option string) :=
  let parts := Path.split path in
  match parts with
  | [] => ret None
  | [leaf] => root_assign fuel rt leaf value ;;; ret (Some (Path.join parts))
  | first :: rest =>
      top <- gets (root_get inst rt first) ;;
      if missing top then ret None
      else
        holder <- gets (fun s => walk_to (heap s) top (removelast rest)) ;;
        match holder with
        | None => ret None
        | Some h =>
            modify (fun s =>
              set_heap (prop_set (heap s) h (last rest "") value) s) ;;;
            ret (Some (Path.join parts))
        end
  end.

(** property-effects.js, [_setPathOrUnmanagedProperty(path, value)]. *)
Definition _setPathOrUnmanagedProperty (fuel : nat) (path : string)
  (value : value) : M (option string) :=
  let rootProperty := Path.root path in
  let hasEffect := _hasPropertyEffect inst rootProperty ANY in
  let isPath := negb (String.eqb rootProperty path) in
  path' <- (if negb hasEffect || isPath
            then Path_set fuel This path value
            else ret (Some path)) ;;
  if hasEffect then ret path' else ret None.

(** property-effects.js, [set(path, value, root)]. *)
Definition set (fuel : nat) (path : string) (value root : value) : M unit :=
  if truthy root then
    _ <- Path_set fuel (Obj root) path value ;; ret tt
  else if negb (_hasReadOnlyEffect inst path) then
    path' <- _setPathOrUnmanagedProperty fuel path value ;;
    match truthy_path path' with
    | Some p => _setProperty fuel p value
    | None => ret tt
    end
  else ret tt.

(** batched-effects.js, the body of the loop of [setProperties]. *)
Fixpoint setProperties_loop (fuel : nat) (props : jsobj value) : M unit :=
  match props with
  | [] => ret tt
  | (path, value) :: rest =>
      (if negb (_hasReadOnlyEffect inst path) then
         path' <- _setPathOrUnmanagedProperty fuel path value ;;
         match truthy_path path' with
         | Some p => _ <- _setPendingProperty p value ;; ret tt
         | None => ret tt
         end
       else ret tt) ;;;
      setProperties_loop fuel rest
  end.

(** batched-effects.js, [setProperties(props)]. *)
Definition setProperties (fuel : nat) (props : jsobj value) : M unit :=
  setProperties_loop fuel props ;;;
  _invalidateProperties fuel.

End Level.

(** [this.set(path, value)], called by a method while at most [level]
    calls of methods are nested; the call has no root argument. *)
Fixpoint set_at {P : Path.Ops} (inst : Registry)
  (writes : string -> list value -> list (string * value))
  (fuel level : nat) (path : string) (value : value) : M unit :=
  match level with
  | O => fun _ => Diverge
  | S level' =>
      set inst writes (set_at inst writes fuel level') fuel path value VUndef
  end.

End Reentrant.

(** ** Construction: the registry a configuration builds *)

(** What [parseMethod] returns for a method expression.  The parser itself
    is not modelled: a configuration carries the signature of its computed
    expression. *)
Record Signature : Type := {
  sig_methodName : string;
  sig_static : bool;
  sig_args : list ArgDesc
}.

(** The entry of one property in the [properties] configuration. *)
Record PropertyConfig : Type := {
  cfg_readOnly : bool;
  cfg_computed : option Signature;
  cfg_observer : option string
}.

Section Construction.

Context {P : Path.Ops}.

Definition set_effects (type : TYPES) (m : option effect_map) (r : Registry)
  : Registry :=
  match type with
  | ANY =>
      Build_Registry m (__computeEffects r) (__observeEffects r)
        (__readOnly r) (accessors r) (infos r) (methods r) (setters r)
  | COMPUTE =>
      Build_Registry (__propertyEffects r) m (__observeEffects r)
        (__readOnly r) (accessors r) (infos r) (methods r) (setters r)
  | OBSERVE =>
      Build_Registry (__propertyEffects r) (__computeEffects r) m
        (__readOnly r) (accessors r) (infos r) (methods r) (setters r)
  | READ_ONLY =>
      Build_Registry (__propertyEffects r) (__computeEffects r)
        (__observeEffects r) m (accessors r) (infos r) (methods r)
        (setters r)
  end.

(** property-effects.js, [ensureOwnEffectMap(model, type)] on an instance:
    the map is created when missing, and is the instance's own otherwise
    (no prototype of a Store has effects). *)
Definition ensureOwnEffectMap (type : TYPES) (r : Registry) : effect_map :=
  match effects_of r type with Some m => m | None => [] end.

(** property-accessors.js, [_createPropertyAccessor(property, readOnly)].
    The instance is taken to have no value under the property's name, own
    or inherited, so that [saveAccessorValue] has nothing to save and the
    accessor replaces nothing: a configuration that gives a property the
    name of a method is not covered. *)
Definition _createPropertyAccessor (property : string) (readOnly : bool)
  (r : Registry) : Registry :=
  Build_Registry (__propertyEffects r) (__computeEffects r)
    (__observeEffects r) (__readOnly r)
    (assign property readOnly (accessors r)) (infos r) (methods r)
    (setters r).

(** [effects.push(effect)] on the array of [property], created when
    missing. *)
Definition push_effect (type : TYPES) (property : string)
  (effect : option Effect) (r : Registry) : Registry :=
  let m := ensureOwnEffectMap type r in
  let effects := match lookup property m with Some l => l | None => [] end in
  set_effects type (Some (assign property (effects ++ [effect]) m)) r.

(** property-effects.js, [_addPropertyEffect(path, type, effect)]; the
    effect comes as its [fn] and [info], [None] for a call without one. *)
Definition _addPropertyEffect (path : string) (type : TYPES)
  (effect : option (effect_fn * option nat)) (r : Registry) : Registry :=
  let property := Path.root path in
  let effect := match effect with
                | Some (fn, info) => Some (Build_Effect fn info path)
                | None => None
                end in
  let any := ensureOwnEffectMap ANY r in
  let r1 :=
    match lookup property any with
    | Some _ => set_effects ANY (Some any) r
    | None =>
        _createPropertyAccessor property
          (match type with READ_ONLY => true | _ => false end)
          (set_effects ANY (Some (assign property [] any)) r)
    end in
  let r2 := match effect with
            | Some _ => push_effect ANY property effect r1
            | None => r1
            end in
  push_effect type property effect r2.

Definition new_info (info : Info) (r : Registry) : nat * Registry :=
  (length (infos r),
   Build_Registry (__propertyEffects r) (__computeEffects r)
     (__observeEffects r) (__readOnly r) (accessors r) (infos r ++ [info])
     (methods r) (setters r)).

(** property-effects.js, [createMethodEffect(model, sig, type, effectFn,
    methodInfo, dynamic)]. *)
Definition createMethodEffect (sig : Signature) (type : TYPES)
  (effectFn : effect_fn) (methodInfo : option string) (dynamic : bool)
  (r : Registry) : Registry :=
  let '(info, r0) :=
    new_info (Build_Info (sig_methodName sig) (Some (sig_args sig))
                methodInfo dynamic) r in
  let r1 :=
    if sig_static sig
    then _addPropertyEffect "__static__" type (Some (effectFn, Some info)) r0
    else
      fold_left
        (fun acc arg =>
           if arg_literal arg then acc
           else _addPropertyEffect (arg_name arg) type
                  (Some (effectFn, Some info)) acc)
        (sig_args sig) r0 in
  if dynamic
  then _addPropertyEffect (sig_methodName sig) type
         (Some (effectFn, Some info)) r1
  else r1.

(** property-effects.js, [_createComputedProperty(property, expression)],
    from the parsed expression. *)
Definition _createComputedProperty (property : string) (sig : Signature)
  (r : Registry) : Registry :=
  createMethodEffect sig COMPUTE runComputedEffect (Some property) false r.

(** property-effects.js, [_createReadOnlyProperty(property,
    protectedSetter)]. *)
Definition _createReadOnlyProperty (property : string)
  (protectedSetter : bool) (r : Registry) : Registry :=
  let r1 := _addPropertyEffect property READ_ONLY None r in
  if protectedSetter then
    Build_Registry (__propertyEffects r1) (__computeEffects r1)
      (__observeEffects r1) (__readOnly r1) (accessors r1) (infos r1)
      (methods r1) (setters r1 ++ [property])
  else r1.

(** property-effects.js, [_createObservedProperty(property,
    methodName)]. *)
Definition _createObservedProperty (property methodName : string)
  (r : Registry) : Registry :=
  let '(info, r0) := new_info (Build_Info methodName None None false) r in
  _addPropertyEffect property OBSERVE
    (Some (runObserverEffect, Some info)) r0.

(** store.js, [_createPropertyFromConfig(name, info)]. *)
Definition _createPropertyFromConfig (name : string) (info : PropertyConfig)
  (r : Registry) : Registry :=
  let readOnly := match cfg_computed info with
                  | Some _ => true
                  | None => cfg_readOnly info
                  end in
  let r1 := match cfg_computed info with
            | Some sig =>
                if _hasReadOnlyEffect r name then r
                else _createComputedProperty name sig r
            | None => r
            end in
  let r2 := if readOnly && negb (_hasReadOnlyEffect r1 name)
            then _createReadOnlyProperty name
                   (match cfg_computed info with
                    | Some _ => false
                    | None => true
                    end) r1
            else r1 in
  match cfg_observer info with
  | Some methodName => _createObservedProperty name methodName r2
  | None => r2
  end.

(** store.js, [_finalizeConfig(properties)]. *)
Definition _finalizeConfig (properties : jsobj PropertyConfig) (r : Registry)
  : Registry :=
  fold_left (fun acc kv => _createPropertyFromConfig (fst kv) (snd kv) acc)
    properties r.

(** store.js, the constructor [Store(properties, methods)]: the registry
    of the new instance. *)
Definition Store (properties : jsobj PropertyConfig)
  (methods : jsobj (list value -> value)) : Registry :=
  _finalizeConfig properties
    (Build_Registry None None None None [] [] methods []).

End Construction.

(** The state the constructors leave a new instance in, over a heap holding
    the objects the caller has already built. *)
Definition new_state (h : heap_t) : State :=
  {| heap := h;
     __data := [];
     __dataPending := None;
     __dataOld := None;
     __dataInvalid := false;
     __dataInitialized := false;
     _asyncEffects := false;
     __dataFromAbove := false;
     __dataLinkedPaths := None;
     __dataPendingClients := None;
     __dataInterim := None;
     __dataInterimOld := None;
     _runId := 0;
     own := [];
     lastRun := fun _ => None;
     effectUid := 0;
     log := [] |}.

(** ** The path operations of the specification *)

(** Modelled from the spec: path.js is not among the sources.  The
    definitions follow section 4.1; for [matches], the reading of "effectPath
    is a descendant prefix of concretePath" is the one the repository's test
    fixes, where the observer of [tourists] runs for [tourists.splices]. *)
Module SpecPath.

Definition dot : ascii := "."%char.

Fixpoint split_acc (acc : string) (s : string) : list string :=
  match s with
  | EmptyString => [acc]
  | String c s' =>
      if Ascii.eqb c dot then acc :: split_acc "" s'
      else split_acc (acc ++ String c "") s'
  end.

Definition split (path : string) : list string := split_acc "" path.

Definition root (path : string) : string := hd "" (split path).

Definition isDeep (path : string) : bool :=
  Nat.ltb 1 (length (split path)).

Definition isDescendant (parent candidate : string) : bool :=
  String.eqb candidate parent || starts_with (parent ++ ".") candidate.

Definition is_wildcard (path : string) : bool :=
  let n := String.length path in
  Nat.leb 2 n && String.eqb (substring (n - 2) 2 path) ".*".

Definition base (path : string) : string :=
  substring 0 (String.length path - 2) path.

Definition matches (effectPath concretePath : string) : bool :=
  String.eqb effectPath concretePath
  || isDescendant effectPath concretePath
  || (is_wildcard effectPath && isDescendant (base effectPath) concretePath)
  || (is_wildcard concretePath
      && isDescendant (base concretePath) effectPath).

Definition translate (fromPrefix toPrefix path : string) : string :=
  toPrefix ++ substring (String.length fromPrefix)
                (String.length path - String.length fromPrefix) path.

#[export] Instance spec_ops : Path.Ops := {
  Path.root := root;
  Path.isDeep := isDeep;
  Path.isDescendant := isDescendant;
  Path.matches := matches;
  Path.translate := translate;
  Path.split := split
}.

End SpecPath.

(** ** Notions the properties are stated with *)

(** The normalization of [splice]'s [start] in the words of the
    specification, section 4.7: "[start < 0 => max(0, len +
    ceil(-start) * -1)]; flooring non-integers; [start] coerced to 0 when
    falsy".  [ceil(-start) * -1] is written [- ceil(-start)]. *)
Definition spec_splice_start (len : nat) (start : number) : number :=
  let start :=
    if num_lt start (of_nat 0)
    then Math_max (of_nat 0)
           (num_add (of_nat len) (num_neg (Math_ceil (num_neg start))))
    else Math_floor start in
  if num_falsy start then of_nat 0 else start.

(** [__dataPending] and [__dataOld] are allocated together. *)
Definition pending_has_old (s : State) : Prop :=
  __dataPending s <> None -> __dataOld s <> None.

(** Every [lastRun] stamp was drawn from [effectUid] earlier. *)
Definition stamps_below (s : State) : Prop :=
  forall i r, lastRun s i = Some r -> r < effectUid s.

(** The dispatches of the effects that carry the info object [i]. *)
Definition is_dispatch_of (i : nat) (e : event) : bool :=
  match e with
  | Dispatch _ fx _ _ _ =>
      match fx_info fx with
      | Some j => Nat.eqb i j
      | None => false
      end
  | Call _ _ => false
  end.

Definition dispatches_of (i : nat) (l : list event) : nat :=
  length (filter (is_dispatch_of i) l).

(** The dispatches of the effects that carry the info object [i] by the
    pass that drew the id [id]. *)
Definition is_dispatch_in (id i : nat) (e : event) : bool :=
  match e with
  | Dispatch id' _ _ _ _ => Nat.eqb id id' && is_dispatch_of i e
  | Call _ _ => false
  end.

Definition dispatches_in (id i : nat) (l : list event) : nat :=
  length (filter (is_dispatch_in id i) l).

Definition is_call (e : event) : bool :=
  match e with Call _ _ => true | Dispatch _ _ _ _ _ => false end.

(** The calls of the method [m] among some events. *)
Definition calls_of (m : string) (l : list event) : list (list value) :=
  flat_map (fun e => match e with
                     | Call n a => if String.eqb n m then [a] else []
                     | Dispatch _ _ _ _ _ => []
                     end) l.

(** The registry keeps observers, and nothing that computes, under OBSERVE:
    what [_createObservedProperty] and [_createMethodObserver] add. *)
Definition observer_entry (o : option Effect) : bool :=
  match o with
  | Some fx => match fx_fn fx with runComputedEffect => false | _ => true end
  | None => true
  end.

Definition observers_only (inst : Registry) : bool :=
  match __observeEffects inst with
  | None => true
  | Some em => forallb (fun kv => forallb observer_entry (snd kv)) em
  end.

(** No argument of the signature is a wildcard. *)
Definition no_wildcard (al : list ArgDesc) : bool :=
  forallb (fun a => negb (arg_wildcard a)) al.

(** A computed property that keeps the compute loop going: a change of [x]
    runs exactly one computing effect, whose method returns an object and
    whose target [t] has effects of its own. *)
Record feeds {P : Path.Ops} (inst : Registry) (x t : string) : Prop := {
  feeds_effects :
    exists em fx,
      __computeEffects inst = Some em /\
      lookup (Path.root x) em = Some [Some fx] /\
      Path.matches (fx_path fx) x = true /\
      fx_fn fx = runComputedEffect /\
      exists i info fn al,
        fx_info fx = Some i /\
        nth_error (infos inst) i = Some info /\
        lookup (methodName info) (methods inst) = Some fn /\
        args info = Some al /\
        no_wildcard al = true /\
        (forall actual, typeof (fn actual) = "object") /\
        methodInfo info = Some t;
  feeds_target : _hasPropertyEffect inst t ANY = true
}.

(** *** Frame conditions *)

(** [post R m]: wherever [m] is started, the state it returns or throws in
    is [R]-related to the state it started in. *)
Definition post {A : Type} (R : State -> State -> Prop) (m : M A) : Prop :=
  forall s,
    match m s with
    | Ret _ s' => R s s'
    | Throw _ s' => R s s'
    | Diverge => True
    end.

(** [post2 R T m]: a return of [m] is [R]-related to the start, a throw is
    [T]-related to it. *)
Definition post2 {A : Type} (R T : State -> State -> Prop) (m : M A) : Prop :=
  forall s,
    match m s with
    | Ret _ s' => R s s'
    | Throw _ s' => T s s'
    | Diverge => True
    end.

(** [m] needs no fuel. *)
Definition total {A : Type} (m : M A) : Prop := forall s, m s <> Diverge.

(** Every value [m] returns satisfies [Q]. *)
Definition returns {A : Type} (Q : A -> Prop) (m : M A) : Prop :=
  forall s a s', m s = Ret a s' -> Q a.

(** What an effect function may do: it leaves the stamps, [effectUid], the
    pending clients and the initialized flag alone, logs method calls only,
    and only allocates in the heap. *)
Definition effect_frame (s s' : State) : Prop :=
  lastRun s' = lastRun s /\
  effectUid s' = effectUid s /\
  (exists l, log s' = l ++ log s /\ forallb is_call l = true) /\
  (exists h, heap s' = heap s ++ h) /\
  __dataPendingClients s' = __dataPendingClients s /\
  __dataInitialized s' = __dataInitialized s.

(** What a pass with the run id [id] may do: the log and the heap grow,
    [effectUid] does not decrease, a stamp is an earlier stamp, a value
    drawn from [effectUid], or [id], and the pending clients and the
    initialized flag stay. *)
Definition grows_id (id : nat) (s s' : State) : Prop :=
  (exists l, log s' = l ++ log s) /\
  (exists h, heap s' = heap s ++ h) /\
  effectUid s <= effectUid s' /\
  (forall i r, lastRun s' i = Some r ->
     lastRun s i = Some r \/ r < effectUid s' \/ r = id) /\
  __dataPendingClients s' = __dataPendingClients s /\
  __dataInitialized s' = __dataInitialized s.

(** What a flush may do. *)
Definition grows (s s' : State) : Prop :=
  (exists l, log s' = l ++ log s) /\
  (exists h, heap s' = heap s ++ h) /\
  effectUid s <= effectUid s' /\
  (forall i r, lastRun s' i = Some r ->
     lastRun s i = Some r \/ r < effectUid s').

(** 1 when the info object [i] carries the stamp [id], else 0. *)
Definition stamp_ind (id i : nat) (s : State) : nat :=
  match lastRun s i with
  | Some r => if Nat.eqb r id then 1 else 0
  | None => 0
  end.

(** The dispatches a pass with the run id [id] has logged, counted against
    the stamps: an info object is dispatched only while unstamped, and is
    stamped by its dispatch. *)
Definition once_id (id : nat) (s s' : State) : Prop :=
  exists l, log s' = l ++ log s /\
    forall i, dispatches_of i l + stamp_ind id i s <= stamp_ind id i s'.

(** The same for a pass that was cut short by a throw: the last dispatch
    may not have been stamped yet. *)
Definition once_cut (id : nat) (s s' : State) : Prop :=
  exists l, log s' = l ++ log s /\
    forall i, dispatches_of i l + stamp_ind id i s <= 1.

(** What an observer leaves alone: the pending changes, the pending clients
    and the initialized flag. *)
Definition quiet (s s' : State) : Prop :=
  __dataPending s' = __dataPending s /\
  __dataPendingClients s' = __dataPendingClients s /\
  __dataInitialized s' = __dataInitialized s.

(** A pass with the run id [id] that stamps the info object [j] has called
    the method [m]. *)
Definition fires_id (id j : nat) (m : string) (s s' : State) : Prop :=
  exists l, log s' = l ++ log s /\
    (stamp_ind id j s = 0 -> stamp_ind id j s' = 1 -> calls_of m l <> []).

(** The property or path [p] is observed by the method [m]: the OBSERVE
    effects of its root hold an effect that matches [p], reachable by the
    dispatcher's loop, whose info names [m], and the instance has [m]. *)
Definition observes {P : Path.Ops} (inst : Registry) (p m : string) : Prop :=
  exists em fxs fx j info f,
    __observeEffects inst = Some em /\
    lookup (Path.root p) em = Some fxs /\
    ~ In None fxs /\
    In (Some fx) fxs /\
    Path.matches (fx_path fx) p = true /\
    fx_info fx = Some j /\
    nth_error (infos inst) j = Some info /\
    methodName info = m /\
    lookup m (methods inst) = Some f.

(** No computed property depends on [p]: a change of [p] triggers no
    computing effect. *)
Definition feeds_nothing {P : Path.Ops} (inst : Registry) (p : string)
  : bool :=
  match __computeEffects inst with
  | Some em => negb (has_key (Path.root p) em)
  | None => true
  end.

(** An OBSERVE entry as [_createObservedProperty] adds it: a
    [runObserverEffect] whose info object exists. *)
Definition observer_ready (inst : Registry) (o : option Effect) : bool :=
  match o with
  | Some fx =>
      match fx_fn fx, fx_info fx with
      | runObserverEffect, Some i =>
          match nth_error (infos inst) i with
          | Some _ => true
          | None => false
          end
      | _, _ => false
      end
  | None => false
  end.

Definition observers_ready (inst : Registry) : bool :=
  match __observeEffects inst with
  | None => true
  | Some em => forallb (fun kv => forallb (observer_ready inst) (snd kv)) em
  end.

(** A ready instance at rest in synchronous mode: nothing pending, no linked
    paths and no interim maps. *)
Definition settled (s : State) : Prop :=
  __dataInitialized s = true /\ _asyncEffects s = false /\
  __dataPending s = None /\ __dataLinkedPaths s = None /\
  __dataInterim s = None /\ __dataInterimOld s = None.

(** The registry [_addPropertyEffect] works on once it has made sure that
    the property has an entry among all effects, and an accessor. *)
Definition with_entry {P : Path.Ops} (path : string) (type : TYPES)
  (r : Registry) : Registry :=
  match lookup (Path.root path) (ensureOwnEffectMap ANY r) with
  | Some _ => set_effects ANY (Some (ensureOwnEffectMap ANY r)) r
  | None =>
      _createPropertyAccessor (Path.root path)
        (match type with READ_ONLY => true | _ => false end)
        (set_effects ANY
           (Some (assign (Path.root path) [] (ensureOwnEffectMap ANY r))) r)
  end.

(** Every accessor belongs to a property with effects, and the other way
    round. *)
Definition accessors_match {P : Path.Ops} (r : Registry) : Prop :=
  forall q, has_key q (accessors r) = _hasPropertyEffect r q ANY.

(** What adding a COMPUTE or READ_ONLY effect keeps of a registry. *)
Definition keeps {P : Path.Ops} (r r' : Registry) : Prop :=
  infos r' = infos r /\
  __observeEffects r' = __observeEffects r /\
  setters r' = setters r /\
  methods r' = methods r /\
  (accessors_match r -> accessors_match r') /\
  (forall k, _hasPropertyEffect r k READ_ONLY = true ->
             _hasPropertyEffect r' k READ_ONLY = true).

(** What every step of the constructor keeps of a registry. *)
Definition extends {P : Path.Ops} (r r' : Registry) : Prop :=
  (accessors_match r -> accessors_match r') /\
  (observers_ready r = true -> observers_ready r' = true) /\
  (forall k, _hasPropertyEffect r k READ_ONLY = true ->
             _hasPropertyEffect r' k READ_ONLY = true) /\
  (forall n, In n (setters r) -> In n (setters r')) /\
  methods r' = methods r.




(** [r'] has the accessors of [r], as they are, and perhaps more. *)
Definition keeps_accessors {P : Path.Ops} (r r' : Registry) : Prop :=
  accessors_match r ->
  accessors_match r' /\
  forall k b, lookup k (accessors r) = Some b ->
              lookup k (accessors r') = Some b.

(** The keys of a map are pairwise different. *)
Definition distinct_keys {A : Type} (o : jsobj A) : Prop := NoDup (keys o).

(** ** Configurations used as examples *)

Module Fixture.

Import SpecPath.

(** The descriptor [parseArg] builds for a plain property name. *)
Definition arg (name : string) : ArgDesc :=
  Build_ArgDesc name VUndef false false name false.

Definition num (n : nat) : value := VNum (of_nat n).

(** A new instance after [ready()]. *)
Definition ready_state (h : heap_t) : State :=
  set_dataInitialized true (new_state h).

(** The configuration of the repository's test: names and their computed
    properties, all observed by [_somePropChanged]. *)
Definition observed_by (c : option Signature) : PropertyConfig :=
  Build_PropertyConfig false c (Some "_somePropChanged").

Definition names : Registry :=
  Store
    [("firstName", observed_by None);
     ("lastName", observed_by None);
     ("tourists", observed_by None);
     ("fullName",
      observed_by (Some (Build_Signature "_computeFullName" false
                           [arg "firstName"; arg "lastName"])));
     ("isNameValid",
      observed_by (Some (Build_Signature "_computeIsNameValid" false
                           [arg "fullName"])));
     ("isFormValid",
      observed_by (Some (Build_Signature "_computeIsFormValid" false
                           [arg "isNameValid"])))]
    [("_somePropChanged", fun _ => VUndef);
     ("_computeFullName",
      fun a => match a with
               | [VStr f; VStr l] =>
                   if String.eqb f "" || String.eqb l "" then VUndef
                   else VStr (f ++ " " ++ l)
               | _ => VUndef
               end);
     ("_computeIsNameValid",
      fun a => match a with
               | [VStr f] => if String.eqb f "" then VUndef else VBool false
               | _ => VUndef
               end);
     ("_computeIsFormValid", fun a => hd VUndef a)].


(** [tourists] holds the array at reference 0. *)
Definition with_tourists (items : list value) : State :=
  set_data [("tourists", VRef 0)] (ready_state [OArr items]).

(** A cyclic configuration: [a] is computed from [b] and [c], [b] from [a],
    by a method that returns [null]. *)
Definition cyclic : Registry :=
  Store
    [("c", Build_PropertyConfig false None None);
     ("a", Build_PropertyConfig false
             (Some (Build_Signature "f" false [arg "b"; arg "c"])) None);
     ("b", Build_PropertyConfig false
             (Some (Build_Signature "f" false [arg "a"])) None)]
    [("f", fun _ => VNull)].

(** A diamond: [b] is computed from [c], and [a] from [b] and [c]; [a] is
    observed by [seen]. *)
Definition diamond : Registry :=
  Store
    [("c", Build_PropertyConfig false None None);
     ("a", Build_PropertyConfig false
             (Some (Build_Signature "f" false [arg "b"; arg "c"]))
             (Some "seen"));
     ("b", Build_PropertyConfig false
             (Some (Build_Signature "g" false [arg "c"])) None)]
    [("f", fun a => match a with
                    | [b; _] => if truthy b then VStr "full"
                                else VStr "partial"
                    | _ => VUndef
                    end);
     ("g", fun a => hd VUndef a);
     ("seen", fun _ => VUndef)].

(** A read-only property [ro], observed by [changed], holding the object at
    reference 0. *)
Definition guarded : Registry :=
  Store [("ro", Build_PropertyConfig true None (Some "changed"))]
        [("changed", fun _ => VUndef)].

Definition guarded_state : State :=
  set_data [("ro", VRef 0)] (ready_state [OObj []]).


(** [a] is observed by [seen] and [b] by [ob], and [ob] calls
    [this.set('a.z', 1)]; [a] holds the object at reference 0. *)
Definition nested : Registry :=
  Store [("a", Build_PropertyConfig false None (Some "seen"));
         ("b", Build_PropertyConfig false None (Some "ob"))]
        [("seen", fun _ => VUndef); ("ob", fun _ => VUndef)].

Definition nested_writes (m : string) (a : list value)
  : list (string * value) :=
  if String.eqb m "ob" then [("a.z", num 1)] else [].

Definition nested_state : State :=
  set_data [("a", VRef 0)] (ready_state [OObj []]).

(** [valid] is computed from [full], and declared before it; [full] is
    computed from [first]. *)
Definition late : Registry :=
  Store
    [("first", Build_PropertyConfig false None None);
     ("valid",
      Build_PropertyConfig false
        (Some (Build_Signature "check" false [arg "full"])) None);
     ("full",
      Build_PropertyConfig false
        (Some (Build_Signature "join" false [arg "first"])) None)]
    [("check", fun a => VBool (truthy (hd VUndef a)));
     ("join", fun a => hd VUndef a)].

End Fixture.

(** * Properties *)

(** ** Values and maps *)

Lemma num_eq_sym (a b : number) : num_eq a b = num_eq b a.
Proof. destruct a, b; simpl; auto using Qeq_bool_comm. Qed.

Lemma strict_eq_sym (a b : value) : strict_eq a b = strict_eq b a.
Proof.
  destruct a, b; simpl;
    auto using num_eq_sym, String.eqb_sym, Nat.eqb_sym.
  destruct b, b0; reflexivity.
Qed.

Lemma strict_eq_refl (v : value) : strict_eq v v = negb (value_is_nan v).
Proof.
  destruct v; simpl; auto using String.eqb_refl, Nat.eqb_refl.
  - destruct b; reflexivity.
  - destruct n; simpl; auto using Qeq_bool_refl.
Qed.

Lemma shouldPropChange_eq (p : string) (v old : value) :
  _shouldPropChange p v old =
  (String.eqb (typeof v) "object"
   || (negb (strict_eq v old)
       && negb (value_is_nan v && value_is_nan old))).
Proof.
  unfold _shouldPropChange.
  rewrite !strict_eq_refl, (strict_eq_sym old v).
  destruct (typeof v =? "object"), (strict_eq v old),
    (value_is_nan v), (value_is_nan old); reflexivity.
Qed.

Lemma lookup_assign_same {A : Type} (k : string) (v : A) (o : jsobj A) :
  lookup k (assign k v o) = Some v.
Proof.
  induction o as [|[k' v'] o IH]; simpl.
  - now rewrite String.eqb_refl.
  - destruct (String.eqb k k') eqn:E; simpl.
    + now rewrite String.eqb_refl.
    + now rewrite E.
Qed.

Lemma lookup_assign_other {A : Type} (k k' : string) (v : A) (o : jsobj A) :
  k <> k' -> lookup k (assign k' v o) = lookup k o.
Proof.
  intros Hne. induction o as [|[k2 v2] o IH]; simpl.
  - destruct (String.eqb k k') eqn:E; [|reflexivity].
    apply String.eqb_eq in E. contradiction.
  - destruct (String.eqb k' k2) eqn:E; simpl.
    + apply String.eqb_eq in E. subst k2.
      destruct (String.eqb k k') eqn:E'; [|reflexivity].
      apply String.eqb_eq in E'. contradiction.
    + now rewrite IH.
Qed.

Lemma has_key_assign {A : Type} (k k' : string) (v : A) (o : jsobj A) :
  has_key k o = true -> has_key k (assign k' v o) = true.
Proof.
  unfold has_key. intros H.
  destruct (String.eqb k k') eqn:E.
  - apply String.eqb_eq in E. subst. now rewrite lookup_assign_same.
  - apply String.eqb_neq in E. now rewrite lookup_assign_other.
Qed.

Lemma has_key_assign_same {A : Type} (k : string) (v : A) (o : jsobj A) :
  has_key k (assign k v o) = true.
Proof. unfold has_key. now rewrite lookup_assign_same. Qed.

Lemma has_key_mixin_obj {A : Type} (k : string) (src t : jsobj A) :
  has_key k t = true -> has_key k (mixin_obj t src) = true.
Proof.
  unfold mixin_obj. revert t.
  induction src as [|[k' v'] src IH]; simpl; intros t H; [exact H|].
  apply IH. now apply has_key_assign.
Qed.

Lemma has_key_In {A : Type} (k : string) (o : jsobj A) :
  has_key k o = true -> In k (keys o).
Proof.
  unfold has_key, keys.
  induction o as [|[k' v'] o IH]; simpl; [discriminate|].
  destruct (String.eqb k k') eqn:E.
  - apply String.eqb_eq in E. auto.
  - auto.
Qed.


(** The path operations of the specification serve the concrete examples. *)
#[global] Existing Instance SpecPath.spec_ops.

(** ** Reasoning about the monad *)

Lemma bind_Ret {A B : Type} (m : M A) (k : A -> M B) s b s' :
  bind m k s = Ret b s' ->
  exists a s1, m s = Ret a s1 /\ k a s1 = Ret b s'.
Proof.
  unfold bind. destruct (m s) as [a s1| |]; try discriminate. eauto.
Qed.

Lemma bind_Throw {A B : Type} (m : M A) (k : A -> M B) s e s' :
  bind m k s = Throw e s' ->
  m s = Throw e s' \/ exists a s1, m s = Ret a s1 /\ k a s1 = Throw e s'.
Proof.
  unfold bind. destruct (m s) as [a s1|e1 s1|]; try discriminate.
  - eauto.
  - intros H. inversion H; subst. auto.
Qed.

Section Post.

Variable R : State -> State -> Prop.
Hypothesis R_refl : forall s, R s s.
Hypothesis R_trans : forall s1 s2 s3, R s1 s2 -> R s2 s3 -> R s1 s3.

Lemma post_ret {A : Type} (a : A) : post R (ret a).
Proof. intros s. simpl. apply R_refl. Qed.

Lemma post_gets {A : Type} (f : State -> A) : post R (gets f).
Proof. intros s. simpl. apply R_refl. Qed.

Lemma post_throw {A : Type} (e : error) : post R (@throw A e).
Proof. intros s. simpl. apply R_refl. Qed.

Lemma post_modify (f : State -> State) :
  (forall s, R s (f s)) -> post R (modify f).
Proof. intros Hf s. simpl. apply Hf. Qed.

Lemma post_bind {A B : Type} (m : M A) (k : A -> M B) :
  post R m -> (forall a, post R (k a)) -> post R (bind m k).
Proof.
  intros Hm Hk s. unfold bind. specialize (Hm s).
  destruct (m s) as [a s1|e s1|]; auto.
  specialize (Hk a s1). destruct (k a s1); eauto.
Qed.

Lemma post_mixin t src : post R (mixin t src).
Proof.
  unfold mixin. destruct src as [[|]|]; try apply post_ret.
  destruct t; [apply post_ret | apply post_throw].
Qed.

End Post.

Lemma post_weaken {A : Type} (R R' : State -> State -> Prop) (m : M A) :
  (forall s s', R s s' -> R' s s') -> post R m -> post R' m.
Proof.
  intros H Hm s. specialize (Hm s). destruct (m s); auto.
Qed.

Lemma post_Ret {A : Type} (R : State -> State -> Prop) (m : M A) s a s' :
  post R m -> m s = Ret a s' -> R s s'.
Proof. intros H E. specialize (H s). now rewrite E in H. Qed.

Lemma post_Throw {A : Type} (R : State -> State -> Prop) (m : M A) s e s' :
  post R m -> m s = Throw e s' -> R s s'.
Proof. intros H E. specialize (H s). now rewrite E in H. Qed.

Ltac post_step Hr Ht :=
  lazymatch goal with
  | |- post _ (bind _ _) => apply post_bind; [ exact Ht | | intro ]
  | |- post _ (ret _) => apply post_ret; exact Hr
  | |- post _ (gets _) => apply post_gets; exact Hr
  | |- post _ (throw _) => apply post_throw; exact Hr
  | |- post _ (mixin _ _) => apply post_mixin; exact Hr
  | |- post _ (modify _) => apply post_modify; intro
  | |- post _ (if ?b then _ else _) => destruct b
  | |- post _ (match ?x with _ => _ end) => destruct x
  end.

(** ** The frame of the effect functions *)

Lemma effect_frame_refl s : effect_frame s s.
Proof.
  split; [|split; [|split; [|split; [|split]]]]; auto.
  - exists []. auto.
  - exists []. now rewrite app_nil_r.
Qed.

Lemma effect_frame_trans s1 s2 s3 :
  effect_frame s1 s2 -> effect_frame s2 s3 -> effect_frame s1 s3.
Proof.
  intros (a1 & b1 & (l1 & c1 & d1) & (h1 & e1) & f1 & g1)
         (a2 & b2 & (l2 & c2 & d2) & (h2 & e2) & f2 & g2).
  split; [|split; [|split; [|split; [|split]]]]; try congruence.
  - exists (l2 ++ l1). rewrite c2, c1, app_assoc. split; auto.
    rewrite forallb_app. now rewrite d1, d2.
  - exists (h1 ++ h2). rewrite e2, e1, app_assoc. reflexivity.
Qed.

Ltac frame_field :=
  split; [|split; [|split; [|split; [|split]]]]; simpl; auto;
  [ try (exists []; split; reflexivity)
  | try (exists []; rewrite ?app_nil_r; reflexivity) ].

Ltac ef := post_step effect_frame_refl effect_frame_trans.

Section EffectFrame.

Context {P : Path.Ops}.
Variable inst : Registry.

Lemma alloc_effect_frame o : post effect_frame (alloc o).
Proof. intros s. simpl. frame_field. eexists. reflexivity. Qed.

Lemma emit_call_effect_frame n a : post effect_frame (emit (Call n a)).
Proof. intros s. simpl. frame_field. exists [Call n a]. auto. Qed.

Lemma marshalArgs_effect_frame al path v :
  post effect_frame (marshalArgs inst al path v).
Proof.
  induction al as [|a al IH]; simpl.
  - ef.
  - repeat (ef; try apply alloc_effect_frame; try apply IH).
Qed.

Lemma runMethodEffect_effect_frame p v old info :
  post effect_frame (runMethodEffect inst p v old info).
Proof.
  unfold runMethodEffect.
  repeat (ef; try apply marshalArgs_effect_frame;
          try apply emit_call_effect_frame).
Qed.

Lemma super_setPendingProperty_effect_frame p v :
  post effect_frame (super_setPendingProperty p v).
Proof.
  unfold super_setPendingProperty.
  repeat (ef; try solve [frame_field]).
Qed.

Lemma setPendingProperty_effect_frame p v :
  post effect_frame (_setPendingProperty p v).
Proof.
  unfold _setPendingProperty.
  repeat (ef; try solve [frame_field];
          try apply super_setPendingProperty_effect_frame).
Qed.

Lemma setPropertyFromComputation_effect_frame p v :
  post effect_frame (_setPropertyFromComputation inst p v).
Proof.
  unfold _setPropertyFromComputation.
  repeat (ef; try solve [frame_field];
          try apply setPendingProperty_effect_frame).
Qed.

Lemma apply_fn_effect_frame fn p v old info :
  post effect_frame (apply_fn inst fn p v old info).
Proof.
  unfold apply_fn.
  repeat (ef; try solve [frame_field]; try apply emit_call_effect_frame;
          try apply runMethodEffect_effect_frame;
          try apply setPropertyFromComputation_effect_frame).
Qed.

End EffectFrame.

(** ** The frame of a flush *)

Lemma grows_id_refl id s : grows_id id s s.
Proof.
  split; [|split; [|split; [|split; [|split]]]]; auto.
  - now exists [].
  - exists []. now rewrite app_nil_r.
Qed.

Lemma grows_id_trans id s1 s2 s3 :
  grows_id id s1 s2 -> grows_id id s2 s3 -> grows_id id s1 s3.
Proof.
  intros ((l1 & a1) & (h1 & b1) & c1 & d1 & e1 & f1)
         ((l2 & a2) & (h2 & b2) & c2 & d2 & e2 & f2).
  split; [|split; [|split; [|split; [|split]]]]; try congruence.
  - exists (l2 ++ l1). now rewrite a2, a1, app_assoc.
  - exists (h1 ++ h2). now rewrite b2, b1, app_assoc.
  - lia.
  - intros i r H. destruct (d2 i r H) as [H2|[H2|H2]]; auto.
    destruct (d1 i r H2) as [H1|[H1|H1]]; auto. right. left. lia.
Qed.

Lemma grows_refl s : grows s s.
Proof.
  split; [|split; [|split]]; auto.
  - now exists [].
  - exists []. now rewrite app_nil_r.
Qed.

Lemma grows_trans s1 s2 s3 : grows s1 s2 -> grows s2 s3 -> grows s1 s3.
Proof.
  intros ((l1 & a1) & (h1 & b1) & c1 & d1) ((l2 & a2) & (h2 & b2) & c2 & d2).
  split; [|split; [|split]].
  - exists (l2 ++ l1). now rewrite a2, a1, app_assoc.
  - exists (h1 ++ h2). now rewrite b2, b1, app_assoc.
  - lia.
  - intros i r H. destruct (d2 i r H) as [H2|H2]; auto.
    destruct (d1 i r H2) as [H1|H1]; auto. right. lia.
Qed.

Lemma effect_frame_grows s s' : effect_frame s s' -> grows s s'.
Proof.
  intros (a & b & (l & c & _) & d & _).
  split; [|split; [|split]]; eauto.
  - lia.
  - intros i r H. left. congruence.
Qed.

Lemma effect_frame_grows_id id s s' : effect_frame s s' -> grows_id id s s'.
Proof.
  intros (a & b & (l & c & _) & d & e & f).
  split; [|split; [|split; [|split; [|split]]]]; eauto.
  - lia.
  - intros i r H. left. congruence.
Qed.

Lemma grows_id_grows id s s' :
  id < effectUid s -> grows_id id s s' -> grows s s'.
Proof.
  intros Hid (a & b & c & d & _). split; [|split; [|split]]; auto.
  intros i r H. destruct (d i r H) as [E|[E|E]]; auto. right. lia.
Qed.

Lemma grows_stamps_below s s' :
  grows s s' -> stamps_below s -> stamps_below s'.
Proof.
  intros (_ & _ & c & d) H i r E.
  destruct (d i r E) as [E'|E']; auto. apply H in E'. lia.
Qed.

Lemma grows_heap s s' r o :
  grows s s' -> deref (heap s) r = Some o -> deref (heap s') r = Some o.
Proof.
  intros (_ & (h & E) & _) H. unfold deref in *. rewrite E.
  rewrite nth_error_app1; auto. apply nth_error_Some. congruence.
Qed.

Ltac grows_field :=
  split; [|split; [|split]]; simpl; auto;
  [ try (exists []; reflexivity)
  | try (exists []; rewrite ?app_nil_r; reflexivity) ].

Ltac gr := post_step grows_refl grows_trans.
Ltac gi := post_step (@grows_id_refl) (@grows_id_trans).

Section FlushFrame.

Context {P : Path.Ops}.
Variable inst : Registry.

Lemma emit_grows e : post grows (emit e).
Proof. intros s. simpl. grows_field. now exists [e]. Qed.

Lemma alloc_grows o : post grows (alloc o).
Proof.
  apply post_weaken with (R := effect_frame); auto using effect_frame_grows.
  apply alloc_effect_frame.
Qed.

Lemma apply_fn_grows fn p v old info :
  post grows (apply_fn inst fn p v old info).
Proof.
  apply post_weaken with (R := effect_frame); auto using effect_frame_grows.
  apply apply_fn_effect_frame.
Qed.

Lemma setPendingProperty_grows p v : post grows (_setPendingProperty p v).
Proof.
  apply post_weaken with (R := effect_frame); auto using effect_frame_grows.
  apply setPendingProperty_effect_frame.
Qed.

Lemma emit_grows_id id e : post (grows_id id) (emit e).
Proof.
  intros s. simpl.
  split; [|split; [|split; [|split; [|split]]]]; simpl; auto.
  - now exists [e].
  - exists []. now rewrite app_nil_r.
Qed.

Lemma stamp_grows_id id fx : post (grows_id id) (stamp id fx).
Proof.
  unfold stamp. destruct (fx_info fx) as [j|].
  - intros s. simpl.
    split; [|split; [|split; [|split; [|split]]]]; simpl; auto.
    + now exists [].
    + exists []. now rewrite app_nil_r.
    + intros i r H. destruct (Nat.eqb i j).
      * inversion H. auto.
      * auto.
  - apply post_ret. apply grows_id_refl.
Qed.

Lemma run_fxs_grows id prop old fxs ran :
  post (grows_id id) (run_fxs inst id prop old fxs ran).
Proof.
  revert ran. induction fxs as [|[fx|] fxs IH]; intros ran; simpl.
  - apply post_ret, grows_id_refl.
  - apply post_bind; [apply grows_id_trans|apply post_gets, grows_id_refl|].
    intros skip. destruct (Path.matches (fx_path fx) prop && negb skip).
    + apply post_bind; [apply grows_id_trans|apply post_gets, grows_id_refl|].
      intros v.
      apply post_bind; [apply grows_id_trans|apply emit_grows_id|intros _].
      apply post_bind; [apply grows_id_trans| |intros _].
      { eapply post_weaken;
          [apply effect_frame_grows_id|apply apply_fn_effect_frame]. }
      apply post_bind; [apply grows_id_trans|apply stamp_grows_id|intros _].
      apply IH.
    + apply IH.
  - apply post_ret, grows_id_refl.
Qed.

Lemma runEffectsForProperty_grows effects id prop old :
  post (grows_id id) (runEffectsForProperty inst effects id prop old).
Proof.
  unfold runEffectsForProperty. destruct (lookup (Path.root prop) effects).
  - apply run_fxs_grows.
  - apply post_ret, grows_id_refl.
Qed.

Lemma run_props_grows effects id oldProps props ran :
  post (grows_id id) (run_props inst effects id oldProps props ran).
Proof.
  revert ran. induction props as [|prop props IH]; intros ran; simpl.
  - apply post_ret, grows_id_refl.
  - apply post_bind; [apply grows_id_trans| |intros r; apply IH].
    apply runEffectsForProperty_grows.
Qed.

Lemma runEffects_grows type props oldProps :
  post grows (runEffects inst type props oldProps).
Proof.
  unfold runEffects. destruct (effects_of inst type) as [effects|].
  - intros s. unfold bind at 1. simpl.
    pose proof (run_props_grows effects (effectUid s) oldProps
                  (match props with Some p => keys p | None => [] end) false
                  (set_effectUid (S (effectUid s)) s)) as H.
    assert (G : forall s', grows_id (effectUid s)
                  (set_effectUid (S (effectUid s)) s) s' -> grows s s').
    { intros s' (a & b & c & d & _). simpl in *.
      split; [|split; [|split]]; auto. lia.
      intros i r E. destruct (d i r E) as [E'|[E'|E']]; auto.
      right. lia. }
    unfold bind, modify. simpl.
    destruct (run_props _ _ _ _ _ _ _); auto.
  - apply post_ret, grows_refl.
Qed.

Lemma compute_loop_grows fuel input changed old computed :
  post grows (compute_loop inst fuel input changed old computed).
Proof.
  revert input changed old computed.
  induction fuel as [|fuel IH]; intros; simpl.
  - intros s. exact I.
  - repeat (gr; try apply runEffects_grows; try apply IH;
            try solve [grows_field]).
Qed.

Lemma runComputedEffects_grows fuel changed old :
  post grows (runComputedEffects inst fuel changed old).
Proof.
  unfold runComputedEffects.
  repeat (gr; try apply compute_loop_grows).
Qed.

Lemma mirror_grows a b path changed computed :
  post grows (mirror a b path changed computed).
Proof. unfold mirror. repeat (gr; try solve [grows_field]). Qed.

Lemma link_paths_grows a b paths changed computed :
  post grows (link_paths a b paths changed computed).
Proof.
  revert changed computed.
  induction paths as [|path paths IH]; intros; simpl.
  - gr.
  - repeat (gr; try apply mirror_grows; try apply IH).
Qed.

Lemma link_all_grows links changed computed :
  post grows (link_all links changed computed).
Proof.
  revert changed computed.
  induction links as [|[a b] links IH]; intros; simpl.
  - gr.
  - repeat (gr; try apply link_paths_grows; try apply IH).
Qed.

Lemma computeLinkedPaths_grows changed computed :
  post grows (computeLinkedPaths changed computed).
Proof.
  unfold computeLinkedPaths.
  repeat (gr; try apply link_all_grows).
Qed.

Lemma notifyProperties_grows changed computed old :
  post grows (notifyProperties changed computed old).
Proof.
  unfold notifyProperties.
  repeat (gr; try solve [grows_field]).
Qed.

Lemma flushClients_grows : post grows _flushClients.
Proof. unfold _flushClients. repeat (gr; try solve [grows_field]). Qed.

Lemma propertiesChanged_grows fuel changed old :
  post grows (_propertiesChanged inst fuel changed old).
Proof.
  unfold _propertiesChanged.
  repeat (gr; try apply runComputedEffects_grows;
          try apply computeLinkedPaths_grows;
          try apply notifyProperties_grows;
          try apply flushClients_grows;
          try apply runEffects_grows).
Qed.

Lemma flushProperties_grows fuel fromAbove :
  post grows (_flushProperties inst fuel fromAbove).
Proof.
  unfold _flushProperties, super_flushProperties, ready.
  repeat (gr; try apply propertiesChanged_grows; try solve [grows_field]).
Qed.

Lemma invalidateProperties_grows fuel :
  post grows (_invalidateProperties inst fuel).
Proof.
  unfold _invalidateProperties, super_invalidateProperties.
  repeat (gr; try apply flushProperties_grows; try solve [grows_field]).
Qed.

Lemma setProperty_grows fuel p v : post grows (_setProperty inst fuel p v).
Proof.
  unfold _setProperty.
  repeat (gr; try apply setPendingProperty_grows;
          try apply invalidateProperties_grows).
Qed.

Lemma the_length_grows array : post grows (the_length array).
Proof. unfold the_length. repeat gr. Qed.

Lemma notifySplices_fn_grows fuel array path splices :
  post grows (notifySplices_fn inst fuel array path splices).
Proof.
  unfold notifySplices_fn.
  repeat (gr; try apply alloc_grows; try apply setProperty_grows;
          try apply the_length_grows; try solve [grows_field]).
Qed.

Lemma notifySplice_grows fuel array path index added removed :
  post grows (notifySplice inst fuel array path index added removed).
Proof.
  unfold notifySplice.
  gr; [apply alloc_grows|]. gr; [apply alloc_grows|].
  apply notifySplices_fn_grows.
Qed.

End FlushFrame.

(** ** Totality of a pass *)

Lemma total_ret {A : Type} (a : A) : total (ret a).
Proof. intros s. discriminate. Qed.

Lemma total_gets {A : Type} (f : State -> A) : total (gets f).
Proof. intros s. discriminate. Qed.

Lemma total_throw {A : Type} (e : error) : total (@throw A e).
Proof. intros s. discriminate. Qed.

Lemma total_modify (f : State -> State) : total (modify f).
Proof. intros s. discriminate. Qed.

Lemma total_bind {A B : Type} (m : M A) (k : A -> M B) :
  total m -> (forall a, total (k a)) -> total (bind m k).
Proof.
  intros Hm Hk s. unfold bind. specialize (Hm s).
  destruct (m s) as [a s1| |]; try discriminate; [apply Hk | congruence].
Qed.

Ltac tot :=
  lazymatch goal with
  | |- total (bind _ _) => apply total_bind; [ | intro ]
  | |- total (ret _) => apply total_ret
  | |- total (gets _) => apply total_gets
  | |- total (throw _) => apply total_throw
  | |- total (modify _) => apply total_modify
  | |- total (emit _) => apply total_modify
  | |- total (if ?b then _ else _) => destruct b
  | |- total (match ?x with _ => _ end) => destruct x
  end.

Section Totality.

Context {P : Path.Ops}.
Variable inst : Registry.

Lemma total_alloc o : total (alloc o).
Proof. intros s. discriminate. Qed.

Lemma total_marshalArgs al path v : total (marshalArgs inst al path v).
Proof.
  induction al as [|a al IH]; simpl; repeat (tot; try apply total_alloc; auto).
Qed.

Lemma total_setPendingProperty p v : total (_setPendingProperty p v).
Proof.
  unfold _setPendingProperty, super_setPendingProperty. repeat tot.
Qed.

Lemma total_apply_fn fn p v old info : total (apply_fn inst fn p v old info).
Proof.
  unfold apply_fn, runMethodEffect, _setPropertyFromComputation.
  repeat (tot; try apply total_marshalArgs;
          try apply total_setPendingProperty).
Qed.

Lemma total_run_fxs id prop old fxs ran :
  total (run_fxs inst id prop old fxs ran).
Proof.
  revert ran. induction fxs as [|[fx|] fxs IH]; intros ran; simpl.
  - tot.
  - unfold stamp. repeat (tot; try apply total_apply_fn; try apply IH).
  - tot.
Qed.

Lemma total_run_props effects id oldProps props ran :
  total (run_props inst effects id oldProps props ran).
Proof.
  revert ran. induction props as [|prop props IH]; intros ran; simpl.
  - tot.
  - unfold runEffectsForProperty.
    repeat (tot; try apply total_run_fxs; try apply IH).
Qed.

Lemma total_runEffects type props oldProps :
  total (runEffects inst type props oldProps).
Proof.
  unfold runEffects. repeat (tot; try apply total_run_props).
Qed.

End Totality.

(** ** One dispatch per info object and pass *)

Lemma dispatches_of_app i l1 l2 :
  dispatches_of i (l1 ++ l2) = dispatches_of i l1 + dispatches_of i l2.
Proof. unfold dispatches_of. now rewrite filter_app, length_app. Qed.

Lemma dispatches_of_calls i l :
  forallb is_call l = true -> dispatches_of i l = 0.
Proof.
  unfold dispatches_of. induction l as [|e l IH]; simpl; auto.
  intros H. apply andb_prop in H. destruct H as [He Hl].
  destruct e; simpl in *; try discriminate. auto.
Qed.

Lemma stamp_ind_le id i s : stamp_ind id i s <= 1.
Proof.
  unfold stamp_ind. destruct (lastRun s i); auto.
  destruct (Nat.eqb n id); auto.
Qed.

Lemma once_id_refl id s : once_id id s s.
Proof. exists []. split; auto. Qed.

Lemma once_id_trans id s1 s2 s3 :
  once_id id s1 s2 -> once_id id s2 s3 -> once_id id s1 s3.
Proof.
  intros (l1 & a1 & b1) (l2 & a2 & b2). exists (l2 ++ l1). split.
  - now rewrite a2, a1, app_assoc.
  - intros i. rewrite dispatches_of_app. specialize (b1 i). specialize (b2 i).
    lia.
Qed.

Lemma once_id_cut id s1 s2 s3 :
  once_id id s1 s2 -> once_cut id s2 s3 -> once_cut id s1 s3.
Proof.
  intros (l1 & a1 & b1) (l2 & a2 & b2). exists (l2 ++ l1). split.
  - now rewrite a2, a1, app_assoc.
  - intros i. rewrite dispatches_of_app. specialize (b1 i). specialize (b2 i).
    lia.
Qed.

Lemma once_cut_refl id s : once_cut id s s.
Proof. exists []. split; auto. intros i. apply stamp_ind_le. Qed.

Lemma post2_ret {A : Type} (R T : State -> State -> Prop) (a : A) :
  (forall s, R s s) -> post2 R T (ret a).
Proof. intros H s. apply H. Qed.

Lemma post2_bind {A B : Type} (R T : State -> State -> Prop)
  (m : M A) (k : A -> M B) :
  (forall s1 s2 s3, R s1 s2 -> R s2 s3 -> R s1 s3) ->
  (forall s1 s2 s3, R s1 s2 -> T s2 s3 -> T s1 s3) ->
  post2 R T m -> (forall a, post2 R T (k a)) -> post2 R T (bind m k).
Proof.
  intros HR HT Hm Hk s. unfold bind. specialize (Hm s).
  destruct (m s) as [a s1|e s1|]; auto.
  specialize (Hk a s1). destruct (k a s1); eauto.
Qed.

Section Once.

Context {P : Path.Ops}.
Variable inst : Registry.

Lemma stamped_false_ind id fx j s :
  fx_info fx = Some j -> stamped id fx s = false -> stamp_ind id j s = 0.
Proof.
  unfold stamped, stamp_ind. intros ->. destruct (lastRun s j); auto.
  now intros ->.
Qed.

Lemma stamp_ind_frame id i s s' :
  lastRun s' = lastRun s -> stamp_ind id i s' = stamp_ind id i s.
Proof. unfold stamp_ind. now intros ->. Qed.

Lemma run_fxs_once id prop old fxs ran :
  post2 (once_id id) (once_cut id) (run_fxs inst id prop old fxs ran).
Proof.
  revert ran. induction fxs as [|[fx|] fxs IH]; intros ran s; simpl.
  - apply once_id_refl.
  - unfold bind at 1. simpl.
    destruct (Path.matches (fx_path fx) prop && negb (stamped id fx s)) eqn:E.
    + apply andb_prop in E. destruct E as [_ E].
      apply negb_true_iff in E.
      unfold bind at 1. simpl. unfold bind at 1. simpl.
      set (s1 := set_log (Dispatch id fx prop (read prop (__data s)) old
                            :: log s) s).
      unfold bind at 1.
      pose proof (apply_fn_effect_frame inst (fx_fn fx) prop
                    (read prop (__data s)) old (fx_info fx) s1) as F.
      destruct (apply_fn inst (fx_fn fx) prop (read prop (__data s)) old
                  (fx_info fx) s1) as [[] s2|e s2|] eqn:Ea; auto.
      * destruct F as (F1 & F2 & (l & F3 & F4) & _ & _ & _).
        assert (O : once_id id s
                      (match stamp id fx s2 with
                       | Ret _ s3 => s3
                       | _ => s2
                       end)).
        { unfold stamp. destruct (fx_info fx) as [j|] eqn:Ej; simpl.
          - exists (l ++ [Dispatch id fx prop (read prop (__data s)) old]).
            split. { simpl. rewrite F3. simpl. now rewrite <- app_assoc. }
            intros i. rewrite dispatches_of_app, dispatches_of_calls by exact F4.
            unfold dispatches_of. simpl. rewrite Ej.
            unfold stamp_ind at 2. simpl. rewrite F1. simpl.
            destruct (Nat.eqb i j) eqn:Eij; simpl.
            + apply Nat.eqb_eq in Eij. subst i.
              erewrite stamped_false_ind by eauto. rewrite Nat.eqb_refl. lia.
            + unfold stamp_ind. lia.
          - exists (l ++ [Dispatch id fx prop (read prop (__data s)) old]).
            split. { simpl. rewrite F3. simpl. now rewrite <- app_assoc. }
            intros i. rewrite dispatches_of_app, dispatches_of_calls by exact F4.
            unfold dispatches_of. simpl. rewrite Ej. simpl.
            unfold stamp_ind. rewrite F1. unfold s1. simpl. lia. }
        unfold bind. unfold stamp in *.
        destruct (fx_info fx) as [j|]; simpl in *.
        -- match goal with
           | |- context [run_fxs inst id prop old fxs true ?s3] =>
               specialize (IH true s3);
               destruct (run_fxs inst id prop old fxs true s3)
           end; eauto using once_id_trans, once_id_cut.
        -- specialize (IH true s2).
           destruct (run_fxs inst id prop old fxs true s2);
             eauto using once_id_trans, once_id_cut.
      * destruct F as (F1 & F2 & (l & F3 & F4) & _ & _ & _).
        exists (l ++ [Dispatch id fx prop (read prop (__data s)) old]).
        split. { simpl. rewrite F3. simpl. now rewrite <- app_assoc. }
        intros i. rewrite dispatches_of_app, dispatches_of_calls by exact F4.
        unfold dispatches_of. simpl.
        destruct (fx_info fx) as [j|] eqn:Ej; simpl.
        -- destruct (Nat.eqb i j) eqn:Eij; simpl.
           ++ apply Nat.eqb_eq in Eij. subst i.
              erewrite stamped_false_ind by eauto. lia.
           ++ pose proof (stamp_ind_le id i s). lia.
        -- pose proof (stamp_ind_le id i s). lia.
    + apply IH.
  - apply once_id_refl.
Qed.

Lemma run_props_once effects id oldProps props ran :
  post2 (once_id id) (once_cut id)
    (run_props inst effects id oldProps props ran).
Proof.
  revert ran. induction props as [|prop props IH]; intros ran; simpl.
  - apply post2_ret, once_id_refl.
  - apply post2_bind;
      [apply once_id_trans | apply once_id_cut | | intros r; apply IH].
    unfold runEffectsForProperty.
    destruct (lookup (Path.root prop) effects).
    + apply run_fxs_once.
    + apply post2_ret, once_id_refl.
Qed.

End Once.

Lemma stamp_ind_1 id i s : stamp_ind id i s = 1 -> lastRun s i = Some id.
Proof.
  unfold stamp_ind. destruct (lastRun s i) as [r|]; try discriminate.
  destruct (Nat.eqb r id) eqn:E; try discriminate.
  apply Nat.eqb_eq in E. now subst.
Qed.

Lemma stamp_ind_Some id i s : lastRun s i = Some id -> stamp_ind id i s = 1.
Proof. unfold stamp_ind. intros ->. now rewrite Nat.eqb_refl. Qed.

(** ** A flush leaves nothing pending *)

Lemma returns_ret {A : Type} (Q : A -> Prop) (a : A) : Q a -> returns Q (ret a).
Proof. intros H s x s' E. inversion E; subst. auto. Qed.

Lemma returns_bind {A B : Type} (Q : B -> Prop) (m : M A) (k : A -> M B) :
  (forall a, returns Q (k a)) -> returns Q (bind m k).
Proof.
  intros Hk s b s' E. apply bind_Ret in E. destruct E as (a & s1 & _ & E).
  eapply Hk; eauto.
Qed.

Lemma returns_bind_with {A B : Type} (Qa : A -> Prop) (Q : B -> Prop)
  (m : M A) (k : A -> M B) :
  returns Qa m -> (forall a, Qa a -> returns Q (k a)) -> returns Q (bind m k).
Proof.
  intros Hm Hk s b s' E. apply bind_Ret in E. destruct E as (a & s1 & E1 & E).
  eapply Hk; eauto.
Qed.

Lemma quiet_refl s : quiet s s.
Proof. repeat split. Qed.

Lemma quiet_trans s1 s2 s3 : quiet s1 s2 -> quiet s2 s3 -> quiet s1 s3.
Proof. unfold quiet. intuition congruence. Qed.

Ltac quiet_field := repeat split; reflexivity.

Ltac qt := post_step quiet_refl quiet_trans.

Section Quiescence.

Context {P : Path.Ops}.
Variable inst : Registry.

Lemma run_fxs_true id prop old fxs :
  returns (fun r => r = true) (run_fxs inst id prop old fxs true).
Proof.
  induction fxs as [|[fx|] fxs IH]; simpl.
  - now apply returns_ret.
  - apply returns_bind. intros skip.
    destruct (Path.matches (fx_path fx) prop && negb skip); auto.
    repeat (apply returns_bind; intro). exact IH.
  - now apply returns_ret.
Qed.

Lemma run_fxs_false id prop old fxs s s' :
  run_fxs inst id prop old fxs false s = Ret false s' -> s' = s.
Proof.
  induction fxs as [|[fx|] fxs IH]; simpl; intros H.
  - now inversion H.
  - unfold bind at 1 in H. simpl in H.
    destruct (Path.matches (fx_path fx) prop && negb (stamped id fx s)); auto.
    exfalso.
    assert (R : returns (fun r => r = true)
                  (v <- gets (fun s0 => read prop (__data s0)) ;;
                   emit (Dispatch id fx prop v old) ;;;
                   apply_fn inst (fx_fn fx) prop v old (fx_info fx) ;;;
                   stamp id fx ;;; run_fxs inst id prop old fxs true)).
    { repeat (apply returns_bind; intro). apply run_fxs_true. }
    apply R in H. discriminate.
  - now inversion H.
Qed.

Lemma runEffectsForProperty_false effects id prop old s s' :
  runEffectsForProperty inst effects id prop old s = Ret false s' -> s' = s.
Proof.
  unfold runEffectsForProperty.
  destruct (lookup (Path.root prop) effects).
  - apply run_fxs_false.
  - intros H. now inversion H.
Qed.

Lemma run_props_false effects id oldProps props ran s s' :
  run_props inst effects id oldProps props ran s = Ret false s' ->
  s' = s /\ ran = false.
Proof.
  revert ran s. induction props as [|prop props IH]; simpl; intros ran s H.
  - inversion H. auto.
  - apply bind_Ret in H. destruct H as (r & s1 & H1 & H2).
    apply IH in H2. destruct H2 as [-> E].
    apply orb_false_elim in E. destruct E as [-> ->].
    apply runEffectsForProperty_false in H1. auto.
Qed.

(** A pass that runs no effect changes nothing but [effectUid]. *)
Lemma runEffects_false type props oldProps s s' :
  runEffects inst type props oldProps s = Ret false s' ->
  s' = s \/ s' = set_effectUid (S (effectUid s)) s.
Proof.
  unfold runEffects. destruct (effects_of inst type) as [effects|].
  - unfold bind at 1. simpl. unfold bind at 1. simpl. intros H.
    apply run_props_false in H. destruct H as [-> _]. auto.
  - intros H. inversion H. auto.
Qed.

Lemma runEffects_grows_id_clients type props oldProps s r s' :
  runEffects inst type props oldProps s = Ret r s' ->
  __dataPendingClients s' = __dataPendingClients s /\
  __dataInitialized s' = __dataInitialized s.
Proof.
  unfold runEffects. destruct (effects_of inst type) as [effects|].
  - unfold bind at 1. simpl. unfold bind at 1. simpl. intros H.
    eapply post_Ret in H; [|apply run_props_grows].
    destruct H as (_ & _ & _ & _ & a & b). simpl in *. auto.
  - intros H. inversion H. auto.
Qed.

Lemma mixin_state t src s r s' : mixin t src s = Ret r s' -> s' = s.
Proof.
  unfold mixin. destruct src as [[|]|]; try (intros H; now inversion H).
  destruct t; intros H; now inversion H.
Qed.

Lemma compute_loop_pending fuel input changed old computed s r s' :
  __dataPending s = None ->
  compute_loop inst fuel input changed old computed s = Ret r s' ->
  __dataPending s' = None /\
  __dataPendingClients s' = __dataPendingClients s /\
  __dataInitialized s' = __dataInitialized s.
Proof.
  revert input changed old computed s.
  induction fuel as [|fuel IH]; simpl; intros input changed old computed s Hp H.
  - discriminate.
  - apply bind_Ret in H. destruct H as (ran & s1 & H1 & H2).
    destruct ran.
    + destruct (runEffects_grows_id_clients _ _ _ _ H1) as [C1 I1].
      unfold bind at 1 in H2. simpl in H2.
      apply bind_Ret in H2. destruct H2 as (o' & s2 & M1 & H2).
      apply mixin_state in M1. subst s2.
      unfold bind at 1 in H2. simpl in H2.
      apply bind_Ret in H2. destruct H2 as (c' & s2 & M2 & H2).
      apply mixin_state in M2. subst s2.
      apply bind_Ret in H2. destruct H2 as (k' & s2 & M3 & H2).
      apply mixin_state in M3. subst s2.
      unfold bind at 1 in H2. simpl in H2.
      apply IH in H2; [|reflexivity]. simpl in H2.
      destruct H2 as (a & b & c). repeat split; congruence.
    + inversion H2; subst.
      apply runEffects_false in H1. destruct H1 as [->| ->]; simpl; auto.
Qed.

Lemma lookup_forallb {A : Type} (f : list A -> bool) k (em : jsobj (list A))
  l :
  forallb (fun kv => f (snd kv)) em = true -> lookup k em = Some l ->
  f l = true.
Proof.
  induction em as [|[k' l'] em IH]; simpl; intros H E; try discriminate.
  apply andb_prop in H. destruct H as [H1 H2].
  destruct (String.eqb k k'); auto.
  inversion E; subst. exact H1.
Qed.

Lemma alloc_quiet o : post quiet (alloc o).
Proof. intros s. simpl. quiet_field. Qed.

Lemma marshalArgs_quiet al path v : post quiet (marshalArgs inst al path v).
Proof.
  induction al as [|a al IH]; simpl;
    repeat (qt; try apply alloc_quiet; try apply IH; try quiet_field).
Qed.

Lemma observer_fn_quiet fn p v old info :
  fn <> runComputedEffect -> post quiet (apply_fn inst fn p v old info).
Proof.
  intros Hfn. unfold apply_fn, runMethodEffect, emit.
  repeat (qt; try apply marshalArgs_quiet; try quiet_field).
  contradiction.
Qed.

Lemma run_fxs_quiet id prop old fxs ran :
  forallb observer_entry fxs = true ->
  post quiet (run_fxs inst id prop old fxs ran).
Proof.
  revert ran. induction fxs as [|[fx|] fxs IH]; intros ran H; simpl.
  - qt.
  - simpl in H. apply andb_prop in H. destruct H as [H1 H2].
    unfold stamp, emit.
    repeat (qt; try apply IH; try quiet_field; auto).
    apply observer_fn_quiet. intros E. rewrite E in H1. discriminate.
  - qt.
Qed.

Lemma run_props_quiet effects id oldProps props ran :
  forallb (fun kv => forallb observer_entry (snd kv)) effects = true ->
  post quiet (run_props inst effects id oldProps props ran).
Proof.
  intros H. revert ran.
  induction props as [|prop props IH]; intros ran; simpl.
  - qt.
  - unfold runEffectsForProperty.
    apply post_bind; [apply quiet_trans| |intros r; apply IH].
    destruct (lookup (Path.root prop) effects) eqn:E.
    + apply run_fxs_quiet.
      apply (lookup_forallb (forallb observer_entry) _ _ H E).
    + qt.
Qed.

End Quiescence.

Section Idempotence.

Context {P : Path.Ops}.
Variable inst : Registry.

Lemma runEffects_observe_quiet props oldProps :
  observers_only inst = true ->
  post quiet (runEffects inst OBSERVE props oldProps).
Proof.
  unfold observers_only, runEffects. simpl.
  destruct (__observeEffects inst) as [em|]; intros H.
  - repeat (qt; try quiet_field). now apply run_props_quiet.
  - qt.
Qed.

Lemma mirror_quiet a b path changed computed :
  post quiet (mirror a b path changed computed).
Proof. unfold mirror. repeat (qt; try quiet_field). Qed.

Lemma link_paths_quiet a b paths changed computed :
  post quiet (link_paths a b paths changed computed).
Proof.
  revert changed computed.
  induction paths as [|path paths IH]; intros; simpl.
  - qt.
  - repeat (qt; try apply mirror_quiet; try apply IH).
Qed.

Lemma link_all_quiet links changed computed :
  post quiet (link_all links changed computed).
Proof.
  revert changed computed.
  induction links as [|[a b] links IH]; intros; simpl.
  - qt.
  - repeat (qt; try apply link_paths_quiet; try apply IH).
Qed.

Lemma computeLinkedPaths_quiet changed computed :
  post quiet (computeLinkedPaths changed computed).
Proof.
  unfold computeLinkedPaths. repeat (qt; try apply link_all_quiet).
Qed.

Lemma notifyProperties_quiet changed computed old :
  post quiet (notifyProperties changed computed old).
Proof. unfold notifyProperties. repeat (qt; try quiet_field). Qed.

(** In the model nothing runs between the increment of [_runId] and its
    test: [notifyProperties] always returns the merged maps. *)
Lemma notifyProperties_Some changed computed old :
  returns (fun r => r <> None) (notifyProperties changed computed old).
Proof.
  unfold notifyProperties. intros s r s' H.
  unfold bind at 1 in H. simpl in H. unfold bind at 1 in H. simpl in H.
  unfold bind at 1 in H. simpl in H.
  apply bind_Ret in H. destruct H as (i1 & s1 & H1 & H).
  assert (E1 : _runId s1 = S (_runId s)).
  { destruct (__dataInterim s); [apply mixin_state in H1|inversion H1];
      now subst. }
  unfold bind at 1 in H. simpl in H. unfold bind at 1 in H. simpl in H.
  apply bind_Ret in H. destruct H as (i2 & s2 & H2 & H).
  assert (E2 : _runId s2 = S (_runId s)).
  { destruct (__dataInterimOld s1); [apply mixin_state in H2|inversion H2];
      subst; simpl; auto. }
  unfold bind at 1 in H. simpl in H. unfold bind at 1 in H. simpl in H.
  rewrite E2, Nat.eqb_refl in H. inversion H. discriminate.
Qed.

Lemma propertiesChanged_settles fuel changed old s s' :
  observers_only inst = true ->
  __dataPending s = None ->
  _propertiesChanged inst fuel changed old s = Ret tt s' ->
  __dataPending s' = None /\
  __dataPendingClients s' = None /\
  __dataInitialized s' = __dataInitialized s.
Proof.
  intros Hobs Hp H. unfold _propertiesChanged in H.
  apply bind_Ret in H. destruct H as (r & s1 & H1 & H).
  assert (A1 : __dataPending s1 = None /\
               __dataPendingClients s1 = __dataPendingClients s /\
               __dataInitialized s1 = __dataInitialized s).
  { unfold runComputedEffects in H1. destruct (__computeEffects inst).
    - eapply compute_loop_pending; eauto.
    - inversion H1; subst. auto. }
  destruct r as [[ch ol] co].
  apply bind_Ret in H. destruct H as (l & s2 & H2 & H).
  eapply post_Ret in H2; [|apply computeLinkedPaths_quiet].
  destruct l as [ch' co'].
  apply bind_Ret in H. destruct H as (props & s3 & H3 & H).
  pose proof H3 as N. apply notifyProperties_Some in N.
  eapply post_Ret in H3; [|apply notifyProperties_quiet].
  destruct props as [[c o]|]; [|congruence].
  apply bind_Ret in H. destruct H as ([] & s4 & H4 & H).
  apply bind_Ret in H. destruct H as (x & s5 & H5 & H).
  inversion H; subst s5.
  eapply post_Ret in H5; [|apply runEffects_observe_quiet; auto].
  destruct A1 as (a1 & b1 & c1), H2 as (a2 & b2 & c2), H3 as (a3 & b3 & c3),
    H5 as (a5 & b5 & c5).
  unfold _flushClients in H4. unfold bind in H4. simpl in H4.
  destruct (__dataPendingClients s3) eqn:C; inversion H4; subst s4;
    simpl in *; repeat split; congruence.
Qed.

End Idempotence.



(** ** The normalization of [splice]'s start *)

Lemma Qminus_inject_Z (a b : Z) :
  Qeq_bool (inject_Z a - inject_Z b) (inject_Z (a - b)) = true.
Proof.
  apply Qeq_eq_bool. unfold Z.sub. rewrite inject_Z_plus, inject_Z_opp.
  reflexivity.
Qed.

Lemma splice_start_floor (len : nat) (start : number) :
  num_lt start (of_nat 0) = false -> is_nan start = false ->
  num_eq (splice_start len start) (Math_floor start) = true.
Proof.
  unfold splice_start. intros -> Hn.
  destruct start as [| | |q]; try discriminate; auto.
  unfold Math_floor, num_falsy.
  destruct (Qeq_bool (inject_Z (Qfloor q)) 0) eqn:E; unfold num_eq, of_nat.
  - rewrite Qeq_bool_comm. exact E.
  - apply Qeq_bool_refl.
Qed.

Lemma splice_start_falsy (len : nat) (start : number) :
  num_falsy start = true -> splice_start len start = of_nat 0.
Proof.
  destruct start as [| | |q]; try discriminate; auto.
  unfold num_falsy. intros H. apply Qeq_bool_eq in H.
  assert (L : Qle_bool (inject_Z (Z.of_nat 0)) q = true).
  { apply Qle_bool_iff. rewrite H. apply Qle_refl. }
  unfold splice_start, num_lt, of_nat, Math_floor. rewrite L.
  cbv beta iota delta [negb num_falsy].
  rewrite (Qfloor_comp _ _ H). reflexivity.
Qed.

Lemma splice_start_negative (len : nat) (q : Q) :
  (q < 0)%Q ->
  num_eq (splice_start len (Fin q))
    (Fin (inject_Z (Z.of_nat len - Qfloor (- q)))) = true.
Proof.
  intros Hq.
  assert (L : Qle_bool (inject_Z (Z.of_nat 0)) q = false).
  { destruct (Qle_bool (inject_Z (Z.of_nat 0)) q) eqn:E; auto.
    apply Qle_bool_iff in E. exfalso. apply (Qlt_not_le _ _ Hq). exact E. }
  unfold splice_start, num_lt, of_nat, Math_floor, num_neg, num_sub.
  rewrite L. cbv beta iota delta [negb num_falsy].
  destruct (Qeq_bool (inject_Z (Z.of_nat len) - inject_Z (Qfloor (- q))) 0)
    eqn:E; unfold num_eq.
  - apply Qeq_bool_eq in E. apply Qeq_eq_bool.
    transitivity (inject_Z (Z.of_nat len) - inject_Z (Qfloor (- q)))%Q.
    + rewrite E. reflexivity.
    + apply Qeq_bool_eq, Qminus_inject_Z.
  - apply Qminus_inject_Z.
Qed.

Section SpliceRecord.

Context {P : Path.Ops}.
Variable inst : Registry.

Lemma array_items_Ret array s items s' :
  array_items array s = Ret items s' ->
  s' = s /\ exists r, array = VRef r /\ deref (heap s) r = Some (OArr items).
Proof.
  unfold array_items. destruct array; try discriminate.
  destruct (deref (heap s) r) as [[|]|] eqn:E; try discriminate.
  intros H. inversion H; subst. eauto.
Qed.

(** The record [notifySplice] builds stays in the heap, below the wrappers
    the notification allocates after it. *)
Lemma notifySplice_record fuel array path index added removed s s' :
  notifySplice inst fuel array path index added removed s = Ret tt s' ->
  let rec := length (heap s) in
  deref (heap s') rec =
    Some (OObj [("index", index); ("addedCount", added);
                ("removed", removed); ("object", array);
                ("type", VStr "splice")]) /\
  deref (heap s') (S rec) = Some (OArr [VRef rec]) /\
  deref (heap s') (S (S rec)) = Some (OObj [("indexSplices", VRef (S rec))]).
Proof.
  intros H rec. unfold notifySplice in H.
  unfold bind at 1 in H. simpl in H. unfold bind at 1 in H. simpl in H.
  unfold notifySplices_fn in H.
  unfold bind at 1 in H. simpl in H.
  match type of H with
  | ?m ?s3 = _ =>
      assert (G : grows s3 s')
  end.
  { eapply post_Ret; [|exact H].
    repeat (gr; try apply alloc_grows; try apply setProperty_grows;
            try apply the_length_grows; try solve [grows_field]). }
  assert (E : length (heap s ++
                [OObj [("index", index); ("addedCount", added);
                       ("removed", removed); ("object", array);
                       ("type", VStr "splice")]]) = S rec).
  { rewrite length_app. simpl. subst rec. lia. }
  rewrite E in G.
  repeat split; (eapply grows_heap; [exact G|]); unfold deref;
    cbn [heap set_heap]; rewrite <- !app_assoc;
    rewrite nth_error_app2 by (subst rec; lia).
  - subst rec. now rewrite Nat.sub_diag.
  - subst rec. replace (S (length (heap s)) - length (heap s)) with 1 by lia.
    reflexivity.
  - subst rec.
    replace (S (S (length (heap s))) - length (heap s)) with 2 by lia.
    reflexivity.
Qed.

End SpliceRecord.

(** ** Array mutators on a missing array, and deep reads *)

Lemma prop_get_missing h v seg : missing v = true -> prop_get h v seg = VUndef.
Proof. destruct v; simpl; try discriminate; auto. Qed.

Lemma walk_undef h parts : fold_left (prop_get h) parts VUndef = VUndef.
Proof. induction parts; simpl; auto. Qed.

Lemma walk_missing h v pre seg post :
  missing (fold_left (prop_get h) pre v) = true ->
  fold_left (prop_get h) (pre ++ seg :: post) v = VUndef.
Proof.
  intros H. rewrite fold_left_app. simpl.
  rewrite prop_get_missing by exact H. apply walk_undef.
Qed.

(** C5, as amended.  When the path of an array mutator resolves to
    [undefined] or [null], the mutator throws a TypeError and leaves the
    instance as it was; a deep [get] through a missing segment returns
    [undefined]. *)
Theorem mutators_throw_on_missing_array {P : Path.Ops} (inst : Registry)
  (fuel : nat) (path : string) (s : State) :
  missing (fst (Path_get inst This path s)) = true ->
  (forall items, push inst fuel path items s = Throw TypeError s) /\
  pop inst fuel path s = Throw TypeError s /\
  shift inst fuel path s = Throw TypeError s /\
  (forall items, unshift inst fuel path items s = Throw TypeError s) /\
  (forall start deleteCount items,
     splice inst fuel path start deleteCount items s = Throw TypeError s) /\
  (forall value, spliceByValue inst fuel path value s = Throw TypeError s) /\
  (forall root first pre seg post,
     Path.split path = first :: pre ++ seg :: post ->
     missing (fold_left (prop_get (heap s)) pre
                (root_get inst (if truthy root then Obj root else This)
                   first s)) = true ->
     get inst path root s = VUndef).
Proof.
  intros H.
  assert (L : the_length (fst (Path_get inst This path s)) s
              = Throw TypeError s).
  { unfold the_length. now rewrite H. }
  assert (A : array_items (fst (Path_get inst This path s)) s
              = Throw TypeError s).
  { unfold array_items.
    destruct (fst (Path_get inst This path s)); try discriminate; auto. }
  repeat split; intros.
  - unfold push. unfold bind at 1, gets at 1. unfold bind at 1.
    now rewrite L.
  - unfold pop. unfold bind at 1, gets at 1. unfold bind at 1.
    now rewrite L.
  - unfold shift. unfold bind at 1, gets at 1. unfold bind at 1.
    now rewrite L.
  - unfold unshift. unfold bind at 1, gets at 1. unfold bind at 1.
    now rewrite A.
  - unfold splice. unfold bind at 1, gets at 1. unfold bind at 1.
    now rewrite A.
  - unfold spliceByValue. unfold bind at 1, gets at 1. unfold bind at 1.
    now rewrite L.
  - unfold get, Path_get. rewrite H0. simpl. now apply walk_missing.
Qed.

Lemma mutators_throw_on_missing_array_witness :
  pop Fixture.names 5 "tourists.names" (Fixture.ready_state [])
  = Throw TypeError (Fixture.ready_state []) /\
  get Fixture.names "tourists.names.first" VUndef (Fixture.ready_state [])
  = VUndef.
Proof.
  destruct (@mutators_throw_on_missing_array SpecPath.spec_ops Fixture.names
              5 "tourists.names" (Fixture.ready_state []))
    as (_ & Hpop & _).
  - reflexivity.
  - split; [exact Hpop|].
    destruct (@mutators_throw_on_missing_array SpecPath.spec_ops Fixture.names
                5 "tourists.names.first" (Fixture.ready_state []))
      as (_ & _ & _ & _ & _ & _ & Hget).
    + reflexivity.
    + apply (Hget VUndef "tourists" [] "names" ["first"]); reflexivity.
Defined.

(** C5, the claim as stated, fails: [push] on a path whose array does not
    exist throws. *)
Lemma push_missing_path_counterexample :
  push Fixture.names 5 "tourists.names" [Fixture.num 1]
    (Fixture.ready_state [])
  = Throw TypeError (Fixture.ready_state []).
Proof. reflexivity. Qed.

(** ** Public writes to read-only properties *)

(** C4, as amended.  A public [set(path, value)] without a root is a silent
    no-op when [path] itself names a read-only property (a computed property
    is one): nothing is thrown and the instance is as it was.  The guard
    tests the whole path, not its root.  [setProperties] skips such an entry
    in the same way, and the setter of a read-only accessor does nothing;
    the protected setter, where one was defined, is [_setProperty]. *)
Theorem set_read_only_is_noop {P : Path.Ops} (inst : Registry) (fuel : nat)
  (path : string) (value root : value) (s : State) :
  truthy root = false ->
  _hasReadOnlyEffect inst path = true ->
  set inst fuel path value root s = Ret tt s /\
  (forall rest,
     setProperties inst fuel ((path, value) :: rest) s
     = setProperties inst fuel rest s) /\
  (lookup path (accessors inst) = Some true ->
   inst_assign inst fuel path value s = Ret tt s) /\
  (existsb (String.eqb path) (setters inst) = true ->
   protected_set inst fuel path value s = _setProperty inst fuel path value s).
Proof.
  intros Hr Hro. split; [|split; [|split]].
  - unfold set. now rewrite Hr, Hro.
  - intros rest. unfold setProperties. cbn [setProperties_loop].
    rewrite Hro. reflexivity.
  - intros Ha. unfold inst_assign. now rewrite Ha.
  - intros Hs. unfold protected_set. now rewrite Hs.
Qed.

Lemma set_read_only_is_noop_witness :
  set Fixture.names 5 "fullName" (VStr "x") VUndef (Fixture.ready_state [])
  = Ret tt (Fixture.ready_state []) /\
  setProperties Fixture.names 5 [("fullName", VStr "x")]
    (Fixture.ready_state [])
  = Ret tt (Fixture.ready_state []) /\
  inst_assign Fixture.names 5 "fullName" (VStr "x") (Fixture.ready_state [])
  = Ret tt (Fixture.ready_state []).
Proof.
  destruct (@set_read_only_is_noop SpecPath.spec_ops Fixture.names 5
              "fullName" (VStr "x") VUndef (Fixture.ready_state []))
    as (Hset & Hprops & Hacc & _); try reflexivity.
  split; [exact Hset|]. split.
  - rewrite Hprops. vm_compute. reflexivity.
  - apply Hacc. vm_compute. reflexivity.
Defined.

(** C4, the claim as stated, fails: [ro] is read-only and holds an object;
    [set('ro.x', 5)] writes the object, caches [ro.x] in [__data] and runs
    the observer. *)
Lemma set_under_read_only_root_counterexample :
  _hasReadOnlyEffect Fixture.guarded (Path.root "ro.x") = true /\
  exists s',
    set Fixture.guarded 5 "ro.x" (Fixture.num 5) VUndef Fixture.guarded_state
    = Ret tt s' /\
    __data s' <> __data Fixture.guarded_state /\
    read "ro.x" (__data s') = Fixture.num 5 /\
    deref (heap s') 0 = Some (OObj [("x", Fixture.num 5)]) /\
    calls_of "changed" (log s') = [[Fixture.num 5; VUndef; VStr "ro.x"]].
Proof.
  split; [reflexivity|].
  eexists. split; [vm_compute; reflexivity|].
  repeat split; try (vm_compute; reflexivity).
  vm_compute. discriminate.
Qed.

(** ** The compute loop *)

Lemma bind_gets {A B : Type} (f : State -> A) (k : A -> M B) s :
  bind (gets f) k s = k (f s) s.
Proof. reflexivity. Qed.

Lemma bind_modify {B : Type} (f : State -> State) (k : unit -> M B) s :
  bind (modify f) k s = k tt (f s).
Proof. reflexivity. Qed.

Lemma bind_ret {A B : Type} (a : A) (k : A -> M B) s : bind (ret a) k s = k a s.
Proof. reflexivity. Qed.

Lemma bind_emit {B : Type} (e : event) (k : unit -> M B) s :
  bind (emit e) k s = k tt (set_log (e :: log s) s).
Proof. reflexivity. Qed.

Lemma bind_step {A B : Type} (m : M A) (k : A -> M B) s a s1 :
  m s = Ret a s1 -> bind m k s = k a s1.
Proof. unfold bind. now intros ->. Qed.

Lemma bind_assoc {A B C : Type} (m : M A) (k : A -> M B) (h : B -> M C) s :
  bind (bind m k) h s = bind m (fun a => bind (k a) h) s.
Proof. unfold bind. destruct (m s); reflexivity. Qed.

Section ComputeLoop.

Context {P : Path.Ops}.
Variable inst : Registry.

Lemma marshalArgs_no_wildcard al path v s :
  no_wildcard al = true ->
  exists vals, marshalArgs inst al path v s = Ret vals s.
Proof.
  induction al as [|a al IH]; simpl; intros H.
  - now exists [].
  - apply andb_prop in H. destruct H as [Ha Hal].
    apply negb_true_iff in Ha. destruct (IH Hal) as (vals & E).
    unfold bind at 1, gets at 1. rewrite Ha.
    unfold bind at 1, ret at 1. unfold bind. rewrite E.
    eexists. reflexivity.
Qed.

(** Setting an object while nothing is pending. *)
Lemma setPendingProperty_object t w s :
  typeof w = "object" -> __dataPending s = None ->
  exists s',
    _setPendingProperty t w s = Ret true s' /\
    __dataPending s' = Some [(t, w)] /\
    (exists ov, __dataOld s' = Some [(t, ov)]) /\
    lastRun s' = lastRun s /\ effectUid s' = effectUid s.
Proof.
  intros Hw Hp. unfold _setPendingProperty. rewrite Hw. simpl String.eqb.
  unfold bind at 1, modify at 1. unfold super_setPendingProperty.
  unfold bind at 1, gets at 1.
  assert (C : forall old, _shouldPropChange t w old = true).
  { intros old. unfold _shouldPropChange. rewrite Hw. apply orb_true_r. }
  rewrite C. unfold bind at 1, gets at 1. cbn [__dataPending set_data].
  rewrite Hp. unfold bind, gets, modify, ret. simpl.
  eexists. split; [reflexivity|]. simpl. repeat split; eauto.
Qed.

(** One pass over a changed property that feeds a computed property. *)
Lemma compute_pass_feeds x t v s :
  feeds inst x t -> __dataPending s = None -> stamps_below s ->
  exists s' w ov,
    runEffects inst COMPUTE (Some [(x, v)]) None s = Ret true s' /\
    __dataPending s' = Some [(t, w)] /\
    __dataOld s' = Some [(t, ov)] /\
    stamps_below s'.
Proof.
  intros [(em & fx & Hem & Hl & Hm & Hfn & i & info & fn & al & Hi & Hn & Hmeth
           & Hargs & Hw & Hobj & Ht) Htarget] Hp Hs.
  unfold runEffects, effects_of. rewrite Hem.
  rewrite bind_gets, bind_modify.
  simpl keys. simpl run_props.
  unfold runEffectsForProperty. rewrite Hl.
  simpl run_fxs. rewrite bind_assoc, bind_gets.
  assert (St : stamped (effectUid s) fx (set_effectUid (S (effectUid s)) s)
               = false).
  { unfold stamped. rewrite Hi. simpl.
    destruct (lastRun s i) as [r|] eqn:E; auto.
    apply Hs in E. apply Nat.eqb_neq. lia. }
  rewrite St, Hm. cbn [andb negb].
  rewrite !bind_assoc, bind_gets. rewrite !bind_assoc, bind_emit.
  unfold apply_fn. rewrite Hi, Hn, Hfn.
  unfold runMethodEffect. rewrite Hmeth, Hargs.
  rewrite !bind_assoc.
  match goal with
  | |- context [bind (marshalArgs inst al x ?v0) _ ?s0] =>
      destruct (marshalArgs_no_wildcard al x v0 s0 Hw) as (vals & Em);
      rewrite (bind_step _ _ _ Em)
  end.
  rewrite !bind_assoc, bind_emit, bind_ret.
  rewrite Ht. simpl key_of. unfold _setPropertyFromComputation.
  rewrite Htarget. rewrite !bind_assoc.
  match goal with
  | |- context [bind (_setPendingProperty t (fn vals)) _ ?s0] =>
      destruct (@setPendingProperty_object t (fn vals) s0 (Hobj vals))
        as (s1 & E1 & P1 & (ov & O1) & L1 & U1); [exact Hp|];
      rewrite (bind_step _ _ _ E1)
  end.
  rewrite bind_ret. unfold stamp. rewrite Hi.
  rewrite !bind_assoc, bind_modify. unfold ret.
  eexists. exists (fn vals), ov. split; [reflexivity|].
  simpl. repeat split; auto.
  intros j r. simpl. rewrite U1, L1. simpl.
  destruct (Nat.eqb j i).
  - intros E. inversion E. lia.
  - intros E. apply Hs in E. lia.
Qed.

Lemma compute_loop_feeds (X : string -> Prop) :
  (forall x, X x -> exists t, X t /\ feeds inst x t) ->
  forall fuel x v changed old computed s,
    X x -> __dataPending s = None -> stamps_below s ->
    compute_loop inst fuel (Some [(x, v)]) (Some changed) (Some old)
      computed s = Diverge.
Proof.
  intros HX. induction fuel as [|fuel IH];
    intros x v changed old computed s Hx Hp Hs; [reflexivity|].
  destruct (HX x Hx) as (t & Xt & Hf).
  destruct (@compute_pass_feeds x t v s Hf Hp Hs)
    as (s' & w & ov & E & P1 & O1 & S1).
  simpl compute_loop. unfold bind at 1. rewrite E.
  unfold bind at 1, gets at 1. rewrite O1.
  unfold bind at 1, mixin at 1, ret at 1.
  unfold bind at 1, gets at 1. rewrite P1.
  unfold bind at 1, mixin at 1, ret at 1.
  unfold bind at 1.
  assert (M : exists c,
            mixin (match computed with Some c => Some c | None => Some [] end)
              (Some [(t, w)]) s' = Ret (Some c) s').
  { destruct computed; eexists; reflexivity. }
  destruct M as (c & M). rewrite M.
  unfold bind at 1, modify at 1.
  apply IH; auto.
Qed.

Lemma compute_loop_stops fuel input changed old computed s ran s1 :
  runEffects inst COMPUTE input None s = Ret ran s1 ->
  __dataPending s1 = None ->
  compute_loop inst (S (S fuel)) input changed old computed s <> Diverge.
Proof.
  intros E Hp. simpl compute_loop. unfold bind at 1. rewrite E.
  destruct ran; [|discriminate].
  unfold bind at 1, gets at 1.
  unfold bind at 1.
  destruct (mixin old (__dataOld s1) s1) as [o' s2|e s2|] eqn:M1;
    try discriminate.
  2: { unfold mixin in M1. destruct (__dataOld s1) as [[|]|], old;
       discriminate. }
  apply mixin_state in M1. subst s2.
  unfold bind at 1, gets at 1. rewrite Hp.
  unfold bind at 1, mixin at 1, ret at 1.
  unfold bind at 1, mixin at 1, ret at 1.
  unfold bind at 1, modify at 1.
  unfold bind at 1.
  pose proof (total_runEffects inst COMPUTE None None
                (set_dataPending None s1)) as T.
  destruct (runEffects inst COMPUTE None None (set_dataPending None s1))
    as [ran2 s3|e s3|] eqn:E2; try discriminate; try congruence.
  destruct ran2; [|discriminate].
  exfalso. unfold runEffects, effects_of in E2.
  destruct (__computeEffects inst); [|discriminate].
  unfold bind, gets, modify in E2. simpl in E2. discriminate.
Qed.

End ComputeLoop.

(** C1, as amended.  The loop of [runComputedEffects] has no iteration
    bound and raises no error of its own.  It stops when a pass runs no
    computing effect, at the latest one pass after a pass that leaves
    nothing pending.  On a configuration where the computed properties of a
    set feed one another with methods that return objects, it never stops:
    whatever the fuel, it has not returned. *)
Theorem compute_loop_has_no_bound {P : Path.Ops} (inst : Registry) :
  (forall fuel input changed old computed s ran s1,
     runEffects inst COMPUTE input None s = Ret ran s1 ->
     __dataPending s1 = None ->
     compute_loop inst (S (S fuel)) input changed old computed s
     <> Diverge) /\
  (forall X : string -> Prop,
     (forall x, X x -> exists t, X t /\ feeds inst x t) ->
     forall fuel x v old s,
       X x -> __dataPending s = None -> stamps_below s ->
       runComputedEffects inst fuel (Some [(x, v)]) (Some old) s = Diverge).
Proof.
  split.
  - intros. eapply compute_loop_stops; eauto.
  - intros X HX fuel x v old s Hx Hp Hs. unfold runComputedEffects.
    destruct (HX x Hx) as (t & _ & [[em [fx [Hem _]]] _]). rewrite Hem.
    eapply compute_loop_feeds; eauto.
Qed.

(** The properties of the cyclic configuration feed one another. *)
Lemma cyclic_feeds (x : string) :
  x = "a" \/ x = "b" \/ x = "c" ->
  exists t, (t = "a" \/ t = "b" \/ t = "c") /\ feeds Fixture.cyclic x t.
Proof.
  assert (F : forall x i al t,
            __computeEffects Fixture.cyclic
            = Some [("b", [Some (Build_Effect runComputedEffect (Some 0) "b")]);
                    ("c", [Some (Build_Effect runComputedEffect (Some 0) "c")]);
                    ("a", [Some (Build_Effect runComputedEffect (Some 1) "a")])]
            ->
            lookup (Path.root x)
              [("b", [Some (Build_Effect runComputedEffect (Some 0) "b")]);
               ("c", [Some (Build_Effect runComputedEffect (Some 0) "c")]);
               ("a", [Some (Build_Effect runComputedEffect (Some 1) "a")])]
            = Some [Some (Build_Effect runComputedEffect (Some i) x)] ->
            Path.matches x x = true ->
            nth_error (infos Fixture.cyclic) i
            = Some (Build_Info "f" (Some al) (Some t) false) ->
            no_wildcard al = true ->
            _hasPropertyEffect Fixture.cyclic t ANY = true ->
            feeds Fixture.cyclic x t).
  { intros y i al t H1 H2 H3 H4 H5 H6. split; [|exact H6].
    eexists. exists (Build_Effect runComputedEffect (Some i) y).
    split; [exact H1|]. split; [exact H2|]. split; [exact H3|].
    split; [reflexivity|].
    exists i, (Build_Info "f" (Some al) (Some t) false), (fun _ => VNull), al.
    split; [reflexivity|]. split; [exact H4|].
    split; [vm_compute; reflexivity|]. split; [reflexivity|].
    split; [exact H5|]. split; [intros; reflexivity|reflexivity]. }
  intros [ -> | [ -> | -> ] ].
  - exists "b". split; auto.
    apply (F "a" 1 [Fixture.arg "a"] "b"); vm_compute; reflexivity.
  - exists "a". split; auto.
    apply (F "b" 0 [Fixture.arg "b"; Fixture.arg "c"] "a");
      vm_compute; reflexivity.
  - exists "a". split; auto.
    apply (F "c" 0 [Fixture.arg "b"; Fixture.arg "c"] "a");
      vm_compute; reflexivity.
Qed.

Lemma stamps_below_new h : stamps_below (new_state h).
Proof. intros i r H. discriminate. Qed.

Lemma compute_loop_has_no_bound_witness :
  compute_loop Fixture.names 2 (Some [("tourists", VNull)])
    (Some [("tourists", VNull)]) (Some []) None (Fixture.ready_state [])
  <> Diverge /\
  runComputedEffects Fixture.cyclic 100 (Some [("c", Fixture.num 1)])
    (Some [("c", VUndef)])
    (set_data [("c", Fixture.num 1)] (Fixture.ready_state [])) = Diverge.
Proof.
  destruct (@compute_loop_has_no_bound SpecPath.spec_ops Fixture.names)
    as [Hstop _].
  destruct (@compute_loop_has_no_bound SpecPath.spec_ops Fixture.cyclic)
    as [_ Hrun].
  split.
  - eapply (Hstop 0 (Some [("tourists", VNull)]) (Some [("tourists", VNull)])
              (Some []) None (Fixture.ready_state [])).
    + vm_compute. reflexivity.
    + reflexivity.
  - apply (Hrun (fun x => x = "a" \/ x = "b" \/ x = "c") cyclic_feeds).
    + auto.
    + reflexivity.
    + intros i r H. discriminate.
Defined.


(** A public [set] of a managed, writable root property in synchronous mode
    runs the compute stage on the pending change: when that stage has not
    returned, neither has [set]. *)
Lemma set_reaches_compute {P : Path.Ops} (inst : Registry) (fuel : nat)
  (p : string) (v : value) (s s1 : State) :
  _hasReadOnlyEffect inst p = false ->
  Path.root p = p ->
  _hasPropertyEffect inst p ANY = true ->
  String.eqb p "" = false ->
  _setPendingProperty p v s = Ret true s1 ->
  __dataInitialized s1 = true ->
  _asyncEffects s1 = false ->
  __dataPending s1 <> None ->
  runComputedEffects inst fuel (__dataPending s1) (__dataOld s1)
    (set_dataPending None (set_dataFromAbove false s1)) = Diverge ->
  set inst fuel p v VUndef s = Diverge.
Proof.
  intros Hro Hroot Heff Hne Hset Hinit Hasync Hpend Hdiv.
  unfold set. cbn [truthy]. rewrite Hro. cbn [negb].
  unfold _setPathOrUnmanagedProperty. rewrite Hroot, Heff, String.eqb_refl.
  cbn [negb orb]. rewrite bind_assoc, bind_ret, bind_ret.
  unfold truthy_path. rewrite Hne.
  unfold _setProperty. rewrite (bind_step _ _ _ Hset).
  unfold _invalidateProperties. rewrite bind_gets, Hinit, bind_gets, Hasync.
  unfold _flushProperties. rewrite bind_gets, Hinit, bind_ret, bind_gets,
    bind_gets.
  destruct (__dataPending s1) as [pending|] eqn:Ep; [|congruence].
  rewrite bind_modify. unfold super_flushProperties.
  rewrite bind_assoc, bind_gets. cbv beta.
  rewrite bind_assoc, bind_gets. cbv beta.
  rewrite bind_assoc, bind_modify. cbv beta.
  unfold _propertiesChanged. rewrite !bind_assoc.
  cbn [__dataPending __dataOld set_dataFromAbove].
  rewrite Ep. unfold bind at 1. now rewrite Hdiv.
Qed.

(** C1, the claim as stated, fails: on the cyclic configuration, after
    [c] is set, the compute stage of the flush has not returned whatever
    fuel it is given, neither with a result nor with an error; nor has the
    [set] that started the flush. *)
Lemma cyclic_compute_never_returns :
  ~ (exists fuel,
       runComputedEffects Fixture.cyclic fuel (Some [("c", Fixture.num 1)])
         (Some [("c", VUndef)])
         (set_dataOld (Some [("c", VUndef)])
            (set_data [("c", Fixture.num 1)] (Fixture.ready_state [])))
       <> Diverge) /\
  ~ (exists fuel,
       set Fixture.cyclic fuel "c" (Fixture.num 1) VUndef
         (Fixture.ready_state []) <> Diverge).
Proof.
  assert (R : forall fuel s,
            __dataPending s = None -> stamps_below s ->
            runComputedEffects Fixture.cyclic fuel
              (Some [("c", Fixture.num 1)]) (Some [("c", VUndef)]) s
            = Diverge).
  { intros fuel s Hp Hs. unfold runComputedEffects.
    destruct (cyclic_feeds (or_intror (or_intror eq_refl)))
      as (t & _ & [[em [fx [Hem _]]] _]).
    rewrite Hem.
    apply (compute_loop_feeds (fun x => x = "a" \/ x = "b" \/ x = "c")
             cyclic_feeds); auto. }
  split; intros (fuel & H); apply H.
  - apply R; [reflexivity|]. intros i r E. discriminate.
  - apply (@set_reaches_compute _ Fixture.cyclic fuel "c" (Fixture.num 1)
             (Fixture.ready_state [])
             (set_dataPending (Some [("c", Fixture.num 1)])
                (set_dataOld (Some [("c", VUndef)])
                   (set_data [("c", Fixture.num 1)]
                      (Fixture.ready_state []))))).
    + vm_compute. reflexivity.
    + vm_compute. reflexivity.
    + vm_compute. reflexivity.
    + reflexivity.
    + vm_compute. reflexivity.
    + reflexivity.
    + reflexivity.
    + discriminate.
    + apply R; [reflexivity|]. intros i r E. discriminate.
Qed.

(** ** Old values across compute passes *)

(** C3, at the failing input.  In the diamond configuration [a] is
    undefined when [c] is set.  The first compute pass sets [a] to
    ["partial"], the second to ["full"]; the old value the observer of [a]
    receives is ["partial"], which [a] held in the middle of the cycle, and
    not [undefined], which it held when the cycle started. *)
Theorem diamond_observer_gets_intermediate_old :
  read "a" (__data (Fixture.ready_state [])) = VUndef /\
  exists s',
    set Fixture.diamond 10 "c" (Fixture.num 1) VUndef
      (Fixture.ready_state []) = Ret tt s' /\
    calls_of "seen" (log s') = [[VStr "full"; VStr "partial"; VStr "a"]].
Proof.
  split; [reflexivity|].
  eexists. split; vm_compute; reflexivity.
Qed.

(** ** Recording a pending change *)

Section Pending.

Context {P : Path.Ops}.

Lemma super_setPendingProperty_changed p v s b s1 :
  _shouldPropChange p v (read p (__data s)) = true ->
  super_setPendingProperty p v s = Ret b s1 ->
  b = true /\
  (exists c, __dataPending s1 = Some c /\ lookup p c = Some v) /\
  lastRun s1 = lastRun s /\ effectUid s1 = effectUid s /\ log s1 = log s /\
  __dataInitialized s1 = __dataInitialized s /\
  _asyncEffects s1 = _asyncEffects s.
Proof.
  intros Hc H. unfold super_setPendingProperty in H.
  rewrite bind_gets, Hc, bind_gets in H.
  destruct (__dataPending s) as [pd|] eqn:Ep.
  - rewrite bind_ret, bind_gets in H.
    destruct (__dataOld s) as [o|]; [|discriminate].
    destruct (has_key p o).
    + rewrite bind_ret, bind_modify, bind_gets in H.
      cbn [__dataPending set_data] in H. rewrite Ep in H.
      rewrite bind_modify in H. inversion H; subst. simpl.
      repeat split; auto. eexists. split; eauto.
      apply lookup_assign_same.
    + rewrite bind_modify, bind_modify, bind_gets in H.
      cbn [__dataPending set_data set_dataOld] in H. rewrite Ep in H.
      rewrite bind_modify in H. inversion H; subst. simpl.
      repeat split; auto. eexists. split; eauto.
      apply lookup_assign_same.
  - rewrite bind_modify, bind_gets in H.
    cbn [__dataOld set_dataOld has_key lookup] in H.
    rewrite bind_modify, bind_modify, bind_gets in H.
    cbn [__dataPending set_data set_dataOld set_dataPending] in H.
    rewrite bind_modify in H. inversion H; subst. simpl.
    repeat split; auto. eexists. split; eauto.
    simpl. now rewrite String.eqb_refl.
Qed.

Lemma setPendingProperty_changed p v s b s1 :
  _shouldPropChange p v (read p (__data s)) = true ->
  _setPendingProperty p v s = Ret b s1 ->
  b = true /\
  (exists c, __dataPending s1 = Some c /\ lookup p c = Some v) /\
  lastRun s1 = lastRun s /\ effectUid s1 = effectUid s /\ log s1 = log s /\
  __dataInitialized s1 = __dataInitialized s /\
  _asyncEffects s1 = _asyncEffects s.
Proof.
  intros Hc H. unfold _setPendingProperty in H.
  destruct (String.eqb (typeof v) "object") eqn:T.
  - rewrite bind_modify in H.
    apply super_setPendingProperty_changed in H; [exact H|].
    unfold _shouldPropChange. rewrite T. apply orb_true_r.
  - rewrite bind_ret in H.
    apply super_setPendingProperty_changed in H; auto.
Qed.

(** A write that is a change is recorded: it does not throw on an instance
    whose [__dataOld] exists whenever [__dataPending] does. *)
Lemma setPendingProperty_records p v s :
  _shouldPropChange p v (read p (__data s)) = true ->
  pending_has_old s ->
  exists s1 c,
    _setPendingProperty p v s = Ret true s1 /\
    __dataPending s1 = Some c /\ lookup p c = Some v /\
    read p (__data s1) = v.
Proof.
  intros Hc Ho.
  assert (S : forall s0,
             _shouldPropChange p v (read p (__data s0)) = true ->
             pending_has_old s0 ->
             exists s1 c,
               super_setPendingProperty p v s0 = Ret true s1 /\
               __dataPending s1 = Some c /\ lookup p c = Some v /\
               read p (__data s1) = v).
  { clear. intros s Hc Ho. unfold super_setPendingProperty.
    rewrite bind_gets, Hc, bind_gets.
    destruct (__dataPending s) as [pd|] eqn:Ep.
    - rewrite bind_ret, bind_gets.
      destruct (__dataOld s) as [o|] eqn:Eo.
      2:{ exfalso. apply Ho; [congruence|exact Eo]. }
      destruct (has_key p o).
      + rewrite bind_ret, bind_modify, bind_gets.
        cbn [__dataPending set_data]. rewrite Ep.
        rewrite bind_modify. do 2 eexists. split; [reflexivity|].
        simpl. split; [reflexivity|].
        split; [apply lookup_assign_same|].
        unfold read. now rewrite lookup_assign_same.
      + rewrite bind_modify, bind_modify, bind_gets.
        cbn [__dataPending set_data set_dataOld]. rewrite Ep.
        rewrite bind_modify. do 2 eexists. split; [reflexivity|].
        simpl. split; [reflexivity|].
        split; [apply lookup_assign_same|].
        unfold read. now rewrite lookup_assign_same.
    - rewrite bind_modify, bind_gets.
      cbn [__dataOld set_dataOld has_key lookup].
      rewrite bind_modify, bind_modify, bind_gets.
      cbn [__dataPending set_data set_dataOld set_dataPending].
      rewrite bind_modify. do 2 eexists. split; [reflexivity|].
      cbn [__dataPending __data set_dataPending set_data set_dataOld].
      split; [reflexivity|].
      split; [apply lookup_assign_same|].
      unfold read. now rewrite lookup_assign_same. }
  unfold _setPendingProperty.
  destruct (String.eqb (typeof v) "object") eqn:T.
  - rewrite bind_modify. apply S.
    + unfold _shouldPropChange. rewrite T. apply orb_true_r.
    + exact Ho.
  - rewrite bind_ret. apply S; auto.
Qed.

(** A write that is no change leaves the instance as it was. *)
Lemma setPendingProperty_unchanged p v s :
  _shouldPropChange p v (read p (__data s)) = false ->
  _setPendingProperty p v s = Ret false s.
Proof.
  intros Hc. unfold _setPendingProperty.
  assert (T : String.eqb (typeof v) "object" = false).
  { unfold _shouldPropChange in Hc. now apply orb_false_elim in Hc. }
  rewrite T, bind_ret. unfold super_setPendingProperty.
  now rewrite bind_gets, Hc.
Qed.

End Pending.

Lemma setProperty_unchanged {P : Path.Ops} (inst : Registry) fuel p v s :
  _shouldPropChange p v (read p (__data s)) = false ->
  _setProperty inst fuel p v s = Ret tt s.
Proof.
  intros Hc. unfold _setProperty.
  now rewrite (bind_step _ _ _ (setPendingProperty_unchanged _ _ _ Hc)).
Qed.

(** ** Observers of a changed property *)

Lemma calls_of_app m l1 l2 :
  calls_of m (l1 ++ l2) = calls_of m l1 ++ calls_of m l2.
Proof. unfold calls_of. apply flat_map_app. Qed.

Lemma calls_of_cons_same m a l : calls_of m (Call m a :: l) <> [].
Proof. simpl. rewrite String.eqb_refl. discriminate. Qed.

Lemma calls_of_app_l m l1 l2 :
  calls_of m l2 <> [] -> calls_of m (l1 ++ l2) <> [].
Proof.
  rewrite calls_of_app. intros H E. apply app_eq_nil in E. tauto.
Qed.

Lemma calls_of_app_r m l1 l2 :
  calls_of m l1 <> [] -> calls_of m (l1 ++ l2) <> [].
Proof.
  rewrite calls_of_app. intros H E. apply app_eq_nil in E. tauto.
Qed.

Lemma fires_id_refl id j m s : fires_id id j m s s.
Proof. exists []. split; auto. intros H0 H1. congruence. Qed.

Lemma fires_id_trans id j m s1 s2 s3 :
  fires_id id j m s1 s2 -> fires_id id j m s2 s3 -> fires_id id j m s1 s3.
Proof.
  intros (l1 & a1 & b1) (l2 & a2 & b2). exists (l2 ++ l1). split.
  - now rewrite a2, a1, app_assoc.
  - intros H0 H1. pose proof (stamp_ind_le id j s2) as L.
    destruct (stamp_ind id j s2) as [|[|n]] eqn:E; [| |lia].
    + apply calls_of_app_r. auto.
    + apply calls_of_app_l. auto.
Qed.

Lemma once_id_mono id i s s' :
  once_id id s s' -> stamp_ind id i s = 1 -> stamp_ind id i s' = 1.
Proof.
  intros (l & _ & H) E. specialize (H i).
  pose proof (stamp_ind_le id i s'). lia.
Qed.

Lemma has_key_mixin_obj_src {A : Type} (k : string) (src t : jsobj A) :
  has_key k src = true -> has_key k (mixin_obj t src) = true.
Proof.
  unfold mixin_obj. revert t.
  induction src as [|[k' v'] src IH]; simpl; intros t H; [discriminate|].
  unfold has_key in H. simpl in H.
  destruct (String.eqb k k') eqn:E.
  - apply String.eqb_eq in E. subst k'.
    apply (has_key_mixin_obj k src). apply has_key_assign_same.
  - apply IH. exact H.
Qed.

Lemma mixin_keeps k c src s r s' :
  has_key k c = true -> mixin (Some c) src s = Ret r s' ->
  exists c', r = Some c' /\ has_key k c' = true.
Proof.
  intros Hk. unfold mixin. destruct src as [[|kv src]|]; intros H;
    inversion H; subst; eexists; split; eauto.
  apply has_key_mixin_obj. now apply has_key_assign.
Qed.

Lemma mixin_takes k t c s r s' :
  has_key k c = true -> mixin (Some t) (Some c) s = Ret r s' ->
  exists c', r = Some c' /\ has_key k c' = true.
Proof.
  intros Hk H. destruct c as [|kv c]; [discriminate|].
  assert (E : r = Some (mixin_obj t (kv :: c))).
  { unfold mixin, ret in H. congruence. }
  subst r. eexists. split; eauto.
  now apply has_key_mixin_obj_src.
Qed.

Section Fires.

Context {P : Path.Ops}.
Variable inst : Registry.
Variable j : nat.
Variable info : Info.
Variable f : list value -> value.
Hypothesis Hinfo : nth_error (infos inst) j = Some info.
Hypothesis Hf : lookup (methodName info) (methods inst) = Some f.

Lemma runMethodEffect_calls p v old s r s' :
  runMethodEffect inst p v old info s = Ret r s' ->
  lastRun s' = lastRun s /\
  exists l, log s' = l ++ log s /\ calls_of (methodName info) l <> [].
Proof.
  unfold runMethodEffect. rewrite Hf.
  destruct (args info) as [al|]; [|discriminate].
  intros H. apply bind_Ret in H. destruct H as (actual & s1 & H1 & H).
  unfold bind, emit, modify, ret in H. inversion H; subst. clear H.
  eapply post_Ret in H1; [|apply marshalArgs_effect_frame].
  destruct H1 as (F1 & _ & (l & F3 & _) & _). simpl. split; auto.
  exists (Call (methodName info) actual :: l). rewrite F3. split; auto.
  apply calls_of_cons_same.
Qed.

Lemma apply_fn_calls fn p v old s s' :
  apply_fn inst fn p v old (Some j) s = Ret tt s' ->
  lastRun s' = lastRun s /\
  exists l, log s' = l ++ log s /\ calls_of (methodName info) l <> [].
Proof.
  unfold apply_fn. rewrite Hinfo. destruct fn.
  - rewrite Hf. intros H. inversion H; subst. simpl. split; auto.
    exists [Call (methodName info) [v; old; VStr p]]. split; auto.
    apply calls_of_cons_same.
  - intros H. apply bind_Ret in H. destruct H as (r & s1 & H1 & H).
    inversion H; subst. eapply runMethodEffect_calls; eauto.
  - intros H. apply bind_Ret in H. destruct H as (r & s1 & H1 & H).
    apply runMethodEffect_calls in H1. destruct H1 as (L1 & l1 & E1 & C1).
    eapply post_Ret in H; [|apply setPropertyFromComputation_effect_frame].
    destruct H as (F1 & _ & (l & F3 & _) & _). split; [congruence|].
    exists (l ++ l1). rewrite F3, E1, app_assoc. split; auto.
    now apply calls_of_app_l.
Qed.

Lemma run_fxs_fires id prop old fxs ran s r s' :
  run_fxs inst id prop old fxs ran s = Ret r s' ->
  fires_id id j (methodName info) s s'.
Proof.
  revert ran s. induction fxs as [|[fx|] fxs IH]; simpl; intros ran s H.
  - inversion H; subst. apply fires_id_refl.
  - rewrite bind_gets in H.
    destruct (Path.matches (fx_path fx) prop && negb (stamped id fx s)) eqn:E.
    + rewrite bind_gets, bind_emit in H.
      apply bind_Ret in H. destruct H as ([] & s2 & Ha & H).
      apply bind_Ret in H. destruct H as ([] & s3 & Hs & H).
      apply IH in H. eapply fires_id_trans; [|exact H].
      unfold stamp in Hs.
      destruct (fx_info fx) as [i|] eqn:Ei; [|discriminate].
      inversion Hs; subst s3. clear Hs.
      destruct (Nat.eq_dec i j) as [->|Hne].
      * apply apply_fn_calls in Ha. destruct Ha as (L & l & Hl & Hc).
        exists (l ++ [Dispatch id fx prop (read prop (__data s)) old]).
        split.
        { simpl. rewrite Hl. simpl. now rewrite <- app_assoc. }
        intros _ _. now apply calls_of_app_r.
      * eapply post_Ret in Ha; [|apply apply_fn_effect_frame].
        destruct Ha as (F1 & _ & (l & F3 & _) & _).
        exists (l ++ [Dispatch id fx prop (read prop (__data s)) old]).
        split.
        { simpl. rewrite F3. simpl. now rewrite <- app_assoc. }
        intros H0 H1. exfalso. unfold stamp_ind in H0, H1. simpl in H1.
        apply Nat.eqb_neq in Hne. rewrite Nat.eqb_sym in Hne.
        rewrite Hne, F1 in H1. simpl in H1. congruence.
    + eapply IH; eauto.
  - inversion H; subst. apply fires_id_refl.
Qed.

Lemma run_fxs_mono id prop old fxs ran s r s' i :
  run_fxs inst id prop old fxs ran s = Ret r s' ->
  stamp_ind id i s = 1 -> stamp_ind id i s' = 1.
Proof.
  intros H. pose proof (run_fxs_once inst id prop old fxs ran s) as O.
  rewrite H in O. now apply once_id_mono.
Qed.

Lemma run_fxs_stamps id prop old fxs fx ran s r s' :
  ~ In None fxs -> In (Some fx) fxs ->
  Path.matches (fx_path fx) prop = true -> fx_info fx = Some j ->
  run_fxs inst id prop old fxs ran s = Ret r s' ->
  stamp_ind id j s' = 1.
Proof.
  intros Hn Hin Hm Hj. revert ran s.
  induction fxs as [|[fx0|] fxs IH]; simpl; intros ran s H.
  - destruct Hin.
  - rewrite bind_gets in H.
    assert (Hn' : ~ In None fxs) by (intros X; apply Hn; now right).
    destruct Hin as [E|Hin].
    + inversion E; subst fx0. clear E. rewrite Hm in H.
      destruct (stamped id fx s) eqn:St; cbn [andb negb] in H.
      * eapply run_fxs_mono; eauto.
        unfold stamped in St. rewrite Hj in St. unfold stamp_ind.
        destruct (lastRun s j); [|discriminate]. now rewrite St.
      * rewrite bind_gets, bind_emit in H.
        apply bind_Ret in H. destruct H as ([] & s2 & Ha & H).
        apply bind_Ret in H. destruct H as ([] & s3 & Hs & H).
        eapply run_fxs_mono; eauto.
        unfold stamp in Hs. rewrite Hj in Hs. inversion Hs; subst s3.
        unfold stamp_ind. simpl. now rewrite !Nat.eqb_refl.
    + destruct (Path.matches (fx_path fx0) prop && negb (stamped id fx0 s)).
      * rewrite bind_gets, bind_emit in H.
        apply bind_Ret in H. destruct H as ([] & s2 & Ha & H).
        apply bind_Ret in H. destruct H as ([] & s3 & Hs & H).
        eapply IH; eauto.
      * eapply IH; eauto.
  - exfalso. apply Hn. now left.
Qed.

Lemma run_props_fires effects id oldProps props ran s r s' :
  run_props inst effects id oldProps props ran s = Ret r s' ->
  fires_id id j (methodName info) s s'.
Proof.
  revert ran s. induction props as [|prop props IH]; simpl; intros ran s H.
  - inversion H; subst. apply fires_id_refl.
  - apply bind_Ret in H. destruct H as (r1 & s1 & H1 & H).
    apply IH in H. eapply fires_id_trans; [|exact H].
    unfold runEffectsForProperty in H1.
    destruct (lookup (Path.root prop) effects).
    + eapply run_fxs_fires; eauto.
    + inversion H1; subst. apply fires_id_refl.
Qed.

Lemma run_props_mono effects id oldProps props ran s r s' i :
  run_props inst effects id oldProps props ran s = Ret r s' ->
  stamp_ind id i s = 1 -> stamp_ind id i s' = 1.
Proof.
  intros H.
  pose proof (run_props_once inst effects id oldProps props ran s) as O.
  rewrite H in O. now apply once_id_mono.
Qed.

Lemma run_props_stamps effects id oldProps props prop fxs fx ran s r s' :
  In prop props -> lookup (Path.root prop) effects = Some fxs ->
  ~ In None fxs -> In (Some fx) fxs ->
  Path.matches (fx_path fx) prop = true -> fx_info fx = Some j ->
  run_props inst effects id oldProps props ran s = Ret r s' ->
  stamp_ind id j s' = 1.
Proof.
  intros Hin Hl Hn Hfx Hm Hj. revert ran s.
  induction props as [|q props IH]; simpl; intros ran s H.
  - destruct Hin.
  - apply bind_Ret in H. destruct H as (r1 & s1 & H1 & H).
    destruct Hin as [->|Hin].
    + eapply run_props_mono; eauto.
      unfold runEffectsForProperty in H1. rewrite Hl in H1.
      eapply run_fxs_stamps; eauto.
    + eapply IH; eauto.
Qed.

End Fires.

Section Observed.

Context {P : Path.Ops}.
Variable inst : Registry.

(** An OBSERVE pass over changed properties that include an observed one
    calls its observer. *)
Lemma runEffects_fires p m c oldProps s r s' :
  observes inst p m -> has_key p c = true -> stamps_below s ->
  runEffects inst OBSERVE (Some c) oldProps s = Ret r s' ->
  exists l, log s' = l ++ log s /\ calls_of m l <> [].
Proof.
  intros (em & fxs & fx & j & info & f & Hem & Hl & Hn & Hin & Hm & Hj & Hi
          & <- & Hf) Hk Hs H.
  unfold runEffects, effects_of in H. rewrite Hem in H.
  rewrite bind_gets, bind_modify in H.
  pose proof (@run_props_fires _ inst j info f Hi Hf _ _ _ _ _ _ _ _ H)
    as (l & El & Hc).
  exists l. split; [exact El|]. apply Hc.
  - unfold stamp_ind. simpl. destruct (lastRun s j) as [x|] eqn:E; auto.
    apply Hs in E. assert (N : Nat.eqb x (effectUid s) = false).
    { apply Nat.eqb_neq. lia. }
    now rewrite N.
  - eapply run_props_stamps; eauto. now apply has_key_In.
Qed.

Lemma compute_loop_keeps fuel input c old computed k s r s' :
  has_key k c = true ->
  compute_loop inst fuel input (Some c) old computed s = Ret r s' ->
  exists c', fst (fst r) = Some c' /\ has_key k c' = true.
Proof.
  revert input c old computed s.
  induction fuel as [|fuel IH]; simpl; intros input c old computed s Hk H.
  - discriminate.
  - apply bind_Ret in H. destruct H as (ran & s1 & H1 & H2).
    destruct ran.
    + rewrite bind_gets in H2.
      apply bind_Ret in H2. destruct H2 as (o' & s2 & M1 & H2).
      rewrite bind_gets in H2.
      apply bind_Ret in H2. destruct H2 as (c' & s3 & M2 & H2).
      apply bind_Ret in H2. destruct H2 as (k' & s4 & M3 & H2).
      rewrite bind_modify in H2.
      eapply mixin_keeps in M2; [|exact Hk].
      destruct M2 as (c1 & -> & Hk1).
      eapply IH; eauto.
    + inversion H2; subst. simpl. eauto.
Qed.

Lemma link_paths_keeps a b paths c computed k s r s' :
  has_key k c = true ->
  link_paths a b paths c computed s = Ret r s' ->
  has_key k (fst r) = true.
Proof.
  revert c computed s.
  induction paths as [|path paths IH]; simpl; intros c computed s Hk H.
  - inversion H; subst. exact Hk.
  - apply bind_Ret in H. destruct H as (r1 & s1 & H1 & H).
    destruct r1 as [c1 k1]. simpl in H. eapply IH; [|exact H].
    unfold mirror in H1.
    destruct (Path.isDescendant a path);
      [|destruct (Path.isDescendant b path)];
      unfold bind, modify, ret in H1; inversion H1; subst; auto;
      now apply has_key_assign.
Qed.

Lemma link_all_keeps links c computed k s r s' :
  has_key k c = true ->
  link_all links (Some c) computed s = Ret r s' ->
  exists c', fst r = Some c' /\ has_key k c' = true.
Proof.
  revert c computed s.
  induction links as [|[a b] links IH]; simpl; intros c computed s Hk H.
  - inversion H; subst. simpl. eauto.
  - apply bind_Ret in H. destruct H as (r1 & s1 & H1 & H).
    eapply IH; [|exact H]. eapply link_paths_keeps; eauto.
Qed.

Lemma computeLinkedPaths_keeps c computed k s r s' :
  has_key k c = true ->
  computeLinkedPaths (Some c) computed s = Ret r s' ->
  exists c', fst r = Some c' /\ has_key k c' = true.
Proof.
  intros Hk H. unfold computeLinkedPaths in H. rewrite bind_gets in H.
  destruct (__dataLinkedPaths s) as [l|].
  - apply bind_Ret in H. destruct H as (r1 & s1 & H1 & H).
    inversion H; subst. simpl. eapply link_all_keeps; eauto.
  - inversion H; subst. simpl. eauto.
Qed.

Lemma notifyProperties_keeps c computed old k s r s' :
  has_key k c = true ->
  notifyProperties (Some c) computed old s = Ret r s' ->
  exists c' o', r = Some (Some c', o') /\ has_key k c' = true.
Proof.
  intros Hk H. unfold notifyProperties in H.
  rewrite bind_gets, bind_modify, bind_gets in H.
  apply bind_Ret in H. destruct H as (i1 & s1 & H1 & H).
  assert (E1 : _runId s1 = S (_runId s) /\
               exists c', i1 = Some c' /\ has_key k c' = true).
  { cbn [__dataInterim set_runId] in H1.
    destruct (__dataInterim s).
    - pose proof H1 as S1. apply mixin_state in S1. subst s1. split; auto.
      eapply mixin_takes; eauto.
    - inversion H1; subst. split; eauto. }
  destruct E1 as (E1 & c' & -> & Hk').
  rewrite bind_modify, bind_gets in H.
  apply bind_Ret in H. destruct H as (i2 & s2 & H2 & H).
  assert (E2 : s2 = set_dataInterim (Some c') s1).
  { cbn [__dataInterimOld set_dataInterim] in H2.
    destruct (__dataInterimOld s1).
    - now apply mixin_state in H2.
    - now inversion H2. }
  subst s2. rewrite bind_modify, bind_gets in H.
  cbn [_runId set_dataInterimOld set_dataInterim] in H.
  rewrite E1, Nat.eqb_refl in H.
  rewrite bind_gets, bind_gets, bind_modify, bind_modify in H.
  inversion H; subst. simpl. eauto.
Qed.

Lemma stamps_below_frame s s' :
  lastRun s' = lastRun s -> effectUid s' = effectUid s ->
  stamps_below s -> stamps_below s'.
Proof. intros L U H i r E. rewrite L in E. rewrite U. eauto. Qed.

Lemma grows_log s s' : grows s s' -> exists l, log s' = l ++ log s.
Proof. intros (H & _). exact H. Qed.

Lemma propertiesChanged_fires fuel p m c old s s' :
  observes inst p m -> has_key p c = true -> stamps_below s ->
  _propertiesChanged inst fuel (Some c) old s = Ret tt s' ->
  exists l, log s' = l ++ log s /\ calls_of m l <> [].
Proof.
  intros Hobs Hk Hs H. unfold _propertiesChanged in H.
  apply bind_Ret in H. destruct H as (r & s1 & H1 & H).
  assert (K1 : exists c', fst (fst r) = Some c' /\ has_key p c' = true).
  { unfold runComputedEffects in H1. destruct (__computeEffects inst).
    - eapply compute_loop_keeps; eauto.
    - inversion H1; subst. simpl. eauto. }
  eapply post_Ret in H1; [|apply runComputedEffects_grows].
  destruct r as [[ch ol] co]. simpl in K1. destruct K1 as (c1 & -> & Hk1).
  apply bind_Ret in H. destruct H as (l & s2 & H2 & H).
  pose proof H2 as K2.
  eapply computeLinkedPaths_keeps in K2; [|exact Hk1].
  destruct K2 as (c2 & E2 & Hk2).
  eapply post_Ret in H2; [|apply computeLinkedPaths_grows].
  destruct l as [ch' co']. simpl in E2. subst ch'.
  apply bind_Ret in H. destruct H as (props & s3 & H3 & H).
  pose proof H3 as K3.
  eapply notifyProperties_keeps in K3; [|exact Hk2].
  destruct K3 as (c3 & o3 & -> & Hk3).
  eapply post_Ret in H3; [|apply notifyProperties_grows].
  apply bind_Ret in H. destruct H as ([] & s4 & H4 & H).
  eapply post_Ret in H4; [|apply flushClients_grows].
  apply bind_Ret in H. destruct H as (x & s5 & H5 & H).
  inversion H; subst s5. clear H.
  assert (G : grows s s4) by eauto using grows_trans.
  apply runEffects_fires with (p := p) (m := m) in H5; auto.
  - destruct H5 as (l5 & E5 & C5). destruct (grows_log G) as (l4 & E4).
    exists (l5 ++ l4). rewrite E5, E4, app_assoc. split; auto.
    now apply calls_of_app_r.
  - eapply grows_stamps_below; eauto.
Qed.

Lemma flushProperties_fires fuel fromAbove p m c s s' :
  observes inst p m -> __dataPending s = Some c -> has_key p c = true ->
  stamps_below s ->
  _flushProperties inst fuel fromAbove s = Ret tt s' ->
  exists l, log s' = l ++ log s /\ calls_of m l <> [].
Proof.
  intros Hobs Hp Hk Hs H. unfold _flushProperties in H.
  rewrite bind_gets in H.
  apply bind_Ret in H. destruct H as ([] & s0 & H0 & H).
  assert (I0 : __dataPending s0 = Some c /\ log s0 = log s /\
               lastRun s0 = lastRun s /\ effectUid s0 = effectUid s).
  { destruct (__dataInitialized s); inversion H0; subst; auto. }
  destruct I0 as (p0 & l0 & r0 & u0).
  rewrite bind_gets, bind_gets, p0 in H.
  rewrite bind_modify in H.
  apply bind_Ret in H. destruct H as ([] & s2 & H2 & H).
  inversion H; subst s'. clear H. simpl.
  unfold super_flushProperties in H2.
  rewrite bind_gets, bind_gets, bind_modify in H2.
  cbn [__dataPending set_dataFromAbove] in H2. rewrite p0 in H2.
  apply propertiesChanged_fires with (p := p) (m := m) in H2; auto.
  - simpl in H2. now rewrite l0 in H2.
  - eapply stamps_below_frame; [| |exact Hs]; simpl; auto.
Qed.

(** A write that is a change, on a ready instance that runs its effects
    synchronously, has called the observer of the property when it
    returns. *)
Lemma setProperty_fires fuel p m v s s' :
  observes inst p m ->
  __dataInitialized s = true -> _asyncEffects s = false -> stamps_below s ->
  _shouldPropChange p v (read p (__data s)) = true ->
  _setProperty inst fuel p v s = Ret tt s' ->
  exists l, log s' = l ++ log s /\ calls_of m l <> [].
Proof.
  intros Hobs Hi Ha Hs Hc H. unfold _setProperty in H.
  apply bind_Ret in H. destruct H as (b & s1 & H1 & H).
  eapply setPendingProperty_changed in H1; [|exact Hc].
  destruct H1 as (-> & (c & Ep & El) & L1 & U1 & G1 & I1 & A1).
  unfold _invalidateProperties in H.
  rewrite bind_gets, I1, Hi, bind_gets, A1, Ha in H.
  apply flushProperties_fires with (p := p) (m := m) (c := c) in H; auto.
  - now rewrite G1 in H.
  - unfold has_key. now rewrite El.
  - eapply stamps_below_frame; eauto.
Qed.

End Observed.

(** ** A write that returns *)

Lemma mixin_Some t src s : exists r, mixin (Some t) src s = Ret r s.
Proof.
  unfold mixin. destruct src as [[|kv src]|]; eexists; reflexivity.
Qed.

Section Returns.

Context {P : Path.Ops}.
Variable inst : Registry.

Lemma setPendingProperty_fresh p v s :
  _shouldPropChange p v (read p (__data s)) = true ->
  __dataPending s = None ->
  exists s1,
    _setPendingProperty p v s = Ret true s1 /\
    __dataPending s1 = Some [(p, v)] /\
    __dataInitialized s1 = __dataInitialized s /\
    _asyncEffects s1 = _asyncEffects s.
Proof.
  intros Hc Hp.
  assert (S : forall s0,
             _shouldPropChange p v (read p (__data s0)) = true ->
             __dataPending s0 = None ->
             exists s1,
               super_setPendingProperty p v s0 = Ret true s1 /\
               __dataPending s1 = Some [(p, v)] /\
               __dataInitialized s1 = __dataInitialized s0 /\
               _asyncEffects s1 = _asyncEffects s0).
  { clear. intros s Hc Hp. unfold super_setPendingProperty.
    rewrite bind_gets, Hc, bind_gets, Hp.
    rewrite bind_modify, bind_gets.
    cbn [__dataOld set_dataOld has_key lookup].
    rewrite bind_modify, bind_modify, bind_gets.
    cbn [__dataPending set_data set_dataOld set_dataPending].
    rewrite bind_modify. eexists. split; [reflexivity|].
    repeat split. }
  unfold _setPendingProperty.
  destruct (String.eqb (typeof v) "object") eqn:T.
  - rewrite bind_modify.
    destruct (S (set_data (clear_cached p (__data s)) s))
      as (s1 & E & A & B & C); auto.
    unfold _shouldPropChange. rewrite T. apply orb_true_r.
    exists s1. auto.
  - rewrite bind_ret. apply S; auto.
Qed.

Lemma observer_returns fx i prop v old s :
  observer_ready inst (Some fx) = true -> fx_info fx = Some i ->
  exists s2,
    apply_fn inst (fx_fn fx) prop v old (fx_info fx) s = Ret tt s2.
Proof.
  unfold observer_ready, apply_fn. intros H Hi. rewrite Hi in *.
  destruct (fx_fn fx); try discriminate.
  destruct (nth_error (infos inst) i) as [info|]; [|discriminate].
  destruct (lookup (methodName info) (methods inst));
    eexists; reflexivity.
Qed.

Lemma run_fxs_returns id prop old fxs ran s :
  forallb (observer_ready inst) fxs = true ->
  exists r s', run_fxs inst id prop old fxs ran s = Ret r s'.
Proof.
  revert ran s. induction fxs as [|[fx|] fxs IH]; simpl; intros ran s H.
  - do 2 eexists. reflexivity.
  - apply andb_prop in H. destruct H as [Hfx Hfxs].
    rewrite bind_gets.
    destruct (Path.matches (fx_path fx) prop && negb (stamped id fx s));
      [|now apply IH].
    rewrite bind_gets, bind_emit.
    assert (Hi : exists i, fx_info fx = Some i).
    { unfold observer_ready in Hfx.
      destruct (fx_fn fx), (fx_info fx); try discriminate. eauto. }
    destruct Hi as (i & Hi).
    match goal with
    | |- context [bind (apply_fn inst _ _ ?v0 _ _) _ ?s0] =>
        destruct (@observer_returns fx i prop v0 old s0 Hfx Hi)
          as (s2 & E)
    end.
    rewrite (bind_step _ _ _ E).
    unfold stamp. rewrite Hi, bind_modify. now apply IH.
  - discriminate.
Qed.

Lemma run_props_returns em id oldProps props ran s :
  forallb (fun kv => forallb (observer_ready inst) (snd kv)) em = true ->
  exists r s', run_props inst em id oldProps props ran s = Ret r s'.
Proof.
  intros H. revert ran s.
  induction props as [|prop props IH]; simpl; intros ran s.
  - do 2 eexists. reflexivity.
  - unfold runEffectsForProperty.
    destruct (lookup (Path.root prop) em) as [fxs|] eqn:El.
    + destruct (@run_fxs_returns id prop (old_of oldProps prop) fxs false s)
        as (r1 & s1 & E).
      { eapply lookup_forallb with (f := forallb (observer_ready inst));
          eauto. }
      rewrite (bind_step _ _ _ E). apply IH.
    + rewrite bind_ret. apply IH.
Qed.

Lemma runEffects_observe_returns props oldProps s :
  observers_ready inst = true ->
  exists r s', runEffects inst OBSERVE props oldProps s = Ret r s'.
Proof.
  unfold observers_ready, runEffects, effects_of.
  destruct (__observeEffects inst) as [em|]; intros H.
  - rewrite bind_gets, bind_modify. now apply run_props_returns.
  - do 2 eexists. reflexivity.
Qed.

Lemma link_paths_returns a b paths changed computed s :
  exists r s', link_paths a b paths changed computed s = Ret r s'.
Proof.
  revert changed computed s.
  induction paths as [|path paths IH]; simpl; intros changed computed s.
  - do 2 eexists. reflexivity.
  - unfold mirror.
    destruct (Path.isDescendant a path);
      [|destruct (Path.isDescendant b path)];
      rewrite ?bind_assoc, ?bind_modify, ?bind_ret; apply IH.
Qed.

Lemma link_all_returns links changed computed s :
  exists r s', link_all links changed computed s = Ret r s'.
Proof.
  revert changed computed s.
  induction links as [|[a b] links IH]; simpl; intros changed computed s.
  - do 2 eexists. reflexivity.
  - destruct changed as [c|]; [|apply IH].
    destruct (link_paths_returns a b (keys c) c computed s) as (r & s1 & E).
    rewrite (bind_step _ _ _ E). apply IH.
Qed.

Lemma computeLinkedPaths_returns changed computed s :
  exists r s', computeLinkedPaths changed computed s = Ret r s'.
Proof.
  unfold computeLinkedPaths. rewrite bind_gets.
  destruct (__dataLinkedPaths s) as [l|].
  - match goal with
    | |- context [link_all l changed ?c0] =>
        destruct (link_all_returns l changed c0 s) as (r & s1 & E)
    end.
    rewrite (bind_step _ _ _ E). do 2 eexists. reflexivity.
  - do 2 eexists. reflexivity.
Qed.

Lemma notifyProperties_returns changed computed old s :
  exists r s', notifyProperties changed computed old s = Ret r s'.
Proof.
  unfold notifyProperties.
  rewrite bind_gets, bind_modify, bind_gets.
  cbn [__dataInterim set_runId].
  assert (E1 : exists i1,
             (match __dataInterim s with
              | Some i => mixin (Some i) changed
              | None => ret changed
              end) (set_runId (S (_runId s)) s)
             = Ret i1 (set_runId (S (_runId s)) s)).
  { destruct (__dataInterim s); [apply mixin_Some|eexists; reflexivity]. }
  destruct E1 as (i1 & E1). rewrite (bind_step _ _ _ E1).
  rewrite bind_modify, bind_gets.
  cbn [__dataInterimOld set_runId set_dataInterim].
  match goal with
  | |- context [bind _ _ ?s0] =>
      assert (E2 : exists i2,
                 (match __dataInterimOld s with
                  | Some i => mixin (Some i) old
                  | None => ret old
                  end) s0 = Ret i2 s0)
  end.
  { destruct (__dataInterimOld s); [apply mixin_Some|eexists; reflexivity]. }
  destruct E2 as (i2 & E2). rewrite (bind_step _ _ _ E2).
  rewrite bind_modify, bind_gets.
  cbn [_runId set_dataInterimOld set_dataInterim set_runId].
  rewrite Nat.eqb_refl.
  rewrite bind_gets, bind_gets, bind_modify, bind_modify.
  do 2 eexists. reflexivity.
Qed.

Lemma flushClients_returns s : exists s', _flushClients s = Ret tt s'.
Proof.
  unfold _flushClients. rewrite bind_gets.
  destruct (__dataPendingClients s); eexists; reflexivity.
Qed.

(** A property no computed property depends on goes through the compute
    loop in one pass. *)
Lemma runComputedEffects_feeds_nothing fuel p v old s :
  feeds_nothing inst p = true ->
  exists s',
    runComputedEffects inst (S fuel) (Some [(p, v)]) old s
    = Ret (Some [(p, v)], old, None) s'.
Proof.
  unfold feeds_nothing, runComputedEffects. intros H.
  destruct (__computeEffects inst) as [em|] eqn:Eem.
  - simpl compute_loop. unfold runEffects, effects_of. rewrite Eem.
    rewrite !bind_assoc, bind_gets, !bind_assoc, bind_modify.
    simpl keys. simpl run_props. unfold runEffectsForProperty.
    apply negb_true_iff in H. unfold has_key in H.
    destruct (lookup (Path.root p) em); [discriminate|].
    rewrite !bind_assoc, bind_ret, bind_ret. simpl orb. cbv iota.
    eexists. reflexivity.
  - eexists. reflexivity.
Qed.

Lemma propertiesChanged_returns fuel p v old s :
  feeds_nothing inst p = true -> observers_ready inst = true ->
  exists s', _propertiesChanged inst (S fuel) (Some [(p, v)]) old s
             = Ret tt s'.
Proof.
  intros Hf Ho. unfold _propertiesChanged.
  destruct (@runComputedEffects_feeds_nothing fuel p v old s Hf) as (s1 & E1).
  rewrite (bind_step _ _ _ E1).
  destruct (computeLinkedPaths_returns (Some [(p, v)]) None s1)
    as ([ch co] & s2 & E2).
  rewrite (bind_step _ _ _ E2).
  destruct (notifyProperties_returns ch co old s2) as (props & s3 & E3).
  rewrite (bind_step _ _ _ E3).
  destruct props as [[c o]|]; [|eexists; reflexivity].
  destruct (flushClients_returns s3) as (s4 & E4).
  rewrite (bind_step _ _ _ E4).
  destruct (@runEffects_observe_returns c (Some o) s4 Ho) as (r & s5 & E5).
  rewrite (bind_step _ _ _ E5). eexists. reflexivity.
Qed.

Lemma flushProperties_returns fuel fromAbove p v s :
  feeds_nothing inst p = true -> observers_ready inst = true ->
  __dataPending s = Some [(p, v)] ->
  exists s', _flushProperties inst (S fuel) fromAbove s = Ret tt s'.
Proof.
  intros Hf Ho Hp. unfold _flushProperties. rewrite bind_gets.
  assert (E0 : exists s0,
             (if __dataInitialized s then ret tt else ready) s = Ret tt s0 /\
             __dataPending s0 = Some [(p, v)]).
  { destruct (__dataInitialized s); eexists; split; try reflexivity; auto. }
  destruct E0 as (s0 & E0 & p0). rewrite (bind_step _ _ _ E0).
  rewrite bind_gets, bind_gets, p0, bind_modify.
  unfold super_flushProperties.
  rewrite !bind_assoc, bind_gets, !bind_assoc, bind_gets.
  rewrite !bind_assoc, bind_modify.
  cbn [__dataPending set_dataFromAbove]. rewrite p0.
  match goal with
  | |- context [bind (_propertiesChanged inst (S fuel) _ ?o0) _ ?s1] =>
      destruct (@propertiesChanged_returns fuel p v o0 s1 Hf Ho) as (s2 & E2)
  end.
  rewrite (bind_step _ _ _ E2). eexists. reflexivity.
Qed.

(** A write to a property no computed property depends on, on a ready
    instance with nothing pending, returns. *)
Lemma setProperty_returns fuel p v s :
  feeds_nothing inst p = true -> observers_ready inst = true ->
  __dataInitialized s = true -> __dataPending s = None ->
  exists s', _setProperty inst (S fuel) p v s = Ret tt s'.
Proof.
  intros Hf Ho Hi Hp.
  destruct (_shouldPropChange p v (read p (__data s))) eqn:Hc.
  - unfold _setProperty.
    destruct (setPendingProperty_fresh p v s Hc Hp)
      as (s1 & E1 & P1 & I1 & A1).
    rewrite (bind_step _ _ _ E1). unfold _invalidateProperties.
    rewrite bind_gets, I1, Hi, bind_gets.
    destruct (_asyncEffects s1).
    + unfold super_invalidateProperties. rewrite bind_gets.
      destruct (__dataInvalid s1); eexists; reflexivity.
    + eapply flushProperties_returns; eauto.
  - exists s. now apply setProperty_unchanged.
Qed.

End Returns.

(** ** The change predicate and the observers *)

Lemma shouldPropChange_iff (p : string) (v old : value) :
  _shouldPropChange p v old = true <->
  typeof v = "object" \/
  (strict_eq v old = false /\
   ~ (value_is_nan v = true /\ value_is_nan old = true)).
Proof.
  rewrite shouldPropChange_eq. split.
  - intros H. apply orb_prop in H. destruct H as [H|H].
    + left. now apply String.eqb_eq.
    + right. apply andb_prop in H. destruct H as [H1 H2].
      apply negb_true_iff in H1. apply negb_true_iff in H2.
      split; auto. intros [A B]. rewrite A, B in H2. discriminate.
  - intros [H|[H1 H2]].
    + apply String.eqb_eq in H. now rewrite H.
    + rewrite H1. simpl.
      destruct (value_is_nan v), (value_is_nan old); simpl;
        try apply orb_true_r.
      exfalso. auto.
Qed.

Lemma shouldPropChange_equal (p : string) (v old : value) :
  typeof v <> "object" -> strict_eq v old = true ->
  _shouldPropChange p v old = false.
Proof.
  intros T E. rewrite shouldPropChange_eq, E.
  apply String.eqb_neq in T. now rewrite T.
Qed.

Lemma shouldPropChange_nan (p : string) (v old : value) :
  value_is_nan v = true -> value_is_nan old = true ->
  _shouldPropChange p v old = false.
Proof.
  intros A B. rewrite shouldPropChange_eq, A, B.
  destruct v; try discriminate. simpl. apply andb_false_r.
Qed.

Lemma shouldPropChange_object (p : string) (v old : value) :
  typeof v = "object" -> _shouldPropChange p v old = true.
Proof. intros T. apply shouldPropChange_iff. now left. Qed.

(** C2.  [_shouldPropChange(p, v, old)] is true exactly when [v] is an
    object, whatever its identity, or [v !== old] and [v] and [old] are not
    both NaN.  Consequently, on a ready instance whose property [p] is
    observed by the method [m]: writing a primitive that is strictly equal
    to the current value, or NaN over NaN, leaves the instance as it was, so
    no observer runs; writing an object has called [m] when the write
    returns, and the write does return when nothing is pending and no
    computed property depends on [p]. *)
Theorem shouldPropChange_decides_observers {P : Path.Ops} (inst : Registry)
  (p m : string) (s : State) :
  __dataInitialized s = true -> _asyncEffects s = false ->
  stamps_below s -> observes inst p m ->
  (forall v old,
     _shouldPropChange p v old = true <->
     typeof v = "object" \/
     (strict_eq v old = false /\
      ~ (value_is_nan v = true /\ value_is_nan old = true))) /\
  (forall v fuel,
     typeof v <> "object" -> strict_eq v (read p (__data s)) = true ->
     _setProperty inst fuel p v s = Ret tt s) /\
  (forall v fuel,
     value_is_nan v = true -> value_is_nan (read p (__data s)) = true ->
     _setProperty inst fuel p v s = Ret tt s) /\
  (forall v fuel s',
     typeof v = "object" ->
     _setProperty inst fuel p v s = Ret tt s' ->
     exists new, log s' = new ++ log s /\ calls_of m new <> []) /\
  (forall v fuel,
     __dataPending s = None -> feeds_nothing inst p = true ->
     observers_ready inst = true ->
     exists s', _setProperty inst (S fuel) p v s = Ret tt s').
Proof.
  intros Hi Ha Hs Hobs. split; [|split; [|split; [|split]]].
  - intros v old. apply shouldPropChange_iff.
  - intros v fuel T E. apply setProperty_unchanged.
    now apply shouldPropChange_equal.
  - intros v fuel A B. apply setProperty_unchanged.
    now apply shouldPropChange_nan.
  - intros v fuel s' T H.
    eapply setProperty_fires; eauto. now apply shouldPropChange_object.
  - intros v fuel Hp Hf Ho. now apply setProperty_returns.
Qed.

Lemma names_observes_tourists :
  observes Fixture.names "tourists" "_somePropChanged".
Proof.
  unfold observes. do 6 eexists.
  split; [vm_compute; reflexivity|].
  split; [vm_compute; reflexivity|].
  split; [intros [H|[]]; discriminate H|].
  split; [left; reflexivity|].
  split; [vm_compute; reflexivity|].
  split; [vm_compute; reflexivity|].
  split; [vm_compute; reflexivity|].
  split; vm_compute; reflexivity.
Qed.

Lemma stamps_below_ready h d :
  stamps_below (set_data d (Fixture.ready_state h)).
Proof. intros i r E. discriminate E. Qed.

Lemma shouldPropChange_decides_observers_witness :
  (exists s',
     _setProperty Fixture.names 1 "tourists" (VRef 0)
       (set_data [] (Fixture.ready_state [OArr []])) = Ret tt s' /\
     exists new,
       log s' = new ++ log (set_data [] (Fixture.ready_state [OArr []])) /\
       calls_of "_somePropChanged" new <> []) /\
  _setProperty Fixture.names 1 "tourists" VUndef
    (set_data [] (Fixture.ready_state [OArr []]))
  = Ret tt (set_data [] (Fixture.ready_state [OArr []])).
Proof.
  destruct (@shouldPropChange_decides_observers SpecPath.spec_ops
              Fixture.names "tourists" "_somePropChanged"
              (set_data [] (Fixture.ready_state [OArr []])))
    as (_ & Heq & _ & Hfires & Hret).
  - reflexivity.
  - reflexivity.
  - apply stamps_below_ready.
  - apply names_observes_tourists.
  - split.
    + destruct (Hret (VRef 0) 0) as (s' & E); try reflexivity.
      exists s'. split; [exact E|].
      apply (Hfires (VRef 0) 1 s'); [reflexivity|exact E].
    + apply Heq; [discriminate|reflexivity].
Defined.

(** C10.  Assigning [null] is always a change, because [null] takes the
    object branch of the change predicate.  On a ready instance whose
    property [p] already holds [null] and is observed by the method [m],
    setting [p] to [null] again records [p] as pending and has called [m]
    when the write returns, which it does when nothing is pending and no
    computed property depends on [p]; a primitive that is strictly equal to
    the current value is not recorded, and the instance stays as it was. *)
Theorem null_is_always_a_change {P : Path.Ops} (inst : Registry)
  (p m : string) (s : State) :
  __dataInitialized s = true -> _asyncEffects s = false ->
  stamps_below s -> pending_has_old s -> observes inst p m ->
  read p (__data s) = VNull ->
  (forall old, _shouldPropChange p VNull old = true) /\
  (exists s1 c,
     _setPendingProperty p VNull s = Ret true s1 /\
     __dataPending s1 = Some c /\ lookup p c = Some VNull) /\
  (forall fuel s',
     _setProperty inst fuel p VNull s = Ret tt s' ->
     exists new, log s' = new ++ log s /\ calls_of m new <> []) /\
  (forall fuel,
     __dataPending s = None -> feeds_nothing inst p = true ->
     observers_ready inst = true ->
     exists s', _setProperty inst (S fuel) p VNull s = Ret tt s') /\
  (forall v fuel s0,
     typeof v <> "object" -> strict_eq v (read p (__data s0)) = true ->
     _setPendingProperty p v s0 = Ret false s0 /\
     _setProperty inst fuel p v s0 = Ret tt s0).
Proof.
  intros Hi Ha Hs Ho Hobs Hnull.
  assert (C : forall old, _shouldPropChange p VNull old = true).
  { intros old. now apply shouldPropChange_object. }
  split; [exact C|]. split; [|split; [|split]].
  - destruct (@setPendingProperty_records P p VNull s (C _) Ho)
      as (s1 & c & E & A & B & _).
    exists s1, c. auto.
  - intros fuel s' H. eapply setProperty_fires; eauto.
  - intros fuel Hp Hf Hr. now apply setProperty_returns.
  - intros v fuel s0 T E.
    assert (N : _shouldPropChange p v (read p (__data s0)) = false)
      by now apply shouldPropChange_equal.
    split.
    + now apply setPendingProperty_unchanged.
    + now apply setProperty_unchanged.
Qed.

Lemma null_is_always_a_change_witness :
  read "tourists"
    (__data (set_data [("tourists", VNull)] (Fixture.ready_state [])))
  = VNull /\
  exists s',
    _setProperty Fixture.names 1 "tourists" VNull
      (set_data [("tourists", VNull)] (Fixture.ready_state [])) = Ret tt s' /\
    read "tourists" (__data s') = VNull /\
    exists new,
      log s' = new ++ log (set_data [("tourists", VNull)]
                             (Fixture.ready_state [])) /\
      calls_of "_somePropChanged" new <> [].
Proof.
  split; [reflexivity|].
  destruct (@null_is_always_a_change SpecPath.spec_ops Fixture.names
              "tourists" "_somePropChanged"
              (set_data [("tourists", VNull)] (Fixture.ready_state [])))
    as (_ & _ & Hfires & Hret & _).
  - reflexivity.
  - reflexivity.
  - apply stamps_below_ready.
  - intros H. exfalso. apply H. reflexivity.
  - apply names_observes_tourists.
  - reflexivity.
  - destruct (Hret 0) as (s' & E); try reflexivity.
    exists s'. split; [exact E|]. split.
    + vm_compute in E. inversion E. reflexivity.
    + apply (Hfires 1 s'). exact E.
Defined.

(** ** Writes that leave the instance settled *)

Lemma observer_ready_entry inst o :
  observer_ready inst o = true -> observer_entry o = true.
Proof.
  unfold observer_ready, observer_entry. destruct o as [fx|]; auto.
  destruct (fx_fn fx); auto; discriminate.
Qed.

Lemma observers_ready_only inst :
  observers_ready inst = true -> observers_only inst = true.
Proof.
  unfold observers_ready, observers_only.
  destruct (__observeEffects inst) as [em|]; auto.
  intros H. apply forallb_forall. intros kv Hin.
  eapply forallb_forall in H; [|exact Hin].
  apply forallb_forall. intros o Ho.
  eapply forallb_forall in H; [|exact Ho].
  now apply (@observer_ready_entry inst).
Qed.

Section Settles.

Context {P : Path.Ops}.
Variable inst : Registry.
Hypothesis Hready : observers_ready inst = true.

Lemma flushProperties_settles fuel fromAbove s s' :
  _flushProperties inst fuel fromAbove s = Ret tt s' ->
  __dataInitialized s' = true /\ __dataPending s' = None.
Proof.
  intros H. unfold _flushProperties in H. rewrite bind_gets in H.
  apply bind_Ret in H. destruct H as ([] & s0 & H0 & H).
  assert (I0 : __dataInitialized s0 = true).
  { destruct (__dataInitialized s) eqn:I; inversion H0; subst; auto. }
  rewrite bind_gets, bind_gets in H.
  assert (F : (modify (set_dataFromAbove fromAbove) ;;;
               super_flushProperties inst fuel ;;;
               modify (set_dataFromAbove false)) s0 = Ret tt s' ->
              __dataInitialized s' = true /\ __dataPending s' = None).
  { clear H. intros H. rewrite bind_modify in H.
    apply bind_Ret in H. destruct H as ([] & s2 & H2 & H).
    inversion H; subst s'. clear H.
    cbn [__dataInitialized __dataPending set_dataFromAbove].
    unfold super_flushProperties in H2.
    rewrite bind_gets, bind_gets, bind_modify in H2.
    apply propertiesChanged_settles in H2;
      [|now apply observers_ready_only|reflexivity].
    destruct H2 as (a & _ & b). simpl in b. split; congruence. }
  destruct (__dataPending s0) as [c|] eqn:Ep; [now apply F|].
  destruct (__dataPendingClients s0); [now apply F|].
  inversion H; subst. auto.
Qed.

(** A write to a property no computed property depends on, on a ready
    instance in synchronous mode with nothing pending, returns and leaves
    the instance ready with nothing pending. *)
Lemma setProperty_settles fuel p v s :
  feeds_nothing inst p = true ->
  __dataInitialized s = true -> _asyncEffects s = false ->
  __dataPending s = None ->
  exists s',
    _setProperty inst (S fuel) p v s = Ret tt s' /\
    __dataInitialized s' = true /\ __dataPending s' = None /\
    grows s s'.
Proof.
  intros Hf Hi Ha Hp.
  destruct (setProperty_returns inst fuel p v s Hf Hready Hi Hp) as (s' & E).
  exists s'. split; [exact E|].
  assert (G : grows s s').
  { eapply post_Ret; [apply setProperty_grows|exact E]. }
  destruct (_shouldPropChange p v (read p (__data s))) eqn:Hch.
  - unfold _setProperty in E.
    apply bind_Ret in E. destruct E as (b & s1 & E1 & E).
    pose proof E1 as F1.
    eapply setPendingProperty_changed in F1; [|exact Hch].
    destruct F1 as (-> & _ & _ & _ & _ & I1 & A1).
    unfold _invalidateProperties in E.
    rewrite bind_gets, I1, Hi, bind_gets, A1, Ha in E.
    apply flushProperties_settles in E.
    destruct E as (a & b). auto.
  - rewrite (setProperty_unchanged inst (S fuel) p v s Hch) in E.
    inversion E; subst. auto.
Qed.

Lemma notifySplices_fn_returns fuel array path splices s :
  missing array = false ->
  feeds_nothing inst (path ++ ".splices") = true ->
  feeds_nothing inst (path ++ ".length") = true ->
  __dataInitialized s = true -> _asyncEffects s = false ->
  __dataPending s = None ->
  exists s', notifySplices_fn inst (S fuel) array path splices s = Ret tt s'.
Proof.
  intros Hm Hf1 Hf2 Hi Ha Hp. unfold notifySplices_fn.
  unfold bind at 1, alloc at 1.
  match goal with
  | |- context [bind (_setProperty inst (S fuel) ?q ?w) _ ?s0] =>
      destruct (@setProperty_settles fuel q w s0 Hf1 Hi Ha Hp)
        as (s1 & E1 & I1 & P1 & _)
  end.
  rewrite (bind_step _ _ _ E1).
  unfold the_length. rewrite Hm, bind_gets.
  match goal with
  | |- context [bind (_setProperty inst (S fuel) ?q ?w) _ ?s0] =>
      destruct (setProperty_returns inst fuel q w s0 Hf2 Hready I1 P1)
        as (s2 & E2)
  end.
  rewrite (bind_step _ _ _ E2).
  unfold bind, alloc, modify. eexists. reflexivity.
Qed.

Lemma notifySplice_returns fuel array path index added removed s :
  missing array = false ->
  feeds_nothing inst (path ++ ".splices") = true ->
  feeds_nothing inst (path ++ ".length") = true ->
  __dataInitialized s = true -> _asyncEffects s = false ->
  __dataPending s = None ->
  exists s',
    notifySplice inst (S fuel) array path index added removed s = Ret tt s'.
Proof.
  intros Hm Hf1 Hf2 Hi Ha Hp. unfold notifySplice.
  unfold bind at 1, alloc at 1. unfold bind at 1, alloc at 1.
  now apply notifySplices_fn_returns.
Qed.

Lemma splice_returns fuel path start deleteCount items s r npath before :
  Path_get inst This path s = (VRef r, npath) ->
  deref (heap s) r = Some (OArr before) ->
  feeds_nothing inst (npath ++ ".splices") = true ->
  feeds_nothing inst (npath ++ ".length") = true ->
  __dataInitialized s = true -> _asyncEffects s = false ->
  __dataPending s = None ->
  exists result s',
    splice inst (S fuel) path start deleteCount items s = Ret result s'.
Proof.
  intros Hg Hd Hf1 Hf2 Hi Ha Hp. unfold splice.
  rewrite bind_gets, Hg. cbn [fst snd].
  unfold bind at 1, array_items at 1. rewrite Hd.
  destruct (Array_splice before (splice_start (length before) start)
              deleteCount items) as [after removed].
  unfold bind at 1, array_write at 1, modify at 1.
  unfold bind at 1, alloc at 1.
  assert (N : forall s0,
             __dataInitialized s0 = true -> _asyncEffects s0 = false ->
             __dataPending s0 = None ->
             exists s', notifySplice inst (S fuel) (VRef r) npath
                          (VNum (splice_start (length before) start))
                          (count items)
                          (VRef (length (list_set r (OArr after) (heap s))))
                          s0 = Ret tt s').
  { intros s0 I0 A0 P0. now apply notifySplice_returns. }
  match goal with
  | |- context [bind _ _ ?s0] => destruct (N s0 Hi Ha Hp) as (s' & E)
  end.
  destruct items as [|i items]; [destruct removed as [|x removed]|].
  - do 2 eexists. reflexivity.
  - rewrite (bind_step _ _ _ E). do 2 eexists. reflexivity.
  - rewrite (bind_step _ _ _ E). do 2 eexists. reflexivity.
Qed.

End Settles.

(** ** The start of a splice, and its record *)

(** C7, as amended.  [splice] normalizes its start on an array of length
    [len] as follows: a start that is not negative is floored; a falsy start
    (0, NaN, an omitted start) becomes 0; a negative start whose floored
    magnitude is between 1 and [len] becomes [len - floor(-start)]: floor,
    not ceil.  When [splice] sends a notification, the [index] of its splice
    record is the start so normalized; on a ready instance with nothing
    pending, for an array no computed property depends on, [splice]
    returns.  How a negative start beyond the length of the array is
    treated is left out. *)
Theorem splice_start_normalized {P : Path.Ops} (inst : Registry)
  (len : nat) (start : number) :
  (num_lt start (of_nat 0) = false -> is_nan start = false ->
   num_eq (splice_start len start) (Math_floor start) = true) /\
  (num_falsy start = true -> splice_start len start = of_nat 0) /\
  (forall q, start = Fin q -> (q < 0)%Q ->
     (1 <= Qfloor (- q) <= Z.of_nat len)%Z ->
     num_eq (splice_start len start)
       (Fin (inject_Z (Z.of_nat len - Qfloor (- q)))) = true) /\
  (forall fuel path deleteCount items s r npath before result s',
     Path_get inst This path s = (VRef r, npath) ->
     deref (heap s) r = Some (OArr before) ->
     len = length before ->
     splice inst fuel path start deleteCount items s = Ret result s' ->
     items <> [] \/
       snd (Array_splice before (splice_start len start) deleteCount items)
         <> [] ->
     exists rec fields,
       deref (heap s') rec = Some (OObj fields) /\
       lookup "type" fields = Some (VStr "splice") /\
       lookup "index" fields = Some (VNum (splice_start len start)) /\
       deref (heap s') (S rec) = Some (OArr [VRef rec]) /\
       deref (heap s') (S (S rec))
         = Some (OObj [("indexSplices", VRef (S rec))])) /\
  (forall fuel path deleteCount items s r npath before,
     Path_get inst This path s = (VRef r, npath) ->
     deref (heap s) r = Some (OArr before) ->
     observers_ready inst = true ->
     feeds_nothing inst (npath ++ ".splices") = true ->
     feeds_nothing inst (npath ++ ".length") = true ->
     __dataInitialized s = true -> _asyncEffects s = false ->
     __dataPending s = None ->
     exists result s',
       splice inst (S fuel) path start deleteCount items s = Ret result s').
Proof.
  split; [apply splice_start_floor|].
  split; [apply splice_start_falsy|].
  split.
  { intros q -> Hq _. now apply splice_start_negative. }
  split.
  2:{ intros. eapply splice_returns; eauto. }
  intros fuel path deleteCount items s r npath before result s' Hg Hd -> H Hn.
  unfold splice in H. unfold bind at 1, gets at 1 in H. rewrite Hg in H.
  cbn [fst snd] in H. unfold bind at 1, array_items at 1 in H.
  rewrite Hd in H.
  destruct (Array_splice before (splice_start (length before) start)
              deleteCount items) as [after removed] eqn:Ea.
  unfold bind at 1, array_write at 1, modify at 1 in H.
  unfold bind at 1, alloc at 1 in H.
  apply bind_Ret in H. destruct H as ([] & s1 & H1 & H).
  inversion H; subst. clear H.
  cbn [snd] in Hn.
  destruct items as [|i items]; [destruct removed as [|x removed]|].
  - destruct Hn; congruence.
  - apply notifySplice_record in H1. destruct H1 as (N1 & N2 & N3).
    eexists. eexists. split; [exact N1|]. repeat split; auto.
  - apply notifySplice_record in H1. destruct H1 as (N1 & N2 & N3).
    eexists. eexists. split; [exact N1|]. repeat split; auto.
Qed.

Lemma splice_start_normalized_witness :
  num_eq (splice_start 3 (Fin (-3 # 2))) (Fin 2) = true /\
  exists result s' rec fields,
    splice Fixture.names 5 "tourists" (Fin (-3 # 2)) (of_nat 1) []
      (Fixture.with_tourists [Fixture.num 1; Fixture.num 2; Fixture.num 3])
    = Ret result s' /\
    deref (heap s') rec = Some (OObj fields) /\
    lookup "index" fields = Some (VNum (splice_start 3 (Fin (-3 # 2)))).
Proof.
  destruct (@splice_start_normalized SpecPath.spec_ops Fixture.names 3
              (Fin (-3 # 2))) as (_ & _ & Hneg & Hrec & Hret).
  split.
  - apply (Hneg (-3 # 2)%Q); [reflexivity|reflexivity|].
    vm_compute. split; discriminate.
  - destruct (Hret 4 "tourists" (of_nat 1) []
                (Fixture.with_tourists
                   [Fixture.num 1; Fixture.num 2; Fixture.num 3])
                0 "tourists" [Fixture.num 1; Fixture.num 2; Fixture.num 3])
      as (res & s' & E); try (vm_compute; reflexivity).
    destruct (Hrec 5 "tourists" (of_nat 1) []
                (Fixture.with_tourists
                   [Fixture.num 1; Fixture.num 2; Fixture.num 3])
                0 "tourists" [Fixture.num 1; Fixture.num 2; Fixture.num 3]
                res s') as (rec & fields & A & _ & B & _).
    + reflexivity.
    + reflexivity.
    + reflexivity.
    + exact E.
    + right. vm_compute. discriminate.
    + exists res, s', rec, fields. auto.
Defined.

(** C7, the claim as stated, fails: for the start -3/2 on an array of three
    items the code normalizes to 2 (3 - floor(3/2)), the formula of the
    specification gives 1 (max(0, 3 - ceil(3/2))), and the record carries
    2. *)
Lemma splice_start_counterexample :
  num_eq (splice_start 3 (Fin (-3 # 2))) (Fin 2) = true /\
  num_eq (spec_splice_start 3 (Fin (-3 # 2))) (Fin 1) = true /\
  num_eq (splice_start 3 (Fin (-3 # 2)))
    (spec_splice_start 3 (Fin (-3 # 2))) = false /\
  exists res s',
    splice Fixture.names 5 "tourists" (Fin (-3 # 2)) (of_nat 1) []
      (Fixture.with_tourists [Fixture.num 1; Fixture.num 2; Fixture.num 3])
    = Ret res s' /\
    exists index,
      prop_get (heap s') (VRef 2) "index" = VNum index /\
      prop_get (heap s') (VRef 2) "type" = VStr "splice" /\
      num_eq index (spec_splice_start 3 (Fin (-3 # 2))) = false.
Proof.
  repeat split; try (vm_compute; reflexivity).
  eexists. eexists. split; [vm_compute; reflexivity|].
  eexists. repeat split; vm_compute; reflexivity.
Qed.

(** ** A write to a property that only observers depend on *)

Lemma state_eta (s : State) :
  s = set_log (log s) (set_lastRun (lastRun s) (set_effectUid (effectUid s) s)).
Proof. destruct s; reflexivity. Qed.

Section Plain.

Context {P : Path.Ops}.
Variable inst : Registry.

Lemma setPendingProperty_exact p v s :
  _shouldPropChange p v (read p (__data s)) = true ->
  __dataPending s = None ->
  _setPendingProperty p v s =
  Ret true
    (set_dataPending (Some [(p, v)])
       (set_data
          (assign p v (if String.eqb (typeof v) "object"
                       then clear_cached p (__data s) else __data s))
          (set_dataOld
             (Some [(p, read p (if String.eqb (typeof v) "object"
                                then clear_cached p (__data s)
                                else __data s))]) s))).
Proof.
  intros Hc Hp. unfold _setPendingProperty.
  destruct (String.eqb (typeof v) "object") eqn:T.
  - rewrite bind_modify. unfold super_setPendingProperty.
    rewrite bind_gets. cbn [__data set_data].
    assert (C : forall old, _shouldPropChange p v old = true).
    { intros old. unfold _shouldPropChange. rewrite T. apply orb_true_r. }
    rewrite C, bind_gets. cbn [__dataPending set_data]. rewrite Hp.
    rewrite bind_modify, bind_gets.
    cbn [__dataOld set_dataOld has_key lookup].
    rewrite bind_modify, bind_modify, bind_gets.
    cbn [__dataPending set_data set_dataOld set_dataPending].
    rewrite bind_modify. reflexivity.
  - rewrite bind_ret. unfold super_setPendingProperty.
    rewrite bind_gets, Hc, bind_gets, Hp.
    rewrite bind_modify, bind_gets.
    cbn [__dataOld set_dataOld has_key lookup].
    rewrite bind_modify, bind_modify, bind_gets.
    cbn [__dataPending set_data set_dataOld set_dataPending].
    rewrite bind_modify. reflexivity.
Qed.

Lemma runComputedEffects_plain fuel p v old s :
  feeds_nothing inst p = true ->
  exists u,
    runComputedEffects inst (S fuel) (Some [(p, v)]) old s
    = Ret (Some [(p, v)], old, None) (set_effectUid u s) /\
    effectUid s <= u.
Proof.
  unfold feeds_nothing, runComputedEffects. intros H.
  destruct (__computeEffects inst) as [em|] eqn:Eem.
  - simpl compute_loop. unfold runEffects, effects_of. rewrite Eem.
    rewrite !bind_assoc, bind_gets, !bind_assoc, bind_modify.
    simpl keys. simpl run_props. unfold runEffectsForProperty.
    apply negb_true_iff in H. unfold has_key in H.
    destruct (lookup (Path.root p) em); [discriminate|].
    rewrite !bind_assoc, bind_ret, bind_ret. simpl orb. cbv iota.
    exists (S (effectUid s)). split; [reflexivity|lia].
  - exists (effectUid s). split; [|lia].
    unfold ret. f_equal. destruct s; reflexivity.
Qed.

Lemma notifyProperties_plain changed computed old s :
  __dataInterim s = None -> __dataInterimOld s = None ->
  notifyProperties changed computed old s
  = Ret (Some (changed, old))
      (set_dataInterimOld None
         (set_dataInterim None (set_runId (S (_runId s)) s))).
Proof.
  intros Hi Ho. unfold notifyProperties.
  rewrite bind_gets, bind_modify, bind_gets.
  cbn [__dataInterim set_runId]. rewrite Hi.
  rewrite bind_ret, bind_modify, bind_gets.
  cbn [__dataInterimOld set_runId set_dataInterim]. rewrite Ho.
  rewrite bind_ret, bind_modify, bind_gets.
  cbn [_runId set_dataInterimOld set_dataInterim set_runId].
  rewrite Nat.eqb_refl.
  rewrite bind_gets, bind_gets, bind_modify, bind_modify.
  reflexivity.
Qed.

Lemma flushClients_exact s :
  _flushClients s = Ret tt (set_dataPendingClients None s).
Proof.
  unfold _flushClients. rewrite bind_gets.
  destruct (__dataPendingClients s) eqn:E; [reflexivity|].
  unfold ret. f_equal. destruct s; simpl in *; now subst.
Qed.

Lemma run_fxs_observe id p old fxs ran s :
  forallb (observer_ready inst) fxs = true ->
  exists r l lr,
    run_fxs inst id p old fxs ran s
    = Ret r (set_log (l ++ log s) (set_lastRun lr s)) /\
    forall m args,
      In args (calls_of m l) -> args = [read p (__data s); old; VStr p].
Proof.
  revert ran s. induction fxs as [|[fx|] fxs IH]; simpl; intros ran s H.
  - exists ran, [], (lastRun s). split; [|intros m args []].
    unfold ret. f_equal. destruct s; reflexivity.
  - apply andb_prop in H. destruct H as [Hfx Hfxs].
    rewrite bind_gets.
    destruct (Path.matches (fx_path fx) p && negb (stamped id fx s));
      [|now apply IH].
    rewrite bind_gets, bind_emit.
    unfold observer_ready in Hfx. unfold apply_fn, stamp.
    destruct (fx_fn fx); try discriminate.
    destruct (fx_info fx) as [i|]; [|discriminate].
    destruct (nth_error (infos inst) i) as [info|]; [|discriminate].
    destruct (lookup (methodName info) (methods inst)) as [f|].
    + rewrite bind_emit, bind_modify.
      match goal with
      | |- context [run_fxs inst id p old fxs true ?s3] =>
          destruct (IH true s3 Hfxs) as (r & l & lr & E & C)
      end.
      exists r,
        (l ++ [Call (methodName info) [read p (__data s); old; VStr p];
               Dispatch id fx p (read p (__data s)) old]), lr.
      split.
      * rewrite E, <- app_assoc. reflexivity.
      * intros m args Hin. rewrite calls_of_app in Hin.
        apply in_app_or in Hin. destruct Hin as [Hin|Hin].
        -- apply C in Hin. exact Hin.
        -- simpl in Hin.
           destruct (String.eqb (methodName info) m); simpl in Hin;
             [destruct Hin as [<-|[]]; reflexivity|destruct Hin].
    + rewrite bind_ret, bind_modify.
      match goal with
      | |- context [run_fxs inst id p old fxs true ?s3] =>
          destruct (IH true s3 Hfxs) as (r & l & lr & E & C)
      end.
      exists r, (l ++ [Dispatch id fx p (read p (__data s)) old]), lr.
      split.
      * rewrite E, <- app_assoc. reflexivity.
      * intros m args Hin. rewrite calls_of_app in Hin.
        apply in_app_or in Hin. destruct Hin as [Hin|Hin].
        -- apply C in Hin. exact Hin.
        -- destruct Hin.
  - discriminate.
Qed.

Lemma runEffects_observe_plain p v o s :
  observers_ready inst = true ->
  exists r l lr u,
    runEffects inst OBSERVE (Some [(p, v)]) (Some (Some o)) s
    = Ret r (set_log (l ++ log s) (set_lastRun lr (set_effectUid u s))) /\
    forall m args,
      In args (calls_of m l) -> args = [read p (__data s); read p o; VStr p].
Proof.
  unfold observers_ready, runEffects, effects_of. intros H.
  destruct (__observeEffects inst) as [em|].
  - rewrite bind_gets, bind_modify. simpl keys. simpl run_props.
    unfold runEffectsForProperty.
    destruct (lookup (Path.root p) em) as [fxs|] eqn:El.
    + match goal with
      | |- context [bind (run_fxs inst ?id p ?old fxs false) _ ?s1] =>
          destruct (@run_fxs_observe id p old fxs false s1)
            as (r & l & lr & E & C)
      end.
      { eapply lookup_forallb with (f := forallb (observer_ready inst));
          eauto. }
      rewrite (bind_step _ _ _ E).
      exists (r || false), l, lr, (S (effectUid s)). split; [reflexivity|].
      exact C.
    + rewrite bind_ret.
      exists (false || false), [], (lastRun s), (S (effectUid s)).
      split; [reflexivity|]. intros m args [].
  - exists false, [], (lastRun s), (effectUid s). split; [|intros m args []].
    unfold ret. f_equal. apply state_eta.
Qed.

(** A write that is a change to a property no computed property depends on,
    on a settled instance: the state it returns in, and the calls it has
    made. *)
Lemma setProperty_plain fuel p v s :
  observers_ready inst = true -> feeds_nothing inst p = true ->
  settled s ->
  _shouldPropChange p v (read p (__data s)) = true ->
  exists s' new,
    _setProperty inst (S fuel) p v s = Ret tt s' /\
    settled s' /\
    __data s' = assign p v (if String.eqb (typeof v) "object"
                            then clear_cached p (__data s) else __data s) /\
    __dataOld s'
    = Some [(p, read p (if String.eqb (typeof v) "object"
                        then clear_cached p (__data s) else __data s))] /\
    heap s' = heap s /\ own s' = own s /\
    log s' = new ++ log s /\
    forall m args,
      In args (calls_of m new) ->
      args = [v; read p (if String.eqb (typeof v) "object"
                         then clear_cached p (__data s) else __data s);
              VStr p].
Proof.
  intros Ho Hf (Hi & Ha & Hp & Hl & Hit & Hio) Hc.
  unfold _setProperty.
  rewrite (bind_step _ _ _ (setPendingProperty_exact p v s Hc Hp)).
  set (d := if String.eqb (typeof v) "object"
            then clear_cached p (__data s) else __data s).
  unfold _invalidateProperties.
  rewrite bind_gets. cbn [__dataInitialized set_dataPending set_data
                            set_dataOld]. rewrite Hi.
  rewrite bind_gets. cbn [_asyncEffects set_dataPending set_data
                            set_dataOld]. rewrite Ha.
  unfold _flushProperties.
  rewrite bind_gets. cbn [__dataInitialized set_dataPending set_data
                            set_dataOld]. rewrite Hi.
  rewrite bind_ret, bind_gets, bind_gets.
  cbn [__dataPending set_dataPending]. rewrite bind_modify.
  unfold super_flushProperties.
  rewrite !bind_assoc, bind_gets, !bind_assoc, bind_gets.
  rewrite !bind_assoc, bind_modify.
  cbn [__dataPending __dataOld set_dataPending set_data set_dataOld
         set_dataFromAbove].
  unfold _propertiesChanged. rewrite !bind_assoc.
  match goal with
  | |- context [bind (runComputedEffects inst (S fuel) _ ?o0) _ ?s0] =>
      destruct (@runComputedEffects_plain fuel p v o0 s0 Hf) as (u & E1 & _)
  end.
  rewrite (bind_step _ _ _ E1). cbv beta iota.
  unfold computeLinkedPaths. rewrite !bind_assoc, bind_gets.
  cbn [__dataLinkedPaths set_dataPending set_data set_dataOld
         set_dataFromAbove set_effectUid]. rewrite Hl.
  rewrite bind_ret. cbv beta iota. rewrite !bind_assoc.
  match goal with
  | |- context [bind (notifyProperties ?c0 ?k0 ?o0) _ ?s0] =>
      rewrite (bind_step _ _ _
                 (@notifyProperties_plain c0 k0 o0 s0 Hit Hio))
  end.
  cbv beta iota. rewrite !bind_assoc.
  rewrite (bind_step _ _ _ (flushClients_exact _)). rewrite !bind_assoc.
  match goal with
  | |- context [bind (runEffects inst OBSERVE _ (Some (Some ?o0))) _ ?s0] =>
      destruct (@runEffects_observe_plain p v o0 s0 Ho)
        as (r & l & lr & u' & E2 & C2)
  end.
  rewrite (bind_step _ _ _ E2). rewrite bind_ret. unfold modify.
  eexists. exists l. split; [reflexivity|].
  split; [repeat split; assumption|].
  split; [reflexivity|]. split; [reflexivity|].
  split; [reflexivity|]. split; [reflexivity|].
  split; [reflexivity|].
  intros m args Hin. apply C2 in Hin.
  cbn [__data set_dataPendingClients set_dataInterimOld set_dataInterim
         set_runId set_effectUid set_dataPending set_dataFromAbove set_data
         set_dataOld] in Hin.
  unfold read in Hin at 1. rewrite lookup_assign_same in Hin.
  unfold read in Hin at 1. cbn [lookup] in Hin.
  rewrite String.eqb_refl in Hin. exact Hin.
Qed.

End Plain.

Lemma settled_ready h d :
  settled (set_data d (Fixture.ready_state h)).
Proof. repeat split. Qed.

(** ** Splice notifications *)

Lemma deref_list_set {A : Type} (r : nat) (o o' : A) (h : list A) :
  nth_error h r = Some o' -> nth_error (list_set r o h) r = Some o.
Proof.
  revert r. induction h as [|y h IH]; intros [|r] H; try discriminate.
  - reflexivity.
  - simpl. now apply IH.
Qed.

Lemma list_set_same {A : Type} (r : nat) (o : A) (h : list A) :
  nth_error h r = Some o -> list_set r o h = h.
Proof.
  revert r. induction h as [|y h IH]; intros [|r] H; try discriminate.
  - simpl in *. congruence.
  - simpl. f_equal. now apply IH.
Qed.

Lemma deref_app (h h' : heap_t) (r : nat) (o : object) :
  deref h r = Some o -> deref (h ++ h') r = Some o.
Proof.
  unfold deref. intros H. rewrite nth_error_app1; auto.
  apply nth_error_Some. congruence.
Qed.

Lemma append_inj_l (p a b : string) :
  (p ++ a)%string = (p ++ b)%string -> a = b.
Proof.
  induction p as [|c p IH]; simpl; intros H; [exact H|].
  inversion H. auto.
Qed.

Lemma length_list_set {A : Type} (r : nat) (o : A) (h : list A) :
  length (list_set r o h) = length h.
Proof.
  revert r. induction h as [|y h IH]; intros [|r]; simpl; auto.
Qed.

Lemma truthy_count (items : list value) :
  items <> [] -> truthy (count items) = true.
Proof. destruct items; [congruence|reflexivity]. Qed.

Lemma set_heap_same (s : State) : set_heap (heap s) s = s.
Proof. destruct s; reflexivity. Qed.

Section SpliceNotification.

Context {P : Path.Ops}.
Variable inst : Registry.
Hypothesis Ho : observers_ready inst = true.

(** The function [notifySplices] for an array under a path nothing is
    computed from, on a settled instance. *)
Lemma notifySplices_fn_plain fuel r items npath splices s :
  deref (heap s) r = Some (OArr items) ->
  feeds_nothing inst (npath ++ ".splices") = true ->
  feeds_nothing inst (npath ++ ".length") = true ->
  settled s ->
  exists s' new,
    notifySplices_fn inst (S fuel) (VRef r) npath splices s = Ret tt s' /\
    settled s' /\
    (exists h, heap s' = heap s ++ h) /\
    own s' = own s /\
    strict_eq (read (npath ++ ".length") (__data s')) (count items) = true /\
    (exists cleared,
       lookup (npath ++ ".splices") (__data s') = Some (VRef cleared) /\
       deref (heap s') cleared = Some (OObj [("indexSplices", VNull)])) /\
    deref (heap s') (length (heap s))
    = Some (OObj [("indexSplices", splices)]) /\
    log s' = new ++ log s /\
    (forall m, observes inst (npath ++ ".splices") m -> stamps_below s ->
       exists old,
         In [VRef (length (heap s)); old; VStr (npath ++ ".splices")]
           (calls_of m new)).
Proof.
  intros Hd Hfs Hfl Hs.
  unfold notifySplices_fn.
  unfold bind at 1, alloc at 1.
  set (s0 := set_heap (heap s ++ [OObj [("indexSplices", splices)]]) s).
  assert (C0 : _shouldPropChange (npath ++ ".splices")
                 (VRef (length (heap s)))
                 (read (npath ++ ".splices") (__data s0)) = true).
  { unfold _shouldPropChange. simpl typeof. apply orb_true_r. }
  destruct (@setProperty_plain P inst fuel (npath ++ ".splices")
              (VRef (length (heap s))) s0 Ho Hfs Hs C0)
    as (s1 & new1 & E1 & S1 & D1 & _ & H1 & O1 & L1 & A1).
  rewrite (bind_step _ _ _ E1).
  cbn [heap own log set_heap s0] in H1, O1, L1.
  assert (Hd1 : deref (heap s1) r = Some (OArr items)).
  { rewrite H1. now apply deref_app. }
  assert (Hrec : deref (heap s1) (length (heap s))
                 = Some (OObj [("indexSplices", splices)])).
  { rewrite H1. unfold deref. rewrite nth_error_app2 by lia.
    now rewrite Nat.sub_diag. }
  assert (Fires : forall m, observes inst (npath ++ ".splices") m ->
            stamps_below s ->
            exists old,
              In [VRef (length (heap s)); old; VStr (npath ++ ".splices")]
                (calls_of m new1)).
  { intros m Hobs Hst.
    destruct Hs as (Hi & Ha & _).
    destruct (@setProperty_fires P inst (S fuel) (npath ++ ".splices") m
                (VRef (length (heap s))) s0 s1 Hobs Hi Ha Hst C0 E1)
      as (l & L' & N).
    assert (l = new1).
    { cbn [log set_heap s0] in L'. rewrite L1 in L'.
      now apply app_inv_tail in L'. }
    subst l.
    destruct (calls_of m new1) as [|a rest] eqn:Ec; [congruence|].
    assert (A : In a (calls_of m new1)) by (rewrite Ec; now left).
    apply A1 in A. eexists. rewrite <- A. now left. }
  unfold the_length. cbn [missing]. rewrite bind_gets.
  unfold prop_get at 1. rewrite Hd1. cbn [String.eqb Ascii.eqb Bool.eqb].
  fold (count items).
  destruct (_shouldPropChange (npath ++ ".length") (count items)
              (read (npath ++ ".length") (__data s1))) eqn:C.
  - destruct (@setProperty_plain P inst fuel (npath ++ ".length")
                (count items) s1 Ho Hfl S1 C)
      as (s2 & new2 & E2 & S2 & D2 & _ & H2 & O2 & L2 & _).
    rewrite (bind_step _ _ _ E2). clear E2.
    unfold bind at 1, alloc at 1. unfold modify.
    eexists. exists (new2 ++ new1). split; [reflexivity|].
    split; [exact S2|].
    split.
    { cbn [heap set_heap set_data]. rewrite H2, H1, <- !app_assoc.
      eexists. reflexivity. }
    split.
    { cbn [own set_heap set_data]. congruence. }
    split.
    { cbn [__data set_heap set_data]. unfold read.
      rewrite lookup_assign_other.
      2:{ intros E. apply append_inj_l in E. discriminate E. }
      rewrite D2. cbn [typeof count String.eqb Ascii.eqb Bool.eqb].
      rewrite lookup_assign_same. unfold count. simpl.
      apply Qeq_bool_iff. reflexivity. }
    split.
    { exists (length (heap s2)). split.
      - cbn [__data set_heap set_data]. apply lookup_assign_same.
      - unfold deref. cbn [heap set_heap set_data].
        rewrite nth_error_app2 by lia. now rewrite Nat.sub_diag. }
    split.
    { cbn [heap set_heap set_data]. apply deref_app. now rewrite H2. }
    split.
    { cbn [log set_heap set_data]. rewrite L2, L1.
      now rewrite app_assoc. }
    intros m Hobs Hst. destruct (Fires m Hobs Hst) as (old & Hin).
    exists old. rewrite calls_of_app. apply in_or_app. now right.
  - rewrite (bind_step _ _ _ (setProperty_unchanged inst (S fuel) _ _ _ C)).
    unfold bind at 1, alloc at 1. unfold modify.
    eexists. exists new1. split; [reflexivity|].
    split; [exact S1|].
    split.
    { cbn [heap set_heap set_data]. rewrite H1, <- !app_assoc.
      eexists. reflexivity. }
    split.
    { cbn [own set_heap set_data]. congruence. }
    split.
    { cbn [__data set_heap set_data]. unfold read at 1.
      rewrite lookup_assign_other.
      2:{ intros E. apply append_inj_l in E. discriminate E. }
      fold (read (npath ++ ".length") (__data s1)).
      unfold _shouldPropChange in C. apply orb_false_elim in C.
      destruct C as [C _]. apply andb_false_elim in C.
      destruct C as [C|C].
      + now apply negb_false_iff in C.
      + apply orb_false_elim in C. destruct C as [_ C].
        unfold count in C. simpl in C.
        assert (Qeq_bool (inject_Z (Z.of_nat (length items)))
                  (inject_Z (Z.of_nat (length items))) = true)
          by (apply Qeq_bool_iff; reflexivity).
        congruence. }
    split.
    { exists (length (heap s1)). split.
      - cbn [__data set_heap set_data]. apply lookup_assign_same.
      - unfold deref. cbn [heap set_heap set_data].
        rewrite nth_error_app2 by lia. now rewrite Nat.sub_diag. }
    split.
    { cbn [heap set_heap set_data]. now apply deref_app. }
    split.
    { cbn [log set_heap set_data]. exact L1. }
    exact Fires.
Qed.

End SpliceNotification.

(** C8.  [notifySplices(path, splices)] on an existing array first sets
    [path.splices] to a fresh [{ indexSplices: splices }] with
    [_setProperty], the normal pending and flush path: on a ready,
    synchronous instance the flush has run when [_setProperty] returns,
    nothing is pending any more and the observers of [path.splices] have
    been called.  It then sets [path.length] with [_setProperty] to the
    length the array has, and last stores a fresh [{ indexSplices: null }]
    under [path.splices] in [__data]: the state the call returns in is the
    state after the second [_setProperty] with this one cell and this one
    entry changed.  On a settled instance, for an array nothing is computed
    from, the call returns: afterwards [path.length] is the length of the
    array, [path.splices] is [{ indexSplices: null }], the instance is
    settled again, and each observer of [path.splices] has been called with
    the record [{ indexSplices: splices }]. *)
Theorem notifySplices_sets_then_clears {P : Path.Ops} (inst : Registry)
  (path : string) (splices : value) (s : State)
  (r : nat) (items : list value) (npath : string) :
  Path_get inst This path s = (VRef r, npath) ->
  deref (heap s) r = Some (OArr items) ->
  (forall fuel s',
     notifySplices inst fuel path splices s = Ret tt s' ->
     exists s1 s2 cleared,
       _setProperty inst fuel (npath ++ ".splices") (VRef (length (heap s)))
         (set_heap (heap s ++ [OObj [("indexSplices", splices)]]) s)
       = Ret tt s1 /\
       _setProperty inst fuel (npath ++ ".length")
         (VNum (of_nat (length items))) s1 = Ret tt s2 /\
       lookup (npath ++ ".splices") (__data s') = Some (VRef cleared) /\
       deref (heap s') cleared = Some (OObj [("indexSplices", VNull)]) /\
       s' = set_data (assign (npath ++ ".splices") (VRef cleared)
                        (__data s2))
              (set_heap (heap s2 ++ [OObj [("indexSplices", VNull)]]) s2) /\
       (observers_ready inst = true ->
        __dataInitialized s = true -> _asyncEffects s = false ->
        stamps_below s ->
        __dataInitialized s1 = true /\ __dataPending s1 = None /\
        forall m, observes inst (npath ++ ".splices") m ->
          exists new, log s1 = new ++ log s /\ calls_of m new <> [])) /\
  (observers_ready inst = true ->
   feeds_nothing inst (npath ++ ".splices") = true ->
   feeds_nothing inst (npath ++ ".length") = true ->
   settled s ->
   forall fuel,
     exists s' new,
       notifySplices inst (S fuel) path splices s = Ret tt s' /\
       settled s' /\
       strict_eq (read (npath ++ ".length") (__data s'))
         (VNum (of_nat (length items))) = true /\
       (exists cleared,
          lookup (npath ++ ".splices") (__data s') = Some (VRef cleared) /\
          deref (heap s') cleared = Some (OObj [("indexSplices", VNull)])) /\
       deref (heap s') r = Some (OArr items) /\
       deref (heap s') (length (heap s))
       = Some (OObj [("indexSplices", splices)]) /\
       log s' = new ++ log s /\
       (forall m, observes inst (npath ++ ".splices") m -> stamps_below s ->
          exists old,
            In [VRef (length (heap s)); old; VStr (npath ++ ".splices")]
              (calls_of m new))) /\
  (observers_ready inst = true ->
   feeds_nothing inst (npath ++ ".splices") = true ->
   feeds_nothing inst (npath ++ ".length") = true ->
   __dataInitialized s = true -> _asyncEffects s = false ->
   __dataPending s = None ->
   forall fuel,
     exists s', notifySplices inst (S fuel) path splices s = Ret tt s').
Proof.
  intros Hg Hd. split; [|split].
  3:{ intros Ho Hf1 Hf2 Hi Ha Hp fuel. unfold notifySplices.
      rewrite bind_gets, Hg. cbn [fst snd].
      now apply notifySplices_fn_returns. }
  2:{ intros Ho Hf1 Hf2 Hs fuel. unfold notifySplices.
      rewrite bind_gets, Hg. cbn [fst snd].
      destruct (@notifySplices_fn_plain P inst Ho fuel r items npath splices
                  s Hd Hf1 Hf2 Hs)
        as (s' & new & E & S' & (h & Hh) & _ & L & C & R & Lg & F).
      exists s', new. split; [exact E|]. split; [exact S'|].
      split; [exact L|]. split; [exact C|].
      split; [rewrite Hh; now apply deref_app|].
      split; [exact R|]. split; [exact Lg|exact F]. }
  intros fuel s' H.
  unfold notifySplices in H. unfold bind at 1, gets at 1 in H.
  rewrite Hg in H. cbn [fst snd] in H. unfold notifySplices_fn in H.
  unfold bind at 1, alloc at 1 in H.
  apply bind_Ret in H. destruct H as ([] & s1 & H1 & H).
  assert (D1 : deref (heap s1) r = Some (OArr items)).
  { eapply grows_heap.
    - eapply post_Ret; [apply setProperty_grows|exact H1].
    - unfold deref in *. cbn [heap set_heap].
      rewrite nth_error_app1; auto. apply nth_error_Some. congruence. }
  unfold bind at 1, the_length at 1, missing, gets at 1 in H.
  assert (L : prop_get (heap s1) (VRef r) "length"
              = VNum (of_nat (length items))).
  { unfold prop_get. now rewrite D1. }
  rewrite L in H.
  apply bind_Ret in H. destruct H as ([] & s2 & H2 & H).
  unfold bind, alloc, modify in H. inversion H; subst s'. clear H.
  exists s1, s2, (length (heap s2)).
  split; [exact H1|]. split; [exact H2|].
  split; [cbn [__data set_data set_heap]; apply lookup_assign_same|].
  split.
  { unfold deref. cbn [heap set_data set_heap].
    rewrite nth_error_app2 by lia. now rewrite Nat.sub_diag. }
  split; [reflexivity|].
  intros Ho Hi Ha Hst.
  assert (C0 : _shouldPropChange (npath ++ ".splices")
                 (VRef (length (heap s)))
                 (read (npath ++ ".splices")
                    (__data (set_heap
                               (heap s ++ [OObj [("indexSplices", splices)]])
                               s))) = true).
  { unfold _shouldPropChange. simpl typeof. apply orb_true_r. }
  pose proof H1 as K. unfold _setProperty in K.
  apply bind_Ret in K. destruct K as (b & s0 & K0 & K).
  eapply setPendingProperty_changed in K0; [|exact C0].
  destruct K0 as (-> & _ & _ & _ & _ & I0 & A0).
  unfold _invalidateProperties in K.
  cbn [__dataInitialized _asyncEffects set_heap] in I0, A0.
  rewrite bind_gets, I0, Hi, bind_gets, A0, Ha in K.
  apply (flushProperties_settles inst Ho) in K. destruct K as (K1 & K2).
  split; [exact K1|]. split; [exact K2|].
  intros m Hobs.
  destruct (@setProperty_fires P inst fuel (npath ++ ".splices") m
              (VRef (length (heap s)))
              (set_heap (heap s ++ [OObj [("indexSplices", splices)]]) s)
              s1 Hobs Hi Ha Hst C0 H1) as (l & Ll & N).
  exists l. split; [exact Ll|exact N].
Qed.

Lemma names_observes_splices :
  observes Fixture.names ("tourists" ++ ".splices") "_somePropChanged".
Proof.
  unfold observes. do 6 eexists.
  split; [vm_compute; reflexivity|].
  split; [vm_compute; reflexivity|].
  split; [intros [H|[]]; discriminate H|].
  split; [left; reflexivity|].
  split; [vm_compute; reflexivity|].
  split; [vm_compute; reflexivity|].
  split; [vm_compute; reflexivity|].
  split; vm_compute; reflexivity.
Qed.

Lemma notifySplices_sets_then_clears_witness :
  exists s' cleared,
    notifySplices Fixture.names 1 "tourists" (VRef 1)
      (set_heap [OArr [Fixture.num 123]; OArr []]
         (Fixture.with_tourists [])) = Ret tt s' /\
    lookup "tourists.splices" (__data s') = Some (VRef cleared) /\
    deref (heap s') cleared = Some (OObj [("indexSplices", VNull)]) /\
    strict_eq (read "tourists.length" (__data s')) (Fixture.num 1) = true /\
    deref (heap s') 2 = Some (OObj [("indexSplices", VRef 1)]) /\
    exists old,
      In [VRef 2; old; VStr "tourists.splices"]
        (calls_of "_somePropChanged" (log s')).
Proof.
  assert (G : Path_get Fixture.names This "tourists"
                (set_heap [OArr [Fixture.num 123]; OArr []]
                   (Fixture.with_tourists []))
              = (VRef 0, "tourists")) by (vm_compute; reflexivity).
  assert (R : observers_ready Fixture.names = true)
    by (vm_compute; reflexivity).
  assert (F1 : feeds_nothing Fixture.names ("tourists" ++ ".splices") = true)
    by (vm_compute; reflexivity).
  assert (F2 : feeds_nothing Fixture.names ("tourists" ++ ".length") = true)
    by (vm_compute; reflexivity).
  destruct (@notifySplices_sets_then_clears SpecPath.spec_ops Fixture.names
              "tourists" (VRef 1)
              (set_heap [OArr [Fixture.num 123]; OArr []]
                 (Fixture.with_tourists []))
              0 [Fixture.num 123] "tourists" G eq_refl)
    as (_ & Hplain & _).
  destruct (Hplain R F1 F2
              (@settled_ready [OArr [Fixture.num 123]; OArr []]
                 [("tourists", VRef 0)]) 0)
    as (s' & new & E & _ & L & (cleared & C1 & C2) & _ & Rec & Lg & Obs).
  exists s', cleared. split; [exact E|]. split; [exact C1|].
  split; [exact C2|]. split; [exact L|]. split; [exact Rec|].
  destruct (Obs "_somePropChanged" names_observes_splices
              (@stamps_below_ready [OArr [Fixture.num 123]; OArr []]
                 [("tourists", VRef 0)]))
    as (old & Hin).
  exists old. rewrite Lg. cbn [log Fixture.with_tourists set_heap].
  change (log (set_data [("tourists", VRef 0)]
                 (Fixture.ready_state [OArr []]))) with (@nil event).
  rewrite app_nil_r. exact Hin.
Defined.

(** ** One pass of the dispatcher *)

Lemma bind_ext {A B : Type} (m m' : M A) (k k' : A -> M B) (s : State) :
  m s = m' s -> (forall a s', k a s' = k' a s') ->
  bind m k s = bind m' k' s.
Proof.
  intros Hm Hk. unfold bind. rewrite Hm.
  destruct (m' s); auto.
Qed.

Section Unnested.

Context {P : Path.Ops}.
Variable inst : Registry.
Variable writes : string -> list value -> list (string * value).
Variable inner_set : string -> value -> M unit.
Hypothesis no_writes : forall m a, writes m a = [].

Lemma runMethodEffect_unnested p v old info s :
  Reentrant.runMethodEffect inst writes inner_set p v old info s
  = runMethodEffect inst p v old info s.
Proof.
  unfold Reentrant.runMethodEffect, runMethodEffect.
  destruct (lookup (methodName info) (methods inst)); [|reflexivity].
  destruct (args info); [|reflexivity].
  apply bind_ext; [reflexivity|]. intros actual s'.
  now rewrite no_writes.
Qed.

Lemma apply_fn_unnested fn p v old info s :
  Reentrant.apply_fn inst writes inner_set fn p v old info s
  = apply_fn inst fn p v old info s.
Proof.
  unfold Reentrant.apply_fn, apply_fn.
  destruct info as [i|]; [|reflexivity].
  destruct (nth_error (infos inst) i) as [info|]; [|reflexivity].
  destruct fn.
  - destruct (lookup (methodName info) (methods inst)); [|reflexivity].
    now rewrite no_writes.
  - apply bind_ext; [apply runMethodEffect_unnested|reflexivity].
  - apply bind_ext; [apply runMethodEffect_unnested|reflexivity].
Qed.

Lemma run_fxs_unnested id prop old fxs ran s :
  Reentrant.run_fxs inst writes inner_set id prop old fxs ran s
  = run_fxs inst id prop old fxs ran s.
Proof.
  revert ran s. induction fxs as [|[fx|] fxs IH]; intros ran s;
    try reflexivity.
  cbn [Reentrant.run_fxs run_fxs].
  apply bind_ext; [reflexivity|]. intros skip s1.
  destruct (Path.matches (fx_path fx) prop && negb skip); [|apply IH].
  apply bind_ext; [reflexivity|]. intros v s2.
  apply bind_ext; [reflexivity|]. intros [] s3.
  apply bind_ext; [apply apply_fn_unnested|]. intros [] s4.
  apply bind_ext; [reflexivity|]. intros [] s5. apply IH.
Qed.

Lemma run_props_unnested effects id oldProps props ran s :
  Reentrant.run_props inst writes inner_set effects id oldProps props ran s
  = run_props inst effects id oldProps props ran s.
Proof.
  revert ran s. induction props as [|prop props IH]; intros ran s;
    [reflexivity|].
  cbn [Reentrant.run_props run_props].
  apply bind_ext; [|intros r s1; apply IH].
  unfold Reentrant.runEffectsForProperty, runEffectsForProperty.
  destruct (lookup (Path.root prop) effects); [|reflexivity].
  apply run_fxs_unnested.
Qed.

Lemma runEffects_unnested type props oldProps s :
  Reentrant.runEffects inst writes inner_set type props oldProps s
  = runEffects inst type props oldProps s.
Proof.
  unfold Reentrant.runEffects, runEffects.
  destruct (effects_of inst type); [|reflexivity].
  apply bind_ext; [reflexivity|]. intros id s1.
  apply bind_ext; [reflexivity|]. intros [] s2.
  apply run_props_unnested.
Qed.

End Unnested.

Section UnnestedWrites.

Context {P : Path.Ops}.
Variable inst : Registry.
Variable writes : string -> list value -> list (string * value).
Variable inner_set : string -> value -> M unit.
Hypothesis no_writes : forall m a, writes m a = [].

Lemma compute_loop_unnested fuel i c o k s :
  Reentrant.compute_loop inst writes inner_set fuel i c o k s
  = compute_loop inst fuel i c o k s.
Proof.
  revert i c o k s. induction fuel as [|fuel IH]; intros i c o k s;
    [reflexivity|].
  cbn [Reentrant.compute_loop compute_loop].
  apply bind_ext; [apply (runEffects_unnested inst writes inner_set no_writes)|].
  intros [] s1; [|reflexivity].
  repeat (apply bind_ext; [reflexivity|]; intros ? ?).
  apply IH.
Qed.

Lemma propertiesChanged_unnested fuel c o s :
  Reentrant._propertiesChanged inst writes inner_set fuel c o s
  = _propertiesChanged inst fuel c o s.
Proof.
  unfold Reentrant._propertiesChanged, _propertiesChanged.
  apply bind_ext.
  { unfold Reentrant.runComputedEffects, runComputedEffects.
    destruct (__computeEffects inst); [|reflexivity].
    apply compute_loop_unnested. }
  intros [[c1 o1] k1] s1.
  apply bind_ext; [reflexivity|]. intros [c2 k2] s2.
  apply bind_ext; [reflexivity|]. intros [[c3 o3]|] s3; [|reflexivity].
  apply bind_ext; [reflexivity|]. intros [] s4.
  apply bind_ext; [|reflexivity].
  apply (runEffects_unnested inst writes inner_set no_writes).
Qed.

Lemma flushProperties_unnested fuel fromAbove s :
  Reentrant._flushProperties inst writes inner_set fuel fromAbove s
  = _flushProperties inst fuel fromAbove s.
Proof.
  assert (S0 : forall s0,
             Reentrant.super_flushProperties inst writes inner_set fuel s0
             = super_flushProperties inst fuel s0).
  { intros s0.
    unfold Reentrant.super_flushProperties, super_flushProperties.
    repeat (apply bind_ext; [reflexivity|]; intros ? ?).
    apply propertiesChanged_unnested. }
  unfold Reentrant._flushProperties, _flushProperties.
  repeat (apply bind_ext; [reflexivity|]; intros ? ?).
  assert (F : forall s0,
             (modify (set_dataFromAbove fromAbove) ;;;
              Reentrant.super_flushProperties inst writes inner_set fuel ;;;
              modify (set_dataFromAbove false)) s0
             = (modify (set_dataFromAbove fromAbove) ;;;
                super_flushProperties inst fuel ;;;
                modify (set_dataFromAbove false)) s0).
  { intros s0. apply bind_ext; [reflexivity|]. intros ? ?.
    apply bind_ext; [apply S0|reflexivity]. }
  destruct a1 as [pending|]; [apply F|].
  destruct a2 as [clients|]; [apply F|reflexivity].
Qed.

Lemma setProperty_unnested fuel p v s :
  Reentrant._setProperty inst writes inner_set fuel p v s
  = _setProperty inst fuel p v s.
Proof.
  unfold Reentrant._setProperty, _setProperty.
  apply bind_ext; [reflexivity|]. intros [] s1; [|reflexivity].
  unfold Reentrant._invalidateProperties, _invalidateProperties.
  apply bind_ext; [reflexivity|]. intros [] s2; [|reflexivity].
  apply bind_ext; [reflexivity|]. intros [] s3; [reflexivity|].
  apply flushProperties_unnested.
Qed.

Lemma Path_set_unnested fuel rt path v s :
  Reentrant.Path_set inst writes inner_set fuel rt path v s
  = Path_set inst fuel rt path v s.
Proof.
  unfold Reentrant.Path_set, Path_set.
  destruct (Path.split path) as [|first [|second rest]];
    [reflexivity| |reflexivity].
  apply bind_ext; [|reflexivity].
  unfold Reentrant.root_assign, root_assign.
  destruct rt; [|reflexivity|reflexivity].
  unfold Reentrant.inst_assign, inst_assign.
  destruct (lookup first (accessors inst)) as [[]|];
    [reflexivity|apply setProperty_unnested|reflexivity].
Qed.

Lemma setPathOrUnmanagedProperty_unnested fuel path v s :
  Reentrant._setPathOrUnmanagedProperty inst writes inner_set fuel path v s
  = _setPathOrUnmanagedProperty inst fuel path v s.
Proof.
  unfold Reentrant._setPathOrUnmanagedProperty, _setPathOrUnmanagedProperty.
  apply bind_ext; [|reflexivity].
  destruct (negb _ || _); [apply Path_set_unnested|reflexivity].
Qed.

(** A store whose methods write nothing is the store of [Runtime]. *)
Lemma set_unnested fuel path v root s :
  Reentrant.set inst writes inner_set fuel path v root s
  = set inst fuel path v root s.
Proof.
  unfold Reentrant.set, set.
  destruct (truthy root).
  { apply bind_ext; [apply Path_set_unnested|reflexivity]. }
  destruct (negb _); [|reflexivity].
  apply bind_ext; [apply setPathOrUnmanagedProperty_unnested|].
  intros p' s1. destruct (truthy_path p'); [|reflexivity].
  apply setProperty_unnested.
Qed.

Lemma setProperties_unnested fuel props s :
  Reentrant.setProperties inst writes inner_set fuel props s
  = setProperties inst fuel props s.
Proof.
  unfold Reentrant.setProperties, setProperties.
  apply bind_ext.
  - revert s. induction props as [|[p v] rest IH]; intros s; [reflexivity|].
    cbn [Reentrant.setProperties_loop setProperties_loop].
    apply bind_ext; [|intros ? ?; apply IH].
    destruct (negb _); [|reflexivity].
    apply bind_ext; [apply setPathOrUnmanagedProperty_unnested|reflexivity].
  - intros [] s1.
    unfold Reentrant._invalidateProperties, _invalidateProperties.
    apply bind_ext; [reflexivity|]. intros [] s2; [|reflexivity].
    apply bind_ext; [reflexivity|]. intros [] s3; [reflexivity|].
    apply flushProperties_unnested.
Qed.

End UnnestedWrites.

(** Without writes, [this.set] at any level of nesting is the [set] of
    [Runtime]. *)
Lemma set_at_unnested {P : Path.Ops} (inst : Registry)
  (writes : string -> list value -> list (string * value))
  (fuel level : nat) (path : string) (value : value) (s : State) :
  (forall m a, writes m a = []) ->
  Reentrant.set_at inst writes fuel (S level) path value s
  = set inst fuel path value VUndef s.
Proof.
  intros Hw. cbn [Reentrant.set_at]. now apply set_unnested.
Qed.

(** C9, as amended.  One call of [runEffects] during which no method
    writes to the store dispatches the effects that carry a given info
    object at most once, whatever properties changed: the pass draws its id
    from [effectUid], an info object that is dispatched carries the id
    afterwards, and one that already carries it is not dispatched; the pass
    needs no fuel.  For methods that write nothing the pass is the one of
    [Runtime], whatever a write would do. *)
Theorem runEffects_dispatches_once {P : Path.Ops} (inst : Registry)
  (writes : string -> list value -> list (string * value))
  (inner_set : string -> value -> M unit)
  (type : TYPES) (props : option (jsobj value))
  (oldProps : option (option (jsobj value))) (s : State) :
  (forall m a, writes m a = []) ->
  Reentrant.runEffects inst writes inner_set type props oldProps s
  = runEffects inst type props oldProps s /\
  match Reentrant.runEffects inst writes inner_set type props oldProps s with
  | Ret _ s' =>
      exists new, log s' = new ++ log s /\
        forall i,
          dispatches_of i new <= 1 /\
          (dispatches_of i new = 1 -> lastRun s' i = Some (effectUid s)) /\
          (lastRun s i = Some (effectUid s) -> dispatches_of i new = 0)
  | Throw _ s' =>
      exists new, log s' = new ++ log s /\
        forall i, dispatches_of i new <= 1
  | Diverge => False
  end.
Proof.
  intros Hw.
  rewrite (runEffects_unnested inst writes inner_set Hw).
  split; [reflexivity|].
  pose proof (total_runEffects inst type props oldProps s) as T.
  unfold runEffects in *. destruct (effects_of inst type) as [effects|].
  - unfold bind at 1 in T. unfold bind at 1. simpl in *.
    unfold bind in *. simpl in *.
    pose proof (run_props_once inst effects (effectUid s) oldProps
                  (match props with Some p => keys p | None => [] end) false
                  (set_effectUid (S (effectUid s)) s)) as H.
    destruct (run_props _ _ _ _ _ _ _) as [r s'|e s'|]; try congruence.
    + destruct H as (l & Hl & Hi). exists l. split; auto.
      intros i. specialize (Hi i).
      assert (E : stamp_ind (effectUid s) i
                    (set_effectUid (S (effectUid s)) s)
                  = stamp_ind (effectUid s) i s) by reflexivity.
      rewrite E in Hi. pose proof (stamp_ind_le (effectUid s) i s').
      repeat split.
      * lia.
      * intros D. apply stamp_ind_1. lia.
      * intros L. apply (stamp_ind_Some) in L. lia.
    + destruct H as (l & Hl & Hi). exists l. split; auto.
      intros i. specialize (Hi i). lia.
  - simpl. exists []. split; auto. intros i. repeat split; auto.
    discriminate.
Qed.

Lemma runEffects_dispatches_once_witness :
  exists s',
    Reentrant.runEffects Fixture.nested (fun _ _ => [])
      (Reentrant.set_at Fixture.nested (fun _ _ => []) 1 2)
      OBSERVE
      (Some [("a.x", Fixture.num 1); ("b", Fixture.num 2);
             ("a.y", Fixture.num 3)])
      (Some (Some [])) Fixture.nested_state = Ret true s' /\
    dispatches_of 0 (log s') = 1 /\ dispatches_of 1 (log s') = 1.
Proof.
  pose proof (@runEffects_dispatches_once SpecPath.spec_ops Fixture.nested
                (fun _ _ => [])
                (Reentrant.set_at Fixture.nested (fun _ _ => []) 1 2)
                OBSERVE
                (Some [("a.x", Fixture.num 1); ("b", Fixture.num 2);
                       ("a.y", Fixture.num 3)])
                (Some (Some [])) Fixture.nested_state
                (fun _ _ => eq_refl)) as (E & _).
  eexists. split.
  - rewrite E. vm_compute. reflexivity.
  - split; vm_compute; reflexivity.
Defined.

(** C9, the claim as stated, fails when a method writes.  The pass of the
    same instance when [ob], the observer of [b], calls
    [this.set('a.z', 1)]: [setProperties({'a.x': 1, b: 2, 'a.y': 3})] runs
    one OBSERVE pass, with the id 0, and that pass dispatches the observer
    effect of [a] twice, for [a.x] and again for [a.y]: between the two the
    call of [ob] has started a nested pass, with the id 1, which has
    dispatched the effect for [a.z] and stamped it with 1. *)
Lemma reentrant_observer_dispatches_twice :
  (exists s',
     Reentrant.runEffects Fixture.nested Fixture.nested_writes
       (Reentrant.set_at Fixture.nested Fixture.nested_writes 1 2)
       OBSERVE
       (Some [("a.x", Fixture.num 1); ("b", Fixture.num 2);
              ("a.y", Fixture.num 3)])
       (Some (Some [])) Fixture.nested_state = Ret true s' /\
     effectUid Fixture.nested_state = 0 /\
     dispatches_in 0 0 (log s') = 2 /\
     dispatches_in 1 0 (log s') = 1 /\
     dispatches_of 0 (log s') = 3) /\
  (exists s',
     Reentrant.setProperties Fixture.nested Fixture.nested_writes
       (Reentrant.set_at Fixture.nested Fixture.nested_writes 1 2) 1
       [("a.x", Fixture.num 1); ("b", Fixture.num 2); ("a.y", Fixture.num 3)]
       Fixture.nested_state = Ret tt s' /\
     dispatches_in 0 0 (log s') = 2 /\
     calls_of "seen" (log s')
     = [[Fixture.num 3; VUndef; VStr "a.y"];
        [Fixture.num 1; VUndef; VStr "a.z"];
        [Fixture.num 1; VUndef; VStr "a.x"]]).
Proof.
  split.
  - eexists. split; [vm_compute; reflexivity|].
    repeat split; vm_compute; reflexivity.
  - eexists. split; [vm_compute; reflexivity|].
    split; vm_compute; reflexivity.
Qed.

(** * Further properties of the pipeline *)


(** ** The observer of a property *)





(** ** [mixin] *)

Lemma lookup_not_in {A : Type} (k : string) (o : jsobj A) :
  ~ In k (keys o) -> lookup k o = None.
Proof.
  induction o as [|[k' v] o IH]; simpl; auto. intros H.
  destruct (String.eqb k k') eqn:E.
  - apply String.eqb_eq in E. subst. exfalso. apply H. now left.
  - apply IH. intros X. apply H. now right.
Qed.

Lemma lookup_in {A : Type} (k : string) (o : jsobj A) :
  In k (keys o) -> exists v, lookup k o = Some v.
Proof.
  induction o as [|[k' v] o IH]; simpl; [intros []|]. intros H.
  destruct (String.eqb k k') eqn:E; eauto.
  destruct H as [H|H]; auto. subst. now rewrite String.eqb_refl in E.
Qed.

Lemma has_key_assign_eq {A : Type} (k k' : string) (v : A) (o : jsobj A) :
  has_key k (assign k' v o) = String.eqb k k' || has_key k o.
Proof.
  unfold has_key. destruct (String.eqb k k') eqn:E.
  - apply String.eqb_eq in E. subst. now rewrite lookup_assign_same.
  - apply String.eqb_neq in E. now rewrite lookup_assign_other.
Qed.

Lemma keys_assign {A : Type} (k : string) (v : A) (o : jsobj A) :
  keys (assign k v o) = if has_key k o then keys o else keys o ++ [k].
Proof.
  unfold has_key, keys. induction o as [|[k' v'] o IH]; simpl; auto.
  destruct (String.eqb k k') eqn:E; simpl.
  - apply String.eqb_eq in E. now subst.
  - rewrite IH. now destruct (lookup k o).
Qed.

Lemma lookup_mixin_obj {A : Type} (k : string) (src t : jsobj A) :
  distinct_keys src ->
  lookup k (mixin_obj t src)
  = match lookup k src with Some v => Some v | None => lookup k t end.
Proof.
  unfold distinct_keys, mixin_obj. revert t.
  induction src as [|[k' v'] src IH]; simpl; intros t H; auto.
  inversion H as [|x l Hn Hd]; subst. rewrite IH by exact Hd.
  destruct (String.eqb k k') eqn:E.
  - apply String.eqb_eq in E. subst k'.
    rewrite (lookup_not_in _ _ Hn). apply lookup_assign_same.
  - apply String.eqb_neq in E. now rewrite lookup_assign_other.
Qed.

Lemma keys_mixin_obj {A : Type} (src t : jsobj A) :
  distinct_keys src ->
  keys (mixin_obj t src)
  = keys t ++ filter (fun k => negb (has_key k t)) (keys src).
Proof.
  unfold distinct_keys, mixin_obj. revert t.
  induction src as [|[k' v'] src IH]; simpl; intros t H.
  - now rewrite app_nil_r.
  - inversion H as [|x l Hn Hd]; subst. rewrite IH by exact Hd.
    rewrite keys_assign.
    assert (F : filter (fun k => negb (has_key k (assign k' v' t))) (keys src)
                = filter (fun k => negb (has_key k t)) (keys src)).
    { apply filter_ext_in. intros k Hk. rewrite has_key_assign_eq.
      destruct (String.eqb k k') eqn:E; auto.
      apply String.eqb_eq in E. subst. contradiction. }
    rewrite F. destruct (has_key k' t); simpl; auto.
    now rewrite <- app_assoc.
Qed.

(** X2.  [mixin(target, source)] copies every property of the source over
    the target, for objects whose keys are ordinary names: no array index,
    which JavaScript enumerates before the other keys whatever the order of
    insertion, and not [__proto__], which an assignment does not store.
    Afterwards a key reads the value of the source if the source has it,
    and its value in the target otherwise; the keys of the target keep
    their order and the new keys follow in the order of the source.  A
    [null] source leaves the target as it is, and copying into a [null]
    target throws unless the source has no property. *)
Theorem mixin_copies_source (t src : jsobj value) (s : State) :
  distinct_keys src ->
  (forall k, In k (keys t ++ keys src) ->
     parse_index k = None /\ k <> "__proto__") ->
  mixin (Some t) (Some src) s = Ret (Some (mixin_obj t src)) s /\
  (forall k,
     lookup k (mixin_obj t src)
     = match lookup k src with Some v => Some v | None => lookup k t end) /\
  keys (mixin_obj t src)
  = keys t ++ filter (fun k => negb (has_key k t)) (keys src) /\
  mixin (Some t) None s = Ret (Some t) s /\
  (src <> [] -> mixin None (Some src) s = Throw TypeError s) /\
  mixin None (Some []) s = Ret None s.
Proof.
  intros H _. split; [|split; [|split; [|split; [|split]]]].
  - destruct src; reflexivity.
  - intros k. now apply lookup_mixin_obj.
  - now apply keys_mixin_obj.
  - reflexivity.
  - destruct src; [congruence|reflexivity].
  - reflexivity.
Qed.

Lemma mixin_copies_source_witness :
  mixin_obj [("a", VStr "1"); ("b", VStr "2")]
            [("b", VStr "3"); ("c", VStr "4")]
  = [("a", VStr "1"); ("b", VStr "3"); ("c", VStr "4")] /\
  keys (mixin_obj [("a", VStr "1"); ("b", VStr "2")]
                  [("b", VStr "3"); ("c", VStr "4")])
  = ["a"; "b"; "c"].
Proof.
  destruct (@mixin_copies_source [("a", VStr "1"); ("b", VStr "2")]
              [("b", VStr "3"); ("c", VStr "4")] (new_state []))
    as (_ & _ & K & _).
  - repeat constructor; simpl; intuition discriminate.
  - intros k Hk. simpl in Hk.
    destruct Hk as [<-|[<-|[<-|[<-|[]]]]];
      (split; [reflexivity|discriminate]).
  - split; [reflexivity|exact K].
Defined.

(** ** Old values within a batch *)




(** ** Writes before [ready] *)

Lemma propertiesChanged_init {P : Path.Ops} (inst : Registry) fuel changed
  old s s' :
  __dataPending s = None ->
  _propertiesChanged inst fuel changed old s = Ret tt s' ->
  __dataInitialized s' = __dataInitialized s.
Proof.
  intros Hp H. unfold _propertiesChanged in H.
  apply bind_Ret in H. destruct H as (r & s1 & H1 & H).
  assert (A1 : __dataInitialized s1 = __dataInitialized s).
  { unfold runComputedEffects in H1. destruct (__computeEffects inst).
    - eapply compute_loop_pending in H1; [|exact Hp]. tauto.
    - now inversion H1. }
  destruct r as [[ch ol] co].
  apply bind_Ret in H. destruct H as (l & s2 & H2 & H).
  eapply post_Ret in H2; [|apply computeLinkedPaths_quiet].
  destruct l as [ch' co'].
  apply bind_Ret in H. destruct H as (props & s3 & H3 & H).
  eapply post_Ret in H3; [|apply notifyProperties_quiet].
  destruct H2 as (_ & _ & c2), H3 as (_ & _ & c3).
  destruct props as [[c o]|]; [|inversion H; subst; congruence].
  apply bind_Ret in H. destruct H as ([] & s4 & H4 & H).
  apply bind_Ret in H. destruct H as (x & s5 & H5 & H).
  inversion H; subst s5. clear H.
  apply runEffects_grows_id_clients in H5. destruct H5 as (_ & c5).
  unfold _flushClients in H4. rewrite bind_gets in H4.
  destruct (__dataPendingClients s3); inversion H4; subst s4;
    simpl in *; congruence.
Qed.

(** X4.  Before [ready] the writes are buffered.  On an instance that is
    not initialized, a write that is a change returns at once: [p] reads the
    new value and is recorded as pending, but no effect has run and the
    instance is still not initialized.  The first flush marks the instance
    initialized and calls the observer of [p]; it returns when [p] is all
    that is pending and no computed property depends on it. *)
Theorem writes_before_ready_are_buffered {P : Path.Ops} (inst : Registry)
  (fuel : nat) (p : string) (v : value) (s : State) :
  __dataInitialized s = false -> pending_has_old s ->
  _shouldPropChange p v (read p (__data s)) = true ->
  exists s1 c,
    _setProperty inst fuel p v s = Ret tt s1 /\
    log s1 = log s /\ __dataInitialized s1 = false /\
    __dataPending s1 = Some c /\ lookup p c = Some v /\
    read p (__data s1) = v /\
    (forall m fuel' fromAbove s2,
       observes inst p m -> stamps_below s ->
       _flushProperties inst fuel' fromAbove s1 = Ret tt s2 ->
       __dataInitialized s2 = true /\
       exists new, log s2 = new ++ log s /\ calls_of m new <> []) /\
    (__dataPending s = None -> feeds_nothing inst p = true ->
     observers_ready inst = true ->
     forall fuel' fromAbove,
       exists s2, _flushProperties inst (S fuel') fromAbove s1 = Ret tt s2).
Proof.
  intros Hi Ho Hc.
  destruct (@setPendingProperty_records P p v s Hc Ho)
    as (s1 & c & E & Ep & El & Er).
  pose proof E as F.
  eapply setPendingProperty_changed in F; [|exact Hc].
  destruct F as (_ & _ & L1 & U1 & G1 & I1 & A1).
  exists s1, c.
  assert (R : _setProperty inst fuel p v s = Ret tt s1).
  { unfold _setProperty. rewrite (bind_step _ _ _ E).
    unfold _invalidateProperties. rewrite bind_gets, I1, Hi. reflexivity. }
  split; [exact R|]. split; [exact G1|]. split; [congruence|].
  split; [exact Ep|]. split; [exact El|]. split; [exact Er|]. split.
  - intros m fuel' fromAbove s2 Hobs Hs H.
    split.
    + unfold _flushProperties in H. rewrite bind_gets in H.
      rewrite I1, Hi in H. unfold ready in H. rewrite bind_modify in H.
      rewrite bind_gets, bind_gets in H.
      cbn [__dataPending set_dataInitialized] in H. rewrite Ep in H.
      rewrite bind_modify in H.
      apply bind_Ret in H. destruct H as ([] & s3 & H3 & H).
      inversion H; subst s2. clear H.
      cbn [__dataInitialized set_dataFromAbove].
      unfold super_flushProperties in H3.
      rewrite bind_gets, bind_gets, bind_modify in H3.
      apply propertiesChanged_init in H3; [|reflexivity].
      exact H3.
    + eapply flushProperties_fires in H; eauto.
      * now rewrite G1 in H.
      * unfold has_key. now rewrite El.
      * eapply stamps_below_frame; eauto.
  - intros Hp Hf Hr fuel' fromAbove.
    eapply flushProperties_returns; eauto.
    rewrite (setPendingProperty_exact p v s Hc Hp) in E.
    inversion E; subst s1. reflexivity.
Qed.

Lemma writes_before_ready_are_buffered_witness :
  exists s1 s2,
    _setProperty Fixture.names 1 "tourists" (VStr "x") (new_state [])
    = Ret tt s1 /\
    log s1 = [] /\
    _flushProperties Fixture.names 1 false s1 = Ret tt s2 /\
    __dataInitialized s2 = true /\
    calls_of "_somePropChanged" (log s2) <> [].
Proof.
  destruct (@writes_before_ready_are_buffered SpecPath.spec_ops Fixture.names
              1 "tourists" (VStr "x") (new_state []))
    as (s1 & c & E & L & _ & _ & _ & _ & Hfl & Hret).
  - reflexivity.
  - intros H. exfalso. apply H. reflexivity.
  - vm_compute. reflexivity.
  - assert (F : feeds_nothing Fixture.names "tourists" = true)
      by (vm_compute; reflexivity).
    assert (R : observers_ready Fixture.names = true)
      by (vm_compute; reflexivity).
    destruct (Hret eq_refl F R 0 false) as (s2 & E2).
    exists s1, s2. split; [exact E|]. split; [exact L|].
    split; [exact E2|].
    destruct (Hfl "_somePropChanged" 1 false s2) as (I & new & Ln & N).
    + apply names_observes_tourists.
    + apply stamps_below_new.
    + exact E2.
    + split; [exact I|]. rewrite Ln. simpl. rewrite app_nil_r. exact N.
Defined.

(** ** Linked paths *)

Lemma delete_assign_fresh {A : Type} (k : string) (v : A) (o : jsobj A) :
  lookup k o = None -> delete k (assign k v o) = o.
Proof.
  induction o as [|[k' v'] o IH]; simpl; intros H.
  - now rewrite String.eqb_refl.
  - destruct (String.eqb k k') eqn:E; [discriminate|]. simpl.
    rewrite E. now rewrite IH.
Qed.

Lemma lookup_delete_other {A : Type} (k k' : string) (o : jsobj A) :
  k <> k' -> lookup k (delete k' o) = lookup k o.
Proof.
  intros Hne. induction o as [|[k2 v2] o IH]; simpl; auto.
  destruct (String.eqb k' k2) eqn:E; simpl.
  - apply String.eqb_eq in E. subst k2.
    apply String.eqb_neq in Hne. now rewrite Hne.
  - now rewrite IH.
Qed.

Lemma lookup_delete_same {A : Type} (k : string) (o : jsobj A) :
  distinct_keys o -> lookup k (delete k o) = None.
Proof.
  unfold distinct_keys. induction o as [|[k' v'] o IH]; simpl; auto.
  intros H. inversion H as [|x l Hn Hd]; subst.
  destruct (String.eqb k k') eqn:E; simpl.
  - apply String.eqb_eq in E. subst. now apply lookup_not_in.
  - rewrite E. now apply IH.
Qed.

Lemma distinct_keys_assign {A : Type} (k : string) (v : A) (o : jsobj A) :
  distinct_keys o -> distinct_keys (assign k v o).
Proof.
  unfold distinct_keys. intros H. rewrite keys_assign.
  destruct (has_key k o) eqn:E; auto.
  apply NoDup_app; auto.
  - repeat constructor. intros [].
  - intros x Hx [<-|[]]. apply lookup_in in Hx. destruct Hx as (w & Hw).
    unfold has_key in E. now rewrite Hw in E.
Qed.

(** X5.  [linkPaths(to, from)] with a non-empty [from] records the link:
    afterwards [to] is linked to [from] and every other link is as before.
    [unlinkPaths(to)] removes it again: [to] is no longer linked, the other
    links stay, and a [to] that was not linked before leaves the map of
    links as it was.  [linkPaths] with an empty [from] throws, after it has
    created the map of links. *)
Theorem linkPaths_then_unlinkPaths (to from : string) (s : State) :
  from <> "" ->
  match __dataLinkedPaths s with
  | Some l => distinct_keys l
  | None => True
  end ->
  exists s1 s2 l1 l2,
    linkPaths to from s = Ret tt s1 /\
    __dataLinkedPaths s1 = Some l1 /\
    lookup to l1 = Some from /\
    (forall k, k <> to ->
       lookup k l1 = match __dataLinkedPaths s with
                     | Some l => lookup k l
                     | None => None
                     end) /\
    unlinkPaths to s1 = Ret tt s2 /\
    __dataLinkedPaths s2 = Some l2 /\
    lookup to l2 = None /\
    (forall k, k <> to -> lookup k l2 = lookup k l1) /\
    (forall l, __dataLinkedPaths s = Some l -> lookup to l = None ->
       l2 = l) /\
    (exists s3, linkPaths to "" s = Throw TypeError s3 /\
       __dataLinkedPaths s3 <> None).
Proof.
  intros Hf Hd.
  set (l := match __dataLinkedPaths s with Some l => l | None => [] end).
  assert (Dl : distinct_keys l).
  { unfold l. destruct (__dataLinkedPaths s); [exact Hd|constructor]. }
  assert (E1 : linkPaths to from s
               = Ret tt (set_dataLinkedPaths (Some (assign to from l)) s)).
  { unfold linkPaths. rewrite bind_gets, bind_modify. fold l.
    apply String.eqb_neq in Hf. rewrite Hf. reflexivity. }
  exists (set_dataLinkedPaths (Some (assign to from l)) s),
    (set_dataLinkedPaths (Some (delete to (assign to from l))) s),
    (assign to from l), (delete to (assign to from l)).
  split; [exact E1|]. split; [reflexivity|].
  split; [apply lookup_assign_same|]. split.
  { intros k Hk. rewrite lookup_assign_other by exact Hk.
    unfold l. now destruct (__dataLinkedPaths s). }
  split; [reflexivity|]. split; [reflexivity|].
  split; [apply lookup_delete_same; now apply distinct_keys_assign|].
  split; [intros k Hk; now apply lookup_delete_other|]. split.
  - intros l0 E N. unfold l. rewrite E. now apply delete_assign_fresh.
  - eexists. split; [reflexivity|]. discriminate.
Qed.

Lemma linkPaths_then_unlinkPaths_witness :
  exists s1 s2,
    linkPaths "a" "b" (set_dataLinkedPaths (Some [("c", "d")]) (new_state []))
    = Ret tt s1 /\
    __dataLinkedPaths s1 = Some [("c", "d"); ("a", "b")] /\
    unlinkPaths "a" s1 = Ret tt s2 /\
    __dataLinkedPaths s2 = Some [("c", "d")].
Proof.
  destruct (@linkPaths_then_unlinkPaths "a" "b"
              (set_dataLinkedPaths (Some [("c", "d")]) (new_state [])))
    as (s1 & s2 & l1 & l2 & E1 & L1 & _ & _ & E2 & L2 & _ & _ & R & _).
  - discriminate.
  - repeat constructor. intros [].
  - exists s1, s2. split; [exact E1|].
    assert (X : l2 = [("c", "d")]) by (apply R; reflexivity).
    subst l2. split; [|split; [exact E2|exact L2]].
    vm_compute in E1. inversion E1. reflexivity.
Defined.


(** ** The registry the constructor builds *)

Lemma forallb_assign {A : Type} (f : string * A -> bool) (k : string) (v : A)
  (o : jsobj A) :
  forallb f o = true -> f (k, v) = true -> forallb f (assign k v o) = true.
Proof.
  intros Ho Hv. induction o as [|[k' v'] o IH]; simpl in *.
  - now rewrite Hv.
  - apply andb_prop in Ho. destruct Ho as [H1 H2].
    destruct (String.eqb k k'); simpl.
    + now rewrite Hv, H2.
    + now rewrite H1, IH.
Qed.

Lemma observer_ready_infos (r r' : Registry) (o : option Effect) more :
  infos r' = infos r ++ more ->
  observer_ready r o = true -> observer_ready r' o = true.
Proof.
  unfold observer_ready. intros E. destruct o as [fx|]; auto.
  destruct (fx_fn fx); auto. destruct (fx_info fx) as [i|]; auto.
  destruct (nth_error (infos r) i) eqn:N; [|discriminate].
  rewrite E, nth_error_app1, N; auto.
  apply nth_error_Some. congruence.
Qed.

Lemma observers_ready_infos (r r' : Registry) more :
  infos r' = infos r ++ more ->
  __observeEffects r' = __observeEffects r ->
  observers_ready r = true -> observers_ready r' = true.
Proof.
  unfold observers_ready. intros E ->.
  destruct (__observeEffects r) as [em|]; auto. intros H.
  apply forallb_forall. intros kv Hin.
  eapply forallb_forall in H; [|exact Hin].
  apply forallb_forall. intros o Ho.
  eapply forallb_forall in H; [|exact Ho].
  eapply observer_ready_infos; eauto.
Qed.

Section Built.

Context {P : Path.Ops}.

Lemma effects_of_set_same t m r : effects_of (set_effects t m r) t = m.
Proof. destruct t; reflexivity. Qed.

Lemma effects_of_set_other t t' m r :
  t <> t' -> effects_of (set_effects t m r) t' = effects_of r t'.
Proof. destruct t, t'; try congruence; reflexivity. Qed.

Lemma effects_of_accessor p ro r t :
  effects_of (_createPropertyAccessor p ro r) t = effects_of r t.
Proof. destruct t; reflexivity. Qed.

Lemma effects_of_push_same t prop e r :
  effects_of (push_effect t prop e r) t
  = Some (assign prop
            (match lookup prop (ensureOwnEffectMap t r) with
             | Some l => l
             | None => []
             end ++ [e]) (ensureOwnEffectMap t r)).
Proof. unfold push_effect. apply effects_of_set_same. Qed.

Lemma effects_of_push_other t t' prop e r :
  t <> t' -> effects_of (push_effect t prop e r) t' = effects_of r t'.
Proof. intros H. unfold push_effect. now apply effects_of_set_other. Qed.

Lemma set_effects_rest t m r :
  accessors (set_effects t m r) = accessors r /\
  infos (set_effects t m r) = infos r /\
  methods (set_effects t m r) = methods r /\
  setters (set_effects t m r) = setters r.
Proof. destruct t; repeat split. Qed.

Lemma push_effect_rest t prop e r :
  accessors (push_effect t prop e r) = accessors r /\
  infos (push_effect t prop e r) = infos r /\
  methods (push_effect t prop e r) = methods r /\
  setters (push_effect t prop e r) = setters r.
Proof. unfold push_effect. apply set_effects_rest. Qed.

Lemma hasEffect_ensure r k t :
  has_key k (ensureOwnEffectMap t r) = _hasPropertyEffect r k t.
Proof.
  unfold ensureOwnEffectMap, _hasPropertyEffect.
  now destruct (effects_of r t).
Qed.

Lemma hasEffect_push_same t prop e r k :
  _hasPropertyEffect (push_effect t prop e r) k t
  = String.eqb k prop || _hasPropertyEffect r k t.
Proof.
  unfold _hasPropertyEffect at 1. rewrite effects_of_push_same.
  rewrite has_key_assign_eq. now rewrite hasEffect_ensure.
Qed.

Lemma hasEffect_push_other t t' prop e r k :
  t <> t' ->
  _hasPropertyEffect (push_effect t prop e r) k t'
  = _hasPropertyEffect r k t'.
Proof.
  intros H. unfold _hasPropertyEffect. now rewrite effects_of_push_other.
Qed.

Lemma addPropertyEffect_eq path type effect r :
  _addPropertyEffect path type effect r
  = push_effect type (Path.root path)
      (match effect with
       | Some (fn, info) => Some (Build_Effect fn info path)
       | None => None
       end)
      (match effect with
       | Some (fn, info) =>
           push_effect ANY (Path.root path)
             (Some (Build_Effect fn info path)) (with_entry path type r)
       | None => with_entry path type r
       end).
Proof.
  unfold _addPropertyEffect, with_entry. now destruct effect as [[fn info]|].
Qed.

Lemma with_entry_other path type r t :
  t <> ANY -> effects_of (with_entry path type r) t = effects_of r t.
Proof.
  intros H. unfold with_entry.
  destruct (lookup (Path.root path) (ensureOwnEffectMap ANY r));
    rewrite ?effects_of_accessor, effects_of_set_other; auto.
Qed.

Lemma with_entry_any path type r k :
  _hasPropertyEffect (with_entry path type r) k ANY
  = String.eqb k (Path.root path) || _hasPropertyEffect r k ANY.
Proof.
  unfold with_entry, _hasPropertyEffect at 1.
  destruct (lookup (Path.root path) (ensureOwnEffectMap ANY r)) eqn:El;
    rewrite ?effects_of_accessor, effects_of_set_same.
  - rewrite hasEffect_ensure.
    destruct (String.eqb k (Path.root path)) eqn:E; auto.
    apply String.eqb_eq in E. subst k.
    rewrite <- hasEffect_ensure. unfold has_key. now rewrite El.
  - now rewrite has_key_assign_eq, hasEffect_ensure.
Qed.

Lemma with_entry_rest path type r :
  infos (with_entry path type r) = infos r /\
  methods (with_entry path type r) = methods r /\
  setters (with_entry path type r) = setters r.
Proof.
  unfold with_entry.
  destruct (lookup (Path.root path) (ensureOwnEffectMap ANY r)); simpl;
    destruct (set_effects_rest ANY
                (Some (ensureOwnEffectMap ANY r)) r) as (_ & a & b & c);
    destruct (set_effects_rest ANY
                (Some (assign (Path.root path) []
                         (ensureOwnEffectMap ANY r))) r) as (_ & a' & b' & c');
    auto.
Qed.

(** What [_addPropertyEffect] leaves alone. *)
Lemma addPropertyEffect_rest path type effect r :
  infos (_addPropertyEffect path type effect r) = infos r /\
  methods (_addPropertyEffect path type effect r) = methods r /\
  setters (_addPropertyEffect path type effect r) = setters r.
Proof.
  rewrite addPropertyEffect_eq.
  destruct (with_entry_rest path type r) as (a & b & c).
  destruct effect as [[fn info]|].
  - match goal with
    | |- context [push_effect type ?p ?e ?r2] =>
        destruct (push_effect_rest type p e r2) as (_ & a2 & b2 & c2)
    end.
    match goal with
    | _ : context [push_effect ANY ?p ?e ?r1] |- _ =>
        destruct (push_effect_rest ANY p e r1) as (_ & a1 & b1 & c1)
    end.
    repeat split; congruence.
  - match goal with
    | |- context [push_effect type ?p ?e ?r2] =>
        destruct (push_effect_rest type p e r2) as (_ & a2 & b2 & c2)
    end.
    repeat split; congruence.
Qed.

Lemma addPropertyEffect_other path type effect r t :
  t <> ANY -> t <> type ->
  effects_of (_addPropertyEffect path type effect r) t = effects_of r t.
Proof.
  intros Ha Ht. rewrite addPropertyEffect_eq.
  rewrite effects_of_push_other by congruence.
  destruct effect as [[fn info]|].
  - rewrite effects_of_push_other by congruence.
    now apply with_entry_other.
  - now apply with_entry_other.
Qed.

Lemma addPropertyEffect_typed path type fn info r :
  type <> ANY ->
  effects_of (_addPropertyEffect path type (Some (fn, info)) r) type
  = Some (assign (Path.root path)
            (match lookup (Path.root path) (ensureOwnEffectMap type r) with
             | Some l => l
             | None => []
             end ++ [Some (Build_Effect fn info path)])
            (ensureOwnEffectMap type r)).
Proof.
  intros Ht. rewrite addPropertyEffect_eq, effects_of_push_same.
  assert (E : ensureOwnEffectMap type
                (push_effect ANY (Path.root path)
                   (Some (Build_Effect fn info path)) (with_entry path type r))
              = ensureOwnEffectMap type r).
  { unfold ensureOwnEffectMap.
    rewrite effects_of_push_other by congruence.
    now rewrite with_entry_other. }
  now rewrite E.
Qed.

(** The keys of the map of all effects, and of the map of the type, after
    [_addPropertyEffect]. *)
Lemma addPropertyEffect_any path type effect r k :
  type <> ANY ->
  _hasPropertyEffect (_addPropertyEffect path type effect r) k ANY
  = String.eqb k (Path.root path) || _hasPropertyEffect r k ANY.
Proof.
  intros Ht. rewrite addPropertyEffect_eq.
  rewrite hasEffect_push_other by exact Ht.
  destruct effect as [[fn info]|].
  - rewrite hasEffect_push_same, with_entry_any.
    now destruct (String.eqb k (Path.root path)).
  - apply with_entry_any.
Qed.

Lemma addPropertyEffect_has path type effect r k :
  type <> ANY ->
  _hasPropertyEffect (_addPropertyEffect path type effect r) k type
  = String.eqb k (Path.root path) || _hasPropertyEffect r k type.
Proof.
  intros Ht. rewrite addPropertyEffect_eq, hasEffect_push_same.
  f_equal. unfold _hasPropertyEffect.
  destruct effect as [[fn info]|].
  - rewrite effects_of_push_other by congruence.
    now rewrite with_entry_other.
  - now rewrite with_entry_other.
Qed.

Lemma addPropertyEffect_accessors path type effect r k :
  accessors_match r ->
  has_key k (accessors (_addPropertyEffect path type effect r))
  = String.eqb k (Path.root path) || has_key k (accessors r).
Proof.
  intros Hinv. rewrite addPropertyEffect_eq.
  assert (A : has_key k (accessors (with_entry path type r))
              = String.eqb k (Path.root path) || has_key k (accessors r)).
  { unfold with_entry.
    destruct (lookup (Path.root path) (ensureOwnEffectMap ANY r)) eqn:El.
    - destruct (set_effects_rest ANY (Some (ensureOwnEffectMap ANY r)) r)
        as (-> & _).
      destruct (String.eqb k (Path.root path)) eqn:E; auto.
      apply String.eqb_eq in E. subst k.
      rewrite Hinv, <- hasEffect_ensure. unfold has_key. now rewrite El.
    - unfold _createPropertyAccessor. cbn [accessors].
      rewrite has_key_assign_eq.
      now destruct (set_effects_rest ANY
                      (Some (assign (Path.root path) []
                               (ensureOwnEffectMap ANY r))) r) as (-> & _). }
  destruct effect as [[fn info]|].
  - match goal with
    | |- context [push_effect type ?p ?e ?r2] =>
        destruct (push_effect_rest type p e r2) as (-> & _)
    end.
    match goal with
    | |- context [push_effect ANY ?p ?e ?r1] =>
        destruct (push_effect_rest ANY p e r1) as (-> & _)
    end.
    exact A.
  - match goal with
    | |- context [push_effect type ?p ?e ?r2] =>
        destruct (push_effect_rest type p e r2) as (-> & _)
    end.
    exact A.
Qed.

End Built.


Section Constructor.

Context {P : Path.Ops}.

Lemma accessors_match_add path type effect r :
  type <> ANY -> accessors_match r ->
  accessors_match (_addPropertyEffect path type effect r).
Proof.
  intros Ht H q.
  rewrite addPropertyEffect_accessors by exact H.
  rewrite addPropertyEffect_any by exact Ht. now rewrite H.
Qed.

Lemma keeps_refl r : keeps r r.
Proof. repeat split; auto. Qed.

Lemma keeps_trans r1 r2 r3 : keeps r1 r2 -> keeps r2 r3 -> keeps r1 r3.
Proof.
  intros (a1 & b1 & c1 & d1 & e1 & f1) (a2 & b2 & c2 & d2 & e2 & f2).
  repeat split; try congruence; auto.
Qed.

Lemma keeps_add path type effect r :
  type = COMPUTE \/ type = READ_ONLY ->
  keeps r (_addPropertyEffect path type effect r).
Proof.
  intros Ht. destruct (addPropertyEffect_rest path type effect r)
    as (a & b & c).
  assert (N : type <> ANY) by (destruct Ht; subst; discriminate).
  split; [exact a|]. split.
  { change (effects_of (_addPropertyEffect path type effect r) OBSERVE
            = effects_of r OBSERVE).
    apply addPropertyEffect_other; destruct Ht; subst; discriminate. }
  split; [exact c|]. split; [exact b|]. split.
  { now apply accessors_match_add. }
  intros k Hk. destruct Ht as [-> | ->].
  - unfold _hasPropertyEffect.
    rewrite addPropertyEffect_other by discriminate. exact Hk.
  - rewrite addPropertyEffect_has by discriminate.
    rewrite Hk. apply orb_true_r.
Qed.

Lemma keeps_fold_args fn info args r :
  keeps r
    (fold_left
       (fun acc arg =>
          if arg_literal arg then acc
          else _addPropertyEffect (arg_name arg) COMPUTE
                 (Some (fn, Some info)) acc) args r).
Proof.
  revert r. induction args as [|a args IH]; intros r; cbn [fold_left].
  - apply keeps_refl.
  - eapply keeps_trans; [|apply IH].
    destruct (arg_literal a); [apply keeps_refl|].
    apply keeps_add. now left.
Qed.

Lemma createMethodEffect_compute sig methodInfo r :
  exists r0,
    infos r0 = infos r ++ [Build_Info (sig_methodName sig)
                             (Some (sig_args sig)) methodInfo false] /\
    __observeEffects r0 = __observeEffects r /\
    setters r0 = setters r /\ methods r0 = methods r /\
    (accessors_match r -> accessors_match r0) /\
    (forall k, _hasPropertyEffect r0 k READ_ONLY
               = _hasPropertyEffect r k READ_ONLY) /\
    keeps r0
      (createMethodEffect sig COMPUTE runComputedEffect methodInfo false r).
Proof.
  unfold createMethodEffect, new_info. eexists.
  split; [|split; [|split; [|split; [|split; [|split]]]]];
    [| | | | | |destruct (sig_static sig);
                 [apply keeps_add; now left|apply keeps_fold_args]];
    try reflexivity.
  intros H q. apply H.
Qed.

Lemma createReadOnlyProperty_keeps property protectedSetter r :
  exists r1,
    keeps r r1 /\
    _hasPropertyEffect r1 (Path.root property) READ_ONLY = true /\
    __propertyEffects (_createReadOnlyProperty property protectedSetter r)
    = __propertyEffects r1 /\
    __readOnly (_createReadOnlyProperty property protectedSetter r)
    = __readOnly r1 /\
    __observeEffects (_createReadOnlyProperty property protectedSetter r)
    = __observeEffects r1 /\
    accessors (_createReadOnlyProperty property protectedSetter r)
    = accessors r1 /\
    infos (_createReadOnlyProperty property protectedSetter r) = infos r1 /\
    methods (_createReadOnlyProperty property protectedSetter r)
    = methods r1 /\
    setters (_createReadOnlyProperty property protectedSetter r)
    = if protectedSetter then setters r1 ++ [property] else setters r1.
Proof.
  unfold _createReadOnlyProperty.
  exists (_addPropertyEffect property READ_ONLY None r).
  split; [apply keeps_add; now right|]. split.
  { rewrite addPropertyEffect_has by discriminate.
    now rewrite String.eqb_refl. }
  destruct protectedSetter; repeat split.
Qed.

Lemma extends_refl r : extends r r.
Proof. repeat split; auto. Qed.

Lemma extends_trans r1 r2 r3 :
  extends r1 r2 -> extends r2 r3 -> extends r1 r3.
Proof.
  intros (a1 & b1 & c1 & d1 & e1) (a2 & b2 & c2 & d2 & e2).
  repeat split; auto. congruence.
Qed.

Lemma keeps_extends r r' : keeps r r' -> extends r r'.
Proof.
  intros (a & b & c & d & e & f). repeat split; auto.
  - apply observers_ready_infos with (more := []); auto.
    now rewrite app_nil_r.
  - intros n. now rewrite c.
Qed.

Lemma createComputedProperty_extends property sig r :
  extends r (_createComputedProperty property sig r) /\
  setters (_createComputedProperty property sig r) = setters r.
Proof.
  unfold _createComputedProperty.
  destruct (createMethodEffect_compute sig (Some property) r)
    as (r0 & I & O & S & M & A & R & K).
  split.
  - eapply extends_trans; [|apply keeps_extends; exact K].
    repeat split; auto.
    + intros H. eapply observers_ready_infos; eauto.
    + intros k. now rewrite R.
    + intros n. now rewrite S.
  - destruct K as (_ & _ & c & _). congruence.
Qed.

Lemma createReadOnlyProperty_extends property protectedSetter r :
  extends r (_createReadOnlyProperty property protectedSetter r) /\
  _hasPropertyEffect (_createReadOnlyProperty property protectedSetter r)
    (Path.root property) READ_ONLY = true /\
  (forall n,
     In n (setters (_createReadOnlyProperty property protectedSetter r)) ->
     In n (setters r) \/ (n = property /\ protectedSetter = true)).
Proof.
  destruct (createReadOnlyProperty_keeps property protectedSetter r)
    as (r1 & K & Hro & Ea & Er & Eo & Ec & Ei & Em & Es).
  pose proof K as (k1 & k2 & k3 & k4 & k5 & k6).
  split; [|split].
  - repeat split.
    + intros H q. unfold _hasPropertyEffect, effects_of.
      rewrite Ec, Ea. now apply k5.
    + intros H. unfold observers_ready in *. rewrite Eo, k2.
      destruct (__observeEffects r) as [em|]; auto.
      apply forallb_forall. intros kv Hin.
      eapply forallb_forall in H; [|exact Hin].
      apply forallb_forall. intros o Ho.
      eapply forallb_forall in H; [|exact Ho].
      eapply observer_ready_infos with (more := []); eauto.
      rewrite app_nil_r. congruence.
    + intros k Hk. unfold _hasPropertyEffect, effects_of. rewrite Er.
      now apply k6.
    + intros n Hn. rewrite Es, k3.
      destruct protectedSetter; auto. apply in_or_app. now left.
    + congruence.
  - unfold _hasPropertyEffect, effects_of. now rewrite Er.
  - intros n Hn. rewrite Es, k3 in Hn. destruct protectedSetter; auto.
    apply in_app_or in Hn. destruct Hn as [Hn|[<-|[]]]; auto.
Qed.

Lemma createObservedProperty_extends property methodName r :
  extends r (_createObservedProperty property methodName r) /\
  setters (_createObservedProperty property methodName r) = setters r.
Proof.
  unfold _createObservedProperty, new_info.
  set (r0 := Build_Registry (__propertyEffects r) (__computeEffects r)
               (__observeEffects r) (__readOnly r) (accessors r)
               (infos r ++ [Build_Info methodName None None false])
               (methods r) (setters r)).
  destruct (addPropertyEffect_rest property OBSERVE
              (Some (runObserverEffect, Some (length (infos r)))) r0)
    as (a & b & c).
  split; [|exact c].
  repeat split.
  - intros H. apply accessors_match_add; [discriminate|].
    intros q. apply H.
  - intros H.
    assert (H0 : observers_ready r0 = true).
    { apply observers_ready_infos with (r := r)
        (more := [Build_Info methodName None None false]); auto. }
    unfold observers_ready.
    change (__observeEffects
              (_addPropertyEffect property OBSERVE
                 (Some (runObserverEffect, Some (length (infos r)))) r0))
      with (effects_of
              (_addPropertyEffect property OBSERVE
                 (Some (runObserverEffect, Some (length (infos r)))) r0)
              OBSERVE).
    rewrite addPropertyEffect_typed by discriminate.
    assert (R : forall o, observer_ready r0 o = true ->
                observer_ready
                  (_addPropertyEffect property OBSERVE
                     (Some (runObserverEffect, Some (length (infos r)))) r0)
                  o = true).
    { intros o. apply observer_ready_infos with (more := []).
      now rewrite app_nil_r. }
    unfold observers_ready in H0. unfold ensureOwnEffectMap, effects_of.
    apply forallb_assign.
    + destruct (__observeEffects r0) as [em|]; [|reflexivity].
      apply forallb_forall. intros kv Hin.
      eapply forallb_forall in H0; [|exact Hin].
      apply forallb_forall. intros o Ho.
      eapply forallb_forall in H0; [|exact Ho]. now apply R.
    + cbn [snd]. rewrite forallb_app. apply andb_true_intro. split.
      * destruct (__observeEffects r0) as [em|]; [|reflexivity].
        destruct (lookup (Path.root property) em) as [l|] eqn:El;
          [|reflexivity].
        apply forallb_forall. intros o Ho.
        apply R. eapply forallb_forall; [|exact Ho].
        eapply lookup_forallb with (f := forallb (observer_ready r0)); eauto.
      * cbn [forallb]. rewrite andb_true_r. apply R.
        unfold observer_ready, r0. cbn [fx_fn fx_info infos].
        rewrite nth_error_app2 by lia. now rewrite Nat.sub_diag.
  - intros k Hk. unfold _hasPropertyEffect.
    rewrite addPropertyEffect_other by discriminate. exact Hk.
  - intros n Hn. now rewrite c.
  - exact b.
Qed.

Lemma createPropertyFromConfig_extends name cfg r :
  extends r (_createPropertyFromConfig name cfg r) /\
  (Path.root name = name ->
   cfg_computed cfg <> None \/ cfg_readOnly cfg = true ->
   _hasReadOnlyEffect (_createPropertyFromConfig name cfg r) name = true) /\
  (forall n,
     In n (setters (_createPropertyFromConfig name cfg r)) ->
     In n (setters r) \/
     (n = name /\ cfg_computed cfg = None /\ cfg_readOnly cfg = true)).
Proof.
  unfold _createPropertyFromConfig.
  set (r1 := match cfg_computed cfg with
             | Some sig =>
                 if _hasReadOnlyEffect r name then r
                 else _createComputedProperty name sig r
             | None => r
             end).
  set (ro := match cfg_computed cfg with
             | Some _ => true
             | None => cfg_readOnly cfg
             end).
  set (r2 := if ro && negb (_hasReadOnlyEffect r1 name)
             then _createReadOnlyProperty name
                    (match cfg_computed cfg with
                     | Some _ => false
                     | None => true
                     end) r1
             else r1).
  assert (E1 : extends r r1 /\ setters r1 = setters r).
  { unfold r1. destruct (cfg_computed cfg) as [sig|].
    - destruct (_hasReadOnlyEffect r name).
      + split; [apply extends_refl|reflexivity].
      + apply createComputedProperty_extends.
    - split; [apply extends_refl|reflexivity]. }
  destruct E1 as (E1 & S1).
  assert (E2 : extends r1 r2 /\
               (Path.root name = name -> ro = true ->
                _hasReadOnlyEffect r2 name = true) /\
               (forall n, In n (setters r2) ->
                  In n (setters r1) \/
                  (n = name /\ cfg_computed cfg = None /\
                   cfg_readOnly cfg = true))).
  { unfold r2. destruct (ro && negb (_hasReadOnlyEffect r1 name)) eqn:B.
    - apply andb_prop in B. destruct B as [B1 B2].
      destruct (createReadOnlyProperty_extends name
                  (match cfg_computed cfg with
                   | Some _ => false
                   | None => true
                   end) r1) as (X & Y & Z).
      split; [exact X|]. split.
      + intros Hr _. unfold _hasReadOnlyEffect. now rewrite Hr in Y.
      + intros n Hn. apply Z in Hn. destruct Hn as [Hn|[-> Hn]]; auto.
        right. unfold ro in B1.
        destruct (cfg_computed cfg); [discriminate|]. auto.
    - split; [apply extends_refl|]. split; [|auto].
      intros _ Hro. rewrite Hro in B. simpl in B.
      now apply negb_false_iff in B. }
  destruct E2 as (E2 & R2 & S2).
  assert (E3 : extends r2
                 (match cfg_observer cfg with
                  | Some methodName =>
                      _createObservedProperty name methodName r2
                  | None => r2
                  end) /\
               setters (match cfg_observer cfg with
                        | Some methodName =>
                            _createObservedProperty name methodName r2
                        | None => r2
                        end) = setters r2).
  { destruct (cfg_observer cfg) as [m|].
    - apply createObservedProperty_extends.
    - split; [apply extends_refl|reflexivity]. }
  destruct E3 as (E3 & S3).
  split; [|split].
  - eapply extends_trans; [exact E1|].
    eapply extends_trans; [exact E2|exact E3].
  - intros Hr Hc. destruct E3 as (_ & _ & M & _). apply M.
    apply R2; auto. unfold ro. destruct (cfg_computed cfg); auto.
    destruct Hc; congruence.
  - intros n Hn. rewrite S3 in Hn. apply S2 in Hn. now rewrite S1 in Hn.
Qed.

Lemma finalizeConfig_extends props r : extends r (_finalizeConfig props r).
Proof.
  unfold _finalizeConfig. revert r.
  induction props as [|[name cfg] props IH]; intros r; cbn [fold_left].
  - apply extends_refl.
  - eapply extends_trans; [|apply IH].
    apply createPropertyFromConfig_extends.
Qed.

End Constructor.

Lemma finalizeConfig_guards {P : Path.Ops} props r name cfg :
  In (name, cfg) props -> Path.root name = name ->
  cfg_computed cfg <> None \/ cfg_readOnly cfg = true ->
  _hasReadOnlyEffect (_finalizeConfig props r) name = true.
Proof.
  intros Hin Hr Hc. revert r.
  induction props as [|[n c] props IH]; intros r; [destruct Hin|].
  unfold _finalizeConfig. cbn [fold_left fst snd].
  destruct Hin as [E|Hin].
  - inversion E; subst n c.
    destruct (createPropertyFromConfig_extends name cfg r) as (_ & G & _).
    destruct (finalizeConfig_extends props
                (_createPropertyFromConfig name cfg r))
      as (_ & _ & M & _).
    apply M. now apply G.
  - now apply IH.
Qed.

Lemma finalizeConfig_setters {P : Path.Ops} props r n :
  In n (setters (_finalizeConfig props r)) ->
  In n (setters r) \/
  exists cfg, In (n, cfg) props /\ cfg_computed cfg = None /\
              cfg_readOnly cfg = true.
Proof.
  revert r. induction props as [|[name c] props IH]; intros r Hn.
  - now left.
  - unfold _finalizeConfig in Hn. cbn [fold_left fst snd] in Hn.
    apply IH in Hn. destruct Hn as [Hn|(cfg & Hin & Hc)].
    + destruct (createPropertyFromConfig_extends name c r) as (_ & _ & S).
      apply S in Hn. destruct Hn as [Hn|(-> & Hc1 & Hc2)]; [now left|].
      right. exists c. split; [now left|auto].
    + right. exists cfg. split; [now right|auto].
Qed.

(** X6. The registry the constructor [Store] builds, for every
    configuration and every table of methods: each effect stored under
    OBSERVE is a call of [runObserverEffect] whose info object exists, and
    an accessor is defined for exactly the properties that have an
    effect. *)
Theorem store_registry_is_well_formed {P : Path.Ops}
  (props : jsobj PropertyConfig) (mt : jsobj (list value -> value)) :
  observers_ready (Store props mt) = true /\
  accessors_match (Store props mt).
Proof.
  unfold Store.
  destruct (finalizeConfig_extends props
              (Build_Registry None None None None [] [] mt []))
    as (A & B & _).
  split.
  - apply B. reflexivity.
  - apply A. intros q. reflexivity.
Qed.

(** X7. In a store built by the constructor, a property configured as
    computed or as read-only, whose name is a plain property name, has a
    READ_ONLY effect, whatever else the configuration holds; and a
    protected setter is defined only for a property configured as read-only
    and not computed. *)
Theorem store_guards_computed_and_read_only {P : Path.Ops}
  (props : jsobj PropertyConfig) (mt : jsobj (list value -> value)) :
  (forall name cfg,
     In (name, cfg) props -> Path.root name = name ->
     cfg_computed cfg <> None \/ cfg_readOnly cfg = true ->
     _hasReadOnlyEffect (Store props mt) name = true) /\
  (forall n,
     In n (setters (Store props mt)) ->
     exists cfg, In (n, cfg) props /\ cfg_computed cfg = None /\
                 cfg_readOnly cfg = true).
Proof.
  split.
  - intros name cfg Hin Hr Hc. unfold Store.
    now apply finalizeConfig_guards with (cfg := cfg).
  - intros n Hn. unfold Store in Hn. apply finalizeConfig_setters in Hn.
    destruct Hn as [[]|Hn]. exact Hn.
Qed.

Lemma store_guards_computed_and_read_only_witness :
  _hasReadOnlyEffect Fixture.names "fullName" = true /\
  exists cfg,
    In ("ro", cfg) [("ro", Build_PropertyConfig true None (Some "changed"))]
    /\ cfg_computed cfg = None /\ cfg_readOnly cfg = true.
Proof.
  split.
  - unfold Fixture.names.
    match goal with
    | |- _hasReadOnlyEffect (Store ?p ?m) _ = true =>
        destruct (@store_guards_computed_and_read_only SpecPath.spec_ops p m)
          as (G & _)
    end.
    eapply G.
    + right. right. right. left. reflexivity.
    + reflexivity.
    + left. discriminate.
  - destruct (@store_guards_computed_and_read_only SpecPath.spec_ops
                [("ro", Build_PropertyConfig true None (Some "changed"))]
                [("changed", fun _ => VUndef)]) as (_ & S).
    apply S. vm_compute. now left.
Defined.

(** ** A write to a property a computed property depends on *)

Section Computed.

Context {P : Path.Ops}.
Variable inst : Registry.


Lemma run_props_observe em id oldProps props ran s :
  forallb (fun kv => forallb (observer_ready inst) (snd kv)) em = true ->
  exists r l lr,
    run_props inst em id oldProps props ran s
    = Ret r (set_log (l ++ log s) (set_lastRun lr s)) /\
    __data (set_log (l ++ log s) (set_lastRun lr s)) = __data s.
Proof.
  intros H. revert ran s.
  induction props as [|p props IH]; intros ran s; cbn [run_props].
  - exists ran, [], (lastRun s). split; [|reflexivity].
    unfold ret. f_equal. destruct s; reflexivity.
  - unfold runEffectsForProperty.
    destruct (lookup (Path.root p) em) as [fxs|] eqn:El.
    + destruct (@run_fxs_observe P inst id p (old_of oldProps p) fxs false s)
        as (r & l & lr & E & _).
      { eapply lookup_forallb with (f := forallb (observer_ready inst));
          eauto. }
      rewrite (bind_step _ _ _ E).
      destruct (IH (r || ran) (set_log (l ++ log s) (set_lastRun lr s)))
        as (r' & l' & lr' & E' & _).
      rewrite E'. exists r', (l' ++ l), lr'. split; [|reflexivity].
      cbn [log set_log set_lastRun]. rewrite <- app_assoc. reflexivity.
    + rewrite bind_ret. apply IH.
Qed.

Lemma runEffects_observe_exact props oldProps s :
  observers_ready inst = true ->
  exists r l lr u,
    runEffects inst OBSERVE props oldProps s
    = Ret r (set_log (l ++ log s) (set_lastRun lr (set_effectUid u s))).
Proof.
  unfold observers_ready, runEffects, effects_of. intros H.
  destruct (__observeEffects inst) as [em|].
  - rewrite bind_gets, bind_modify.
    match goal with
    | |- context [run_props inst em ?id ?o ?p false ?s1] =>
        destruct (@run_props_observe em id o p false s1 H)
          as (r & l & lr & E & _)
    end.
    rewrite E. exists r, l, lr, (S (effectUid s)). reflexivity.
  - exists false, [], (lastRun s), (effectUid s).
    unfold ret. f_equal. apply state_eta.
Qed.


End Computed.

Section ComputedWrite.

Context {P : Path.Ops}.
Variable inst : Registry.






End ComputedWrite.




(** ** The array mutators on an existing array *)


Section Arrays.

Context {P : Path.Ops}.
Variable inst : Registry.
Hypothesis Ho : observers_ready inst = true.

(** [notifySplice] for an array under a path nothing is computed from. *)
Lemma notifySplice_plain fuel r items npath index added removed s :
  deref (heap s) r = Some (OArr items) ->
  feeds_nothing inst (npath ++ ".splices") = true ->
  feeds_nothing inst (npath ++ ".length") = true ->
  settled s ->
  exists s',
    notifySplice inst (S fuel) (VRef r) npath index added removed s
    = Ret tt s' /\
    settled s' /\
    (exists h, heap s' = heap s ++ h) /\
    own s' = own s /\
    strict_eq (read (npath ++ ".length") (__data s')) (count items) = true.
Proof.
  intros Hd Hfs Hfl Hs.
  unfold notifySplice.
  unfold bind at 1, alloc at 1. unfold bind at 1, alloc at 1.
  cbn [heap set_heap].
  match goal with
  | |- context [notifySplices_fn inst (S fuel) (VRef r) npath ?sp ?s0] =>
      destruct (@notifySplices_fn_plain P inst Ho fuel r items npath sp s0)
        as (s' & new & E & S' & (h & Hh) & O' & L & _)
  end; auto.
  { cbn [heap set_heap]. rewrite <- app_assoc. now apply deref_app. }
  exists s'. split; [exact E|]. split; [exact S'|].
  split; [|split; [exact O'|exact L]].
  cbn [heap set_heap] in Hh. rewrite Hh, <- !app_assoc.
  eexists. reflexivity.
Qed.

(** What the four mutators share: the array is written, and the splice is
    notified. *)
Lemma write_and_notify fuel r before after npath index added removed s :
  deref (heap s) r = Some (OArr before) ->
  feeds_nothing inst (npath ++ ".splices") = true ->
  feeds_nothing inst (npath ++ ".length") = true ->
  settled s ->
  exists s',
    notifySplice inst (S fuel) (VRef r) npath index added
      (VRef (length (heap s)))
      (set_heap (list_set r (OArr after) (heap s) ++ [OArr removed]) s)
    = Ret tt s' /\
    deref (heap s') r = Some (OArr after) /\
    strict_eq (read (npath ++ ".length") (__data s')) (count after) = true /\
    settled s' /\
    deref (heap s') (length (heap s)) = Some (OArr removed).
Proof.
  intros Hd Hfs Hfl Hs.
  destruct (@notifySplice_plain fuel r after npath index added
              (VRef (length (heap s)))
              (set_heap (list_set r (OArr after) (heap s) ++ [OArr removed])
                 s))
    as (s' & E & S' & (h & H') & _ & L); auto.
  { cbn [heap set_heap]. apply deref_app.
    now apply deref_list_set with (o' := OArr before). }
  exists s'. split; [exact E|].
  split; [|split; [assumption|split; [assumption|]]].
  - rewrite H'. cbn [heap set_heap]. rewrite <- app_assoc.
    apply deref_app. now apply deref_list_set with (o' := OArr before).
  - rewrite H'. cbn [heap set_heap]. apply deref_app. unfold deref.
    rewrite nth_error_app2; rewrite length_list_set; [|lia].
    now rewrite Nat.sub_diag.
Qed.

(** [splice] when it removes or inserts something. *)
Lemma splice_plain fuel path start deleteCount items r npath before s :
  Path_get inst This path s = (VRef r, npath) ->
  deref (heap s) r = Some (OArr before) ->
  feeds_nothing inst (npath ++ ".splices") = true ->
  feeds_nothing inst (npath ++ ".length") = true ->
  settled s ->
  let res := Array_splice before (splice_start (length before) start)
               deleteCount items in
  items <> [] \/ snd res <> [] ->
  exists s',
    splice inst (S fuel) path start deleteCount items s
    = Ret (VRef (length (heap s))) s' /\
    deref (heap s') r = Some (OArr (fst res)) /\
    strict_eq (read (npath ++ ".length") (__data s')) (count (fst res))
    = true /\
    settled s' /\
    deref (heap s') (length (heap s)) = Some (OArr (snd res)).
Proof.
  intros Hg Hd Hfs Hfl Hs res Hn. unfold splice.
  rewrite bind_gets, Hg. cbn [fst snd].
  unfold bind at 1, array_items at 1. rewrite Hd.
  fold res. destruct res as [after removed] eqn:Er. cbn [fst snd] in *.
  unfold array_write. rewrite bind_modify.
  unfold bind at 1, alloc at 1. cbn [heap set_heap].
  rewrite length_list_set.
  destruct (@write_and_notify fuel r before after npath
              (VNum (splice_start (length before) start)) (count items)
              removed s Hd Hfs Hfl Hs)
    as (s' & E & A & L & S' & R).
  exists s'.
  assert (X : (notifySplice inst (S fuel) (VRef r) npath
                 (VNum (splice_start (length before) start)) (count items)
                 (VRef (length (heap s)));;;
               ret (VRef (length (heap s))))
                (set_heap (list_set r (OArr after) (heap s) ++ [OArr removed])
                   s)
              = Ret (VRef (length (heap s))) s').
  { now rewrite (bind_step _ _ _ E). }
  split; [|auto].
  destruct items as [|i items]; [destruct removed as [|x removed]|];
    try exact X.
  destruct Hn; congruence.
Qed.

End Arrays.

(** X9.  The mutators of the ends of an array, on an array that exists
    under a path nothing is computed from, on a settled instance.  [push]
    and [unshift] of at least one item, and [pop] and [shift] on an array
    that is not empty, return: [push] and [unshift] the new length, [pop]
    the last and [shift] the first item.  The array then holds the items
    appended, prepended, or without its last or first item, the property
    [path.length] of the instance is the new length, and the instance is
    settled. *)
Theorem end_mutators_update_array_and_length {P : Path.Ops}
  (inst : Registry) (fuel : nat) (path npath : string) (r : nat)
  (before : list value) (s : State) :
  Path_get inst This path s = (VRef r, npath) ->
  deref (heap s) r = Some (OArr before) ->
  observers_ready inst = true ->
  feeds_nothing inst (npath ++ ".splices") = true ->
  feeds_nothing inst (npath ++ ".length") = true ->
  settled s ->
  let done (result : value) (after : list value) (m : M value) :=
    exists s',
      m s = Ret result s' /\
      deref (heap s') r = Some (OArr after) /\
      strict_eq (read (npath ++ ".length") (__data s')) (count after) = true
      /\ settled s' in
  (forall items, items <> [] ->
     done (count (before ++ items)) (before ++ items)
       (push inst (S fuel) path items)) /\
  (forall items, items <> [] ->
     done (count (items ++ before)) (items ++ before)
       (unshift inst (S fuel) path items)) /\
  (before <> [] ->
   done (last before VUndef) (removelast before) (pop inst (S fuel) path)) /\
  (before <> [] ->
   done (hd VUndef before) (tl before) (shift inst (S fuel) path)).
Proof.
  intros Hg Hd Ho Hfs Hfl Hs done. unfold done.
  assert (Hlen : prop_get (heap s) (VRef r) "length" = count before).
  { unfold prop_get. now rewrite Hd. }
  split; [|split; [|split]].
  - intros items Hi. unfold push.
    rewrite bind_gets, Hg. cbn [fst snd].
    unfold the_length. cbn [missing]. rewrite bind_gets.
    unfold bind at 1, array_items at 1. rewrite Hd.
    unfold array_write. rewrite bind_modify.
    destruct items as [|i items]; [congruence|].
    rewrite !bind_assoc. unfold bind at 1, alloc at 1.
    cbn [heap set_heap].
    rewrite length_list_set.
    destruct (@write_and_notify P inst Ho fuel r before
                (before ++ i :: items) npath
                (prop_get (heap s) (VRef r) "length")
                (count (i :: items)) [] s Hd Hfs Hfl Hs)
      as (s' & E & A & L & S' & _).
    rewrite (bind_step _ _ _ E). exists s'. auto.
  - intros items Hi. unfold unshift.
    rewrite bind_gets, Hg. cbn [fst snd].
    unfold bind at 1, array_items at 1. rewrite Hd.
    unfold array_write. rewrite bind_modify.
    destruct items as [|i items]; [congruence|].
    rewrite !bind_assoc. unfold bind at 1, alloc at 1.
    cbn [heap set_heap]. rewrite length_list_set.
    destruct (@write_and_notify P inst Ho fuel r before
                ((i :: items) ++ before) npath (VNum (of_nat 0))
                (count (i :: items)) [] s Hd Hfs Hfl Hs)
      as (s' & E & A & L & S' & _).
    rewrite (bind_step _ _ _ E). exists s'. auto.
  - intros Hb. unfold pop.
    rewrite bind_gets, Hg. cbn [fst snd].
    unfold the_length. cbn [missing]. rewrite bind_gets, Hlen.
    rewrite (truthy_count Hb).
    unfold bind at 1, array_items at 1. rewrite Hd.
    unfold array_write. rewrite bind_modify.
    rewrite !bind_assoc, bind_gets.
    rewrite !bind_assoc. unfold bind at 1, alloc at 1.
    cbn [heap set_heap]. rewrite length_list_set.
    destruct (@write_and_notify P inst Ho fuel r before
                (removelast before) npath
                (prop_get (list_set r (OArr (removelast before)) (heap s))
                   (VRef r) "length")
                (VNum (of_nat 0)) [last before VUndef] s Hd Hfs Hfl Hs)
      as (s' & E & A & L & S' & _).
    rewrite (bind_step _ _ _ E). exists s'. auto.
  - intros Hb. unfold shift.
    rewrite bind_gets, Hg. cbn [fst snd].
    unfold the_length. cbn [missing]. rewrite bind_gets, Hlen.
    rewrite (truthy_count Hb).
    unfold bind at 1, array_items at 1. rewrite Hd.
    unfold array_write. rewrite bind_modify.
    rewrite !bind_assoc. unfold bind at 1, alloc at 1.
    cbn [heap set_heap]. rewrite length_list_set.
    destruct (@write_and_notify P inst Ho fuel r before
                (tl before) npath (VNum (of_nat 0))
                (VNum (of_nat 0)) [hd VUndef before] s Hd Hfs Hfl Hs)
      as (s' & E & A & L & S' & _).
    rewrite (bind_step _ _ _ E). exists s'. auto.
Qed.

(** ** Removing an item by value *)

Lemma indexOf_found (x : value) (items : list value) (ind : nat) :
  Array_indexOf x items = Some ind ->
  ind < length items /\
  strict_eq (nth ind items VUndef) x = true /\
  forallb (fun y => negb (strict_eq y x)) (firstn ind items) = true.
Proof.
  revert ind. induction items as [|y items IH]; intros ind H; [discriminate|].
  simpl in H. destruct (strict_eq y x) eqn:E.
  - inversion H; subst. simpl. repeat split; auto. lia.
  - destruct (Array_indexOf x items) as [i|]; [|discriminate].
    inversion H; subst. destruct (IH i eq_refl) as (a & b & c).
    simpl. rewrite E. repeat split; auto. lia.
Qed.

Lemma splice_start_index (len ind : nat) :
  splice_start len (of_nat ind) = of_nat ind.
Proof.
  unfold splice_start, of_nat, num_lt.
  assert (L : Qle_bool (inject_Z (Z.of_nat 0)) (inject_Z (Z.of_nat ind))
              = true).
  { apply Qle_bool_iff. unfold Qle. cbn [inject_Z Qnum Qden]. lia. }
  rewrite L. cbn [negb Math_floor]. rewrite Qfloor_Z.
  unfold num_falsy.
  destruct (Qeq_bool (inject_Z (Z.of_nat ind)) 0) eqn:E; [|reflexivity].
  apply Qeq_bool_eq in E. unfold Qeq in E. cbn [inject_Z Qnum Qden] in E.
  assert (ind = 0) by lia. now subst ind.
Qed.

Lemma Array_splice_one (items : list value) (ind : nat) :
  ind < length items ->
  Array_splice items (of_nat ind) (of_nat 1) []
  = (firstn ind items ++ skipn (S ind) items, [nth ind items VUndef]).
Proof.
  intros H. unfold Array_splice, actual_start, actual_delete, of_nat, Qtrunc.
  cbn [inject_Z Qnum Qden]. rewrite !Z.quot_1_r.
  assert (L : (Z.of_nat ind <? 0)%Z = false) by (apply Z.ltb_ge; lia).
  rewrite L, Nat2Z.id, Nat.min_l by lia.
  assert (D : Z.to_nat (Z.min (Z.max (Z.of_nat 1) 0)
                          (Z.of_nat (length items - ind))) = 1) by lia.
  rewrite D, Nat.add_1_r. cbn [app]. f_equal.
  clear L D. revert ind H.
  induction items as [|y items IH]; intros [|ind] H; simpl in *; try lia.
  - reflexivity.
  - apply IH. lia.
Qed.

(** X10.  [spliceByValue] removes the first item that is strictly equal to
    the value.  On a settled instance, for an array that exists under a
    path nothing is computed from: when the array holds such an item, the
    call returns a new array that holds that one item, the array then holds
    the other items in their order, and the property [path.length] of the
    instance is the new length; no item before the removed one is strictly
    equal to the value. *)
Theorem spliceByValue_removes_first_match {P : Path.Ops} (inst : Registry)
  (fuel : nat) (path npath : string) (r ind : nat) (before : list value)
  (x : value) (s : State) :
  Path_get inst This path s = (VRef r, npath) ->
  deref (heap s) r = Some (OArr before) ->
  observers_ready inst = true ->
  feeds_nothing inst (npath ++ ".splices") = true ->
  feeds_nothing inst (npath ++ ".length") = true ->
  settled s ->
  Array_indexOf x before = Some ind ->
  exists s',
    spliceByValue inst (S fuel) path x s = Ret (VRef (length (heap s))) s' /\
    deref (heap s') (length (heap s)) = Some (OArr [nth ind before VUndef]) /\
    strict_eq (nth ind before VUndef) x = true /\
    forallb (fun y => negb (strict_eq y x)) (firstn ind before) = true /\
    deref (heap s') r
    = Some (OArr (firstn ind before ++ skipn (S ind) before)) /\
    strict_eq (read (npath ++ ".length") (__data s'))
      (VNum (of_nat (length before - 1))) = true /\
    settled s'.
Proof.
  intros Hg Hd Ho Hfs Hfl Hs Hx.
  destruct (indexOf_found _ _ Hx) as (Hlt & Heq & Hfirst).
  unfold spliceByValue. rewrite bind_gets, Hg. cbn [fst snd].
  unfold the_length. cbn [missing]. rewrite bind_gets.
  unfold prop_get at 1. rewrite Hd. cbn [String.eqb Ascii.eqb Bool.eqb].
  fold (count before). rewrite truthy_count.
  2:{ intros E. subst before. simpl in Hlt. lia. }
  unfold bind at 1, array_items at 1. rewrite Hd, Hx.
  destruct (@splice_plain P inst Ho fuel path (of_nat ind) (of_nat 1) []
              r npath before s Hg Hd Hfs Hfl Hs)
    as (s' & E & A & L & S' & R).
  { rewrite splice_start_index, Array_splice_one by exact Hlt.
    right. discriminate. }
  rewrite splice_start_index, Array_splice_one in A, L, R by exact Hlt.
  cbn [fst snd] in A, L, R.
  exists s'. split; [exact E|]. split; [exact R|].
  split; [exact Heq|]. split; [exact Hfirst|]. split; [exact A|].
  split; [|exact S'].
  assert (Len : length (firstn ind before ++ skipn (S ind) before)
                = length before - 1).
  { rewrite length_app, length_firstn, length_skipn. lia. }
  unfold count in L. now rewrite Len in L.
Qed.

Lemma end_mutators_update_array_and_length_witness :
  exists s',
    push Fixture.names 1 "tourists" [Fixture.num 2]
      (Fixture.with_tourists [Fixture.num 1])
    = Ret (VNum (of_nat 2)) s' /\
    deref (heap s') 0 = Some (OArr [Fixture.num 1; Fixture.num 2]).
Proof.
  assert (G : Path_get Fixture.names This "tourists"
                (Fixture.with_tourists [Fixture.num 1])
              = (VRef 0, "tourists")) by (vm_compute; reflexivity).
  assert (R : observers_ready Fixture.names = true)
    by (vm_compute; reflexivity).
  assert (F1 : feeds_nothing Fixture.names ("tourists" ++ ".splices") = true)
    by (vm_compute; reflexivity).
  assert (F2 : feeds_nothing Fixture.names ("tourists" ++ ".length") = true)
    by (vm_compute; reflexivity).
  destruct (@end_mutators_update_array_and_length SpecPath.spec_ops
              Fixture.names 0 "tourists" "tourists" 0 [Fixture.num 1]
              (Fixture.with_tourists [Fixture.num 1]) G eq_refl R F1 F2
              (@settled_ready [OArr [Fixture.num 1]]
                 [("tourists", VRef 0)]))
    as (Hpush & _).
  destruct (Hpush [Fixture.num 2]) as (s' & E & A & _); [discriminate|].
  exists s'. split; [exact E|exact A].
Defined.

Lemma spliceByValue_removes_first_match_witness :
  exists s',
    spliceByValue Fixture.names 1 "tourists" (Fixture.num 1)
      (Fixture.with_tourists [Fixture.num 2; Fixture.num 1; Fixture.num 1])
    = Ret (VRef 1) s' /\
    deref (heap s') 1 = Some (OArr [Fixture.num 1]) /\
    deref (heap s') 0 = Some (OArr [Fixture.num 2; Fixture.num 1]).
Proof.
  assert (G : Path_get Fixture.names This "tourists"
                (Fixture.with_tourists
                   [Fixture.num 2; Fixture.num 1; Fixture.num 1])
              = (VRef 0, "tourists")) by (vm_compute; reflexivity).
  assert (R : observers_ready Fixture.names = true)
    by (vm_compute; reflexivity).
  assert (F1 : feeds_nothing Fixture.names ("tourists" ++ ".splices") = true)
    by (vm_compute; reflexivity).
  assert (F2 : feeds_nothing Fixture.names ("tourists" ++ ".length") = true)
    by (vm_compute; reflexivity).
  assert (I : Array_indexOf (Fixture.num 1)
                [Fixture.num 2; Fixture.num 1; Fixture.num 1] = Some 1)
    by (vm_compute; reflexivity).
  destruct (@spliceByValue_removes_first_match SpecPath.spec_ops
              Fixture.names 0 "tourists" "tourists" 0 1
              [Fixture.num 2; Fixture.num 1; Fixture.num 1] (Fixture.num 1)
              (Fixture.with_tourists
                 [Fixture.num 2; Fixture.num 1; Fixture.num 1])
              G eq_refl R F1 F2
              (@settled_ready
                 [OArr [Fixture.num 2; Fixture.num 1; Fixture.num 1]]
                 [("tourists", VRef 0)]) I)
    as (s' & E & A & _ & _ & B & _).
  exists s'. split; [exact E|]. split; [exact A|exact B].
Defined.

(** X11.  A mutator that has nothing to do notifies nothing.  For an array
    that exists, whatever the state of the instance: [push] and [unshift]
    without items return the length and leave the instance as it is, and so
    do [pop] and [shift] on an empty array, which return [undefined];
    [spliceByValue] of a value no item is strictly equal to, and [splice]
    with a delete count of 0 and no items, only allocate the empty array
    they return. *)
Theorem idle_mutators_notify_nothing {P : Path.Ops} (inst : Registry)
  (fuel : nat) (path npath : string) (r : nat) (before : list value)
  (s : State) :
  Path_get inst This path s = (VRef r, npath) ->
  deref (heap s) r = Some (OArr before) ->
  push inst fuel path [] s = Ret (count before) s /\
  unshift inst fuel path [] s = Ret (count before) s /\
  (before = [] ->
   pop inst fuel path s = Ret VUndef s /\
   shift inst fuel path s = Ret VUndef s) /\
  (forall x, Array_indexOf x before = None ->
     spliceByValue inst fuel path x s
     = Ret (VRef (length (heap s))) (set_heap (heap s ++ [OArr []]) s)) /\
  (forall start,
     splice inst fuel path start (of_nat 0) [] s
     = Ret (VRef (length (heap s))) (set_heap (heap s ++ [OArr []]) s)).
Proof.
  intros Hg Hd.
  assert (Hlen : prop_get (heap s) (VRef r) "length" = count before).
  { unfold prop_get. now rewrite Hd. }
  assert (Hw : forall items, items = before ->
            set_heap (list_set r (OArr items) (heap s)) s = s).
  { intros items ->. rewrite list_set_same by exact Hd.
    apply set_heap_same. }
  split; [|split; [|split; [|split]]].
  - unfold push. rewrite bind_gets, Hg. cbn [fst snd].
    unfold the_length. cbn [missing]. rewrite bind_gets.
    unfold bind at 1, array_items at 1. rewrite Hd.
    unfold array_write. rewrite bind_modify, bind_ret.
    rewrite app_nil_r. unfold ret. now rewrite Hw.
  - unfold unshift. rewrite bind_gets, Hg. cbn [fst snd].
    unfold bind at 1, array_items at 1. rewrite Hd.
    unfold array_write. rewrite bind_modify, bind_ret.
    cbn [app]. unfold ret. now rewrite Hw.
  - intros ->. split.
    + unfold pop. rewrite bind_gets, Hg. cbn [fst snd].
      unfold the_length. cbn [missing]. rewrite bind_gets, Hlen.
      unfold bind at 1, array_items at 1. rewrite Hd.
      unfold array_write. rewrite bind_modify.
      cbn [removelast last]. rewrite Hw by reflexivity. reflexivity.
    + unfold shift. rewrite bind_gets, Hg. cbn [fst snd].
      unfold the_length. cbn [missing]. rewrite bind_gets, Hlen.
      unfold bind at 1, array_items at 1. rewrite Hd.
      unfold array_write. rewrite bind_modify.
      cbn [tl hd]. rewrite Hw by reflexivity. reflexivity.
  - intros x Hx. unfold spliceByValue. rewrite bind_gets, Hg. cbn [fst snd].
    unfold the_length. cbn [missing]. rewrite bind_gets, Hlen.
    destruct (truthy (count before)); [|reflexivity].
    unfold bind at 1, array_items at 1. rewrite Hd, Hx. reflexivity.
  - intros start. unfold splice. rewrite bind_gets, Hg. cbn [fst snd].
    unfold bind at 1, array_items at 1. rewrite Hd.
    unfold Array_splice.
    set (a := actual_start (length before)
                (splice_start (length before) start)).
    assert (D : actual_delete (length before) a (of_nat 0) = 0).
    { unfold actual_delete, of_nat, Qtrunc. cbn [inject_Z Qnum Qden].
      rewrite Z.quot_1_r. lia. }
    rewrite D, Nat.add_0_r. cbn [app firstn]. rewrite firstn_skipn.
    unfold array_write. rewrite bind_modify, Hw by reflexivity.
    reflexivity.
Qed.

Lemma idle_mutators_notify_nothing_witness :
  push Fixture.names 0 "tourists" [] (Fixture.with_tourists [Fixture.num 1])
  = Ret (VNum (of_nat 1)) (Fixture.with_tourists [Fixture.num 1]) /\
  pop Fixture.names 0 "tourists" (Fixture.with_tourists [])
  = Ret VUndef (Fixture.with_tourists []).
Proof.
  split.
  - refine (proj1 (@idle_mutators_notify_nothing SpecPath.spec_ops
                     Fixture.names 0 "tourists" "tourists" 0 [Fixture.num 1]
                     (Fixture.with_tourists [Fixture.num 1]) _ eq_refl)).
    vm_compute. reflexivity.
  - refine (proj1 (proj1 (proj2 (proj2
              (@idle_mutators_notify_nothing SpecPath.spec_ops
                 Fixture.names 0 "tourists" "tourists" 0 []
                 (Fixture.with_tourists []) _ eq_refl))) eq_refl)).
    vm_compute. reflexivity.
Defined.

(** ** The accessor of a property is defined once *)

Section Accessors.

Context {P : Path.Ops}.

Lemma addPropertyEffect_lookup path type effect r k b :
  accessors_match r -> lookup k (accessors r) = Some b ->
  lookup k (accessors (_addPropertyEffect path type effect r)) = Some b.
Proof.
  intros Hinv Hk. rewrite addPropertyEffect_eq.
  assert (A : lookup k (accessors (with_entry path type r)) = Some b).
  { unfold with_entry.
    destruct (lookup (Path.root path) (ensureOwnEffectMap ANY r)) eqn:El.
    - now destruct (set_effects_rest ANY (Some (ensureOwnEffectMap ANY r)) r)
        as (-> & _).
    - unfold _createPropertyAccessor. cbn [accessors].
      destruct (set_effects_rest ANY
                  (Some (assign (Path.root path) []
                           (ensureOwnEffectMap ANY r))) r) as (-> & _).
      rewrite lookup_assign_other; auto.
      intros E. rewrite <- E in El.
      assert (H : has_key k (accessors r) = true)
        by (unfold has_key; now rewrite Hk).
      rewrite Hinv, <- hasEffect_ensure in H. unfold has_key in H.
      now rewrite El in H. }
  destruct effect as [[fn info]|].
  - match goal with
    | |- context [push_effect type ?p ?e ?r2] =>
        destruct (push_effect_rest type p e r2) as (-> & _)
    end.
    match goal with
    | |- context [push_effect ANY ?p ?e ?r1] =>
        destruct (push_effect_rest ANY p e r1) as (-> & _)
    end.
    exact A.
  - match goal with
    | |- context [push_effect type ?p ?e ?r2] =>
        destruct (push_effect_rest type p e r2) as (-> & _)
    end.
    exact A.
Qed.

Lemma keeps_accessors_refl r : keeps_accessors r r.
Proof. intros H. split; auto. Qed.

Lemma keeps_accessors_trans r1 r2 r3 :
  keeps_accessors r1 r2 -> keeps_accessors r2 r3 -> keeps_accessors r1 r3.
Proof.
  intros H12 H23 H1. destruct (H12 H1) as (H2 & L12).
  destruct (H23 H2) as (H3 & L23). split; auto.
Qed.

Lemma keeps_accessors_add path type effect r :
  type <> ANY -> keeps_accessors r (_addPropertyEffect path type effect r).
Proof.
  intros Ht H. split.
  - now apply accessors_match_add.
  - intros k b. now apply addPropertyEffect_lookup.
Qed.

Lemma keeps_accessors_same r r' :
  __propertyEffects r' = __propertyEffects r -> accessors r' = accessors r ->
  keeps_accessors r r'.
Proof.
  intros E A H. split.
  - intros q. unfold _hasPropertyEffect, effects_of. rewrite E, A. apply H.
  - intros k b. now rewrite A.
Qed.

Lemma keeps_accessors_fold_args type fn info args r :
  type <> ANY ->
  keeps_accessors r
    (fold_left
       (fun acc arg =>
          if arg_literal arg then acc
          else _addPropertyEffect (arg_name arg) type
                 (Some (fn, Some info)) acc) args r).
Proof.
  intros Ht. revert r.
  induction args as [|a args IH]; intros r; cbn [fold_left].
  - apply keeps_accessors_refl.
  - eapply keeps_accessors_trans; [|apply IH].
    destruct (arg_literal a); [apply keeps_accessors_refl|].
    now apply keeps_accessors_add.
Qed.

Lemma keeps_accessors_method sig type fn methodInfo dynamic r :
  type <> ANY ->
  keeps_accessors r (createMethodEffect sig type fn methodInfo dynamic r).
Proof.
  intros Ht. unfold createMethodEffect, new_info.
  eapply keeps_accessors_trans.
  { apply keeps_accessors_same with
      (r' := Build_Registry (__propertyEffects r) (__computeEffects r)
               (__observeEffects r) (__readOnly r) (accessors r)
               (infos r ++ [Build_Info (sig_methodName sig)
                              (Some (sig_args sig)) methodInfo dynamic])
               (methods r) (setters r)); reflexivity. }
  assert (K : forall r0,
            keeps_accessors r0
              (if sig_static sig
               then _addPropertyEffect "__static__" type
                      (Some (fn, Some (length (infos r)))) r0
               else fold_left
                      (fun acc arg =>
                         if arg_literal arg then acc
                         else _addPropertyEffect (arg_name arg) type
                                (Some (fn, Some (length (infos r)))) acc)
                      (sig_args sig) r0)).
  { intros r0. destruct (sig_static sig).
    - now apply keeps_accessors_add.
    - now apply keeps_accessors_fold_args. }
  destruct dynamic.
  - eapply keeps_accessors_trans; [apply K|].
    now apply keeps_accessors_add.
  - apply K.
Qed.

Lemma keeps_accessors_config name cfg r :
  keeps_accessors r (_createPropertyFromConfig name cfg r).
Proof.
  unfold _createPropertyFromConfig.
  eapply keeps_accessors_trans; [|eapply keeps_accessors_trans].
  - instantiate (1 := match cfg_computed cfg with
                      | Some sig =>
                          if _hasReadOnlyEffect r name then r
                          else _createComputedProperty name sig r
                      | None => r
                      end).
    destruct (cfg_computed cfg) as [sig|]; [|apply keeps_accessors_refl].
    destruct (_hasReadOnlyEffect r name); [apply keeps_accessors_refl|].
    apply keeps_accessors_method. discriminate.
  - match goal with
    | |- keeps_accessors ?r1 _ =>
        instantiate (1 := if (match cfg_computed cfg with
                              | Some _ => true
                              | None => cfg_readOnly cfg
                              end) && negb (_hasReadOnlyEffect r1 name)
                          then _createReadOnlyProperty name
                                 (match cfg_computed cfg with
                                  | Some _ => false
                                  | None => true
                                  end) r1
                          else r1)
    end.
    match goal with
    | |- keeps_accessors ?r1 (if ?c then _ else _) => destruct c
    end; [|apply keeps_accessors_refl].
    unfold _createReadOnlyProperty.
    match goal with
    | |- keeps_accessors ?r1 (if ?c then _ else _) => destruct c
    end.
    + eapply keeps_accessors_trans.
      * apply keeps_accessors_add with (type := READ_ONLY). discriminate.
      * apply keeps_accessors_same; reflexivity.
    + apply keeps_accessors_add. discriminate.
  - destruct (cfg_observer cfg) as [m|]; [|apply keeps_accessors_refl].
    unfold _createObservedProperty, new_info.
    eapply keeps_accessors_trans.
    2:{ apply keeps_accessors_add. discriminate. }
    apply keeps_accessors_same; reflexivity.
Qed.

Lemma keeps_accessors_finalize props r :
  keeps_accessors r (_finalizeConfig props r).
Proof.
  unfold _finalizeConfig. revert r.
  induction props as [|[name cfg] props IH]; intros r; cbn [fold_left].
  - apply keeps_accessors_refl.
  - eapply keeps_accessors_trans; [|apply IH].
    apply keeps_accessors_config.
Qed.

End Accessors.

(** X12.  The accessor of a property is defined once, by the first effect
    the property gets: what the configuration declares later does not
    change it.  So a property that has a setter that writes keeps it when
    it is later declared computed or read-only; the read-only guard of
    [set] does not apply to an assignment through that setter. *)
Theorem accessor_is_decided_by_first_effect {P : Path.Ops}
  (props more : jsobj PropertyConfig) (mt : jsobj (list value -> value))
  (k : string) (b : bool) :
  lookup k (accessors (Store props mt)) = Some b ->
  lookup k (accessors (Store (props ++ more) mt)) = Some b /\
  (b = false ->
   forall fuel v,
     inst_assign (Store (props ++ more) mt) fuel k v
     = _setProperty (Store (props ++ more) mt) fuel k v).
Proof.
  intros H.
  assert (L : lookup k (accessors (Store (props ++ more) mt)) = Some b).
  { unfold Store, _finalizeConfig in *. rewrite fold_left_app.
    match goal with
    | |- context [fold_left ?f more ?r0] =>
        destruct (@keeps_accessors_finalize P more r0) as (_ & K)
    end.
    - destruct (finalizeConfig_extends props
                  (Build_Registry None None None None [] [] mt []))
        as (A & _).
      apply A. intros q. reflexivity.
    - apply K. exact H. }
  split; [exact L|].
  intros -> fuel v. unfold inst_assign. now rewrite L.
Qed.

Lemma accessor_is_decided_by_first_effect_witness :
  _hasReadOnlyEffect Fixture.late "full" = true /\
  lookup "full" (accessors Fixture.late) = Some false /\
  (exists s',
     inst_assign Fixture.late 2 "full" (VStr "x") (Fixture.ready_state [])
     = Ret tt s' /\ read "full" (__data s') = VStr "x") /\
  set Fixture.late 2 "full" (VStr "x") VUndef (Fixture.ready_state [])
  = Ret tt (Fixture.ready_state []).
Proof.
  split; [vm_compute; reflexivity|].
  destruct (@accessor_is_decided_by_first_effect SpecPath.spec_ops
              [("first", Build_PropertyConfig false None None);
               ("valid",
                Build_PropertyConfig false
                  (Some (Build_Signature "check" false [Fixture.arg "full"]))
                  None)]
              [("full",
                Build_PropertyConfig false
                  (Some (Build_Signature "join" false [Fixture.arg "first"]))
                  None)]
              [("check", fun a => VBool (truthy (hd VUndef a)));
               ("join", fun a => hd VUndef a)]
              "full" false) as (L & W).
  { vm_compute. reflexivity. }
  split; [exact L|]. split.
  - eexists. split.
    + unfold Fixture.late. cbn [app] in W. rewrite (W eq_refl).
      vm_compute. reflexivity.
    + vm_compute. reflexivity.
  - vm_compute. reflexivity.
Defined.

(** ** Asynchronous effects *)

Section Async.

Context {P : Path.Ops}.
Variable inst : Registry.




End Async.



(** ** Linked paths *)

Section Links.

Context {P : Path.Ops}.
Variable inst : Registry.

Lemma linkPaths_settled to from s :
  from <> "" -> __dataLinkedPaths s = None ->
  linkPaths to from s = Ret tt (set_dataLinkedPaths (Some [(to, from)]) s).
Proof.
  intros Hf Hl. unfold linkPaths. rewrite bind_gets, Hl, bind_modify.
  apply String.eqb_neq in Hf. rewrite Hf. reflexivity.
Qed.

Ltac linked_tail Ho Hit Hio :=
  rewrite ?bind_assoc;
  match goal with
  | |- context [bind (notifyProperties ?c0 ?k0 ?o0) _ ?s0] =>
      rewrite (bind_step _ _ _
                 (@notifyProperties_plain c0 k0 o0 s0 Hit Hio))
  end;
  cbv beta iota; rewrite ?bind_assoc;
  rewrite (bind_step _ _ _ (flushClients_exact _)); rewrite ?bind_assoc;
  match goal with
  | |- context [bind (runEffects ?inst OBSERVE ?c0 ?o0) _ ?s0] =>
      destruct (@runEffects_observe_exact _ inst c0 o0 s0 Ho)
        as (r & l & lr & u' & E3);
      rewrite (bind_step _ _ _ E3); rewrite bind_ret; unfold modify;
      eexists; exists l;
      (split; [reflexivity|]); (split; [reflexivity|]);
      (split; [reflexivity|]);
      intros l0 m Hlink Hobs; inversion Hlink; subst l0
  end.

Ltac linked_fires :=
  match goal with
  | E3 : runEffects _ OBSERVE _ _ _ = Ret _ _, Hobs : observes _ _ _ |- _ =>
      eapply runEffects_fires in E3; [|exact Hobs| |];
      [destruct E3 as (l' & L' & N');
       cbn [log set_log set_lastRun set_effectUid set_dataPendingClients
              set_dataInterimOld set_dataInterim set_runId set_data
              set_dataPending set_dataFromAbove set_dataOld] in L';
       apply app_inv_tail in L'; now subst l'
      |apply has_key_assign_same|]
  end.

(** A write to a property that only observers depend on, while the paths
    [a] and [b] are linked. *)
Lemma setProperty_linked fuel a b p v s :
  observers_ready inst = true -> feeds_nothing inst p = true ->
  __dataInitialized s = true -> _asyncEffects s = false ->
  __dataPending s = None ->
  __dataInterim s = None -> __dataInterimOld s = None ->
  __dataLinkedPaths s = Some [(a, b)] -> stamps_below s ->
  _shouldPropChange p v (read p (__data s)) = true ->
  let d := assign p v (if String.eqb (typeof v) "object"
                       then clear_cached p (__data s) else __data s) in
  let link := if Path.isDescendant a p then Some (Path.translate a b p)
              else if Path.isDescendant b p
                   then Some (Path.translate b a p) else None in
  exists s' new,
    _setProperty inst (S fuel) p v s = Ret tt s' /\
    log s' = new ++ log s /\
    __data s' = match link with
                | Some l => assign l v d
                | None => d
                end /\
    forall l m, link = Some l -> observes inst l m -> calls_of m new <> [].
Proof.
  intros Ho Hf Hi Ha Hp Hit Hio Hl Hst Hc d link.
  unfold _setProperty.
  rewrite (bind_step _ _ _ (setPendingProperty_exact p v s Hc Hp)).
  fold d.
  unfold _invalidateProperties.
  rewrite bind_gets. cbn [__dataInitialized set_dataPending set_data
                            set_dataOld]. rewrite Hi.
  rewrite bind_gets. cbn [_asyncEffects set_dataPending set_data
                            set_dataOld]. rewrite Ha.
  unfold _flushProperties.
  rewrite bind_gets. cbn [__dataInitialized set_dataPending set_data
                            set_dataOld]. rewrite Hi.
  rewrite bind_ret, bind_gets, bind_gets.
  cbn [__dataPending set_dataPending]. rewrite bind_modify.
  unfold super_flushProperties.
  rewrite !bind_assoc, bind_gets, !bind_assoc, bind_gets.
  rewrite !bind_assoc, bind_modify.
  cbn [__dataPending __dataOld set_dataPending set_data set_dataOld
         set_dataFromAbove].
  unfold _propertiesChanged. rewrite !bind_assoc.
  match goal with
  | |- context [bind (runComputedEffects inst (S fuel) _ ?o0) _ ?s0] =>
      destruct (@runComputedEffects_plain P inst fuel p v o0 s0 Hf)
        as (u & E1 & Hu)
  end.
  cbn [effectUid set_dataPending set_data set_dataOld set_dataFromAbove]
    in Hu.
  rewrite (bind_step _ _ _ E1). clear E1. cbv beta iota.
  unfold computeLinkedPaths. rewrite !bind_assoc, bind_gets.
  cbn [__dataLinkedPaths set_dataPending set_dataFromAbove set_effectUid
         set_data set_dataOld].
  rewrite Hl. cbn [link_all link_paths keys map fst].
  assert (Rp : read p [(p, v)] = v).
  { unfold read. simpl. now rewrite String.eqb_refl. }
  assert (Hst' : forall i r, lastRun s i = Some r -> r < u).
  { intros i r E. apply Hst in E. lia. }
  destruct (Path.isDescendant a p) eqn:Da;
    [|destruct (Path.isDescendant b p) eqn:Db];
    unfold link; rewrite ?Da, ?Db; clear link.
  - unfold mirror. rewrite Rp.
    rewrite !bind_assoc, bind_modify, !bind_ret. cbn [fst snd].
    cbn [__data set_effectUid set_dataPending set_dataFromAbove set_data].
    linked_tail Ho Hit Hio. linked_fires. exact Hst'.
  - unfold mirror. rewrite Rp.
    rewrite !bind_assoc, bind_modify, !bind_ret. cbn [fst snd].
    cbn [__data set_effectUid set_dataPending set_dataFromAbove set_data].
    linked_tail Ho Hit Hio. linked_fires. exact Hst'.
  - rewrite !bind_assoc, !bind_ret. cbn [fst snd].
    linked_tail Ho Hit Hio.
Qed.

End Links.

(** X14.  Linked paths mirror each other.  After [linkPaths(to, from)] on a
    settled instance, a write that is a change to a path [p] that only
    observers depend on returns, and [p] reads the new value.  When [p] is
    [to] or below it, the path translated to [from] reads the new value as
    well, and its observers are called; the same holds the other way round
    when [p] is [from] or below it.  A write to any other path is not
    mirrored. *)
Theorem linked_paths_mirror_changes {P : Path.Ops} (inst : Registry)
  (fuel : nat) (to from p : string) (v : value) (s : State) :
  observers_ready inst = true -> feeds_nothing inst p = true ->
  settled s -> stamps_below s -> from <> "" ->
  _shouldPropChange p v (read p (__data s)) = true ->
  let link := if Path.isDescendant to p then Some (Path.translate to from p)
              else if Path.isDescendant from p
                   then Some (Path.translate from to p) else None in
  exists s' new,
    (linkPaths to from ;;; _setProperty inst (S fuel) p v) s = Ret tt s' /\
    log s' = new ++ log s /\
    read p (__data s') = v /\
    (forall l, link = Some l ->
       read l (__data s') = v /\
       forall m, observes inst l m -> calls_of m new <> []) /\
    (link = None ->
     __data s' = assign p v (if String.eqb (typeof v) "object"
                             then clear_cached p (__data s)
                             else __data s)).
Proof.
  intros Ho Hf (Hi & Ha & Hp & Hl & Hit & Hio) Hst Hfrom Hc link.
  rewrite (bind_step _ _ _ (@linkPaths_settled to from s Hfrom Hl)).
  destruct (@setProperty_linked P inst fuel to from p v
              (set_dataLinkedPaths (Some [(to, from)]) s)
              Ho Hf Hi Ha Hp Hit Hio eq_refl Hst Hc)
    as (s' & new & E & L & D & F).
  fold link in D, F. cbn [__data set_dataLinkedPaths] in D.
  exists s', new. split; [exact E|]. split; [exact L|].
  assert (Rd : forall d, read p (assign p v d) = v).
  { intros d. unfold read. now rewrite lookup_assign_same. }
  split; [|split].
  - rewrite D. destruct link as [l|]; [|apply Rd].
    destruct (String.eqb p l) eqn:E'.
    + apply String.eqb_eq in E'. subst l. apply Rd.
    + apply String.eqb_neq in E'. unfold read.
      rewrite lookup_assign_other by exact E'. apply Rd.
  - intros l El. split.
    + rewrite D, El. unfold read. now rewrite lookup_assign_same.
    + intros m. now apply F.
  - intros El. now rewrite D, El.
Qed.

Lemma linked_paths_mirror_changes_witness :
  exists s',
    (linkPaths "tourists" "guests" ;;;
     _setProperty Fixture.names 1 "tourists.first" (VStr "Ann"))
      (Fixture.with_tourists []) = Ret tt s' /\
    read "guests.first" (__data s') = VStr "Ann" /\
    read "tourists.first" (__data s') = VStr "Ann".
Proof.
  assert (R : observers_ready Fixture.names = true)
    by (vm_compute; reflexivity).
  assert (F : feeds_nothing Fixture.names "tourists.first" = true)
    by (vm_compute; reflexivity).
  assert (N : "guests" <> "") by discriminate.
  assert (C : _shouldPropChange "tourists.first" (VStr "Ann")
                (read "tourists.first" (__data (Fixture.with_tourists [])))
              = true) by (vm_compute; reflexivity).
  destruct (@linked_paths_mirror_changes SpecPath.spec_ops Fixture.names 0
              "tourists" "guests" "tourists.first" (VStr "Ann")
              (Fixture.with_tourists []) R F
              (@settled_ready [OArr []] [("tourists", VRef 0)])
              (@stamps_below_ready [OArr []] [("tourists", VRef 0)]) N C)
    as (s' & new & E & _ & Rp & M & _).
  exists s'. split; [exact E|]. split; [|exact Rp].
  apply (M "guests.first"). vm_compute. reflexivity.
Defined.

(** ** The public writes of one property *)

(** X15.  The public writes of a managed property go through
    [_setProperty].  For a plain, non-empty property name that has effects
    and no READ_ONLY effect, [set] with no root is [_setProperty]: no path
    is walked and nothing else is written.  On a settled instance without
    pending clients, [setProperties] with this one property is
    [_setProperty] too: a value that is a change is flushed once, and for
    a value that is no change the flush [setProperties] asks for finds
    nothing to do. *)
Theorem set_is_setProperty {P : Path.Ops} (inst : Registry) (fuel : nat)
  (p : string) (v : value) (s : State) :
  Path.root p = p -> p <> "" -> _hasPropertyEffect inst p ANY = true ->
  _hasReadOnlyEffect inst p = false ->
  set inst fuel p v VUndef s = _setProperty inst fuel p v s /\
  (settled s -> __dataPendingClients s = None ->
   setProperties inst fuel [(p, v)] s = _setProperty inst fuel p v s).
Proof.
  intros Hr Hne He Hro.
  assert (Hp : _setPathOrUnmanagedProperty inst fuel p v s = Ret (Some p) s).
  { unfold _setPathOrUnmanagedProperty. rewrite Hr, He, String.eqb_refl.
    reflexivity. }
  assert (Ht : truthy_path (Some p) = Some p).
  { unfold truthy_path. apply String.eqb_neq in Hne. now rewrite Hne. }
  split.
  - unfold set. cbn [truthy]. rewrite Hro. cbn [negb].
    rewrite (bind_step _ _ _ Hp), Ht. reflexivity.
  - intros (Hi & Ha & Hpe & _) Hcl.
    unfold setProperties, setProperties_loop. rewrite Hro. cbn [negb].
    rewrite !bind_assoc, (bind_step _ _ _ Hp), Ht.
    unfold _setProperty. rewrite !bind_assoc.
    destruct (_shouldPropChange p v (read p (__data s))) eqn:C.
    + rewrite (bind_step _ _ _ (@setPendingProperty_exact P p v s C Hpe)).
      rewrite (bind_step _ _ _ (@setPendingProperty_exact P p v s C Hpe)).
      rewrite !bind_ret. reflexivity.
    + rewrite (bind_step _ _ _ (@setPendingProperty_unchanged P p v s C)).
      rewrite (bind_step _ _ _ (@setPendingProperty_unchanged P p v s C)).
      rewrite !bind_ret. unfold _invalidateProperties.
      rewrite bind_gets, Hi, bind_gets, Ha. unfold _flushProperties.
      rewrite bind_gets, Hi, bind_ret, bind_gets, bind_gets, Hpe, Hcl.
      reflexivity.
Qed.

Lemma set_is_setProperty_witness :
  set Fixture.names 1 "tourists" (VStr "x") VUndef (Fixture.ready_state [])
  = _setProperty Fixture.names 1 "tourists" (VStr "x")
      (Fixture.ready_state []) /\
  setProperties Fixture.names 1 [("tourists", VStr "x")]
    (Fixture.ready_state [])
  = _setProperty Fixture.names 1 "tourists" (VStr "x")
      (Fixture.ready_state []).
Proof.
  assert (N : "tourists" <> "") by discriminate.
  assert (E : _hasPropertyEffect Fixture.names "tourists" ANY = true)
    by (vm_compute; reflexivity).
  assert (R : _hasReadOnlyEffect Fixture.names "tourists" = false)
    by (vm_compute; reflexivity).
  destruct (@set_is_setProperty SpecPath.spec_ops Fixture.names 1
              "tourists" (VStr "x") (Fixture.ready_state [])
              eq_refl N E R) as (A & B).
  split; [exact A|].
  apply B; [exact (@settled_ready [] [])|reflexivity].
Defined.
